(** * d2l-pytorch notebooks: a shallow embedding and its properties

    The notebooks of the repository are short scripts over the tensor
    library they import.  The development below embeds the functions the
    notebooks define ([f], [synthetic_data], [load_array],
    [LinearRegressionModel], [Reshape], [init_weights]) and the cells that
    call them (the gradient examples, the training loop, the cells around
    it), together with the fragment of the tensor library they call.

    Conventions.
    - A [tensor] is a tensor of the default dtype [float32], the dtype of
      every tensor the notebooks create: its shape and its elements in
      row-major order.  A tensor of any dtype, as a caller can pass it to a
      function, is an [any_tensor].
    - The elements of a [tensor] are exact rationals: its sums and products
      are not rounded.  Where rounding decides a property, the arithmetic of
      [float32] is modelled as it is ([Float32], and [f] on it in
      [AutomaticDifferentiation32]).
    - Python exceptions are values of [exn]; a computation that can raise
      returns [result A].
    - A [while] loop runs on fuel; [None] means that the fuel ran out. *)

From Stdlib Require Import List Arith Lia ZArith QArith Qabs Qpower Lqa Bool Permutation.
From Stdlib Require String DecimalString SpecFloat.
Import ListNotations.

(** ** Python strings *)

Module Python.
Import String.
Local Open Scope string_scope.

(** [str(n)] for a Python integer that is not negative *)
Definition str (n : nat) : string :=
  DecimalString.NilEmpty.string_of_uint (Nat.to_uint n).

(** The message of the assertion of [synthetic_data],
    [f"The shape of X: {X.shape[0]} mismatched the shape of y: {y.shape[0]}"] *)
Definition mismatch_message (x0 y0 : nat) : string :=
  "The shape of X: " ++ str x0 ++ " mismatched the shape of y: " ++ str y0.

(** The line the training loop prints,
    ['epoch {}, loss {}'.format(epoch, loss)], from the integer [epoch] and
    from the text [loss] that Python gives the loss. *)
Definition epoch_loss_line (epoch : nat) (loss : string) : string :=
  "epoch " ++ str epoch ++ ", loss " ++ loss.

End Python.

(** ** Tensors *)

Module Torch.

Record tensor : Type := Tensor { shape : list nat; data : list Q }.

(** Exceptions the modelled fragment can raise. *)
Inductive exn : Type :=
| IndexError
| RuntimeError
| ValueError
| AssertionError (message : String.string).

Inductive result (A : Type) : Type :=
| Ok (a : A)
| Raise (e : exn).
Arguments Ok {A} a.
Arguments Raise {A} e.

Definition and_then {A B : Type} (r : result A) (k : A -> result B) : result B :=
  match r with
  | Ok a => k a
  | Raise e => Raise e
  end.

Declare Scope result_scope.
Delimit Scope result_scope with result.
Notation "x <- r ;; k" := (and_then r (fun x => k))
  (at level 61, r at next level, right associativity) : result_scope.

Definition numel (s : list nat) : nat := fold_right Nat.mul 1%nat s.

(** [t.sum()] *)
Definition Qsum (l : list Q) : Q := fold_right Qplus 0 l.
Definition sum (t : tensor) : Q := Qsum (data t).

(** [t * c] and [c * t] for a Python number [c] *)
Definition mul_scalar (t : tensor) (c : Q) : tensor :=
  Tensor (shape t) (map (fun x => x * c) (data t)).
Definition rmul_scalar (c : Q) (t : tensor) : tensor :=
  Tensor (shape t) (map (fun x => c * x) (data t)).

(** [t.norm()] is the square root of [norm_sq t].  Rationals have no square
    roots, so the two uses of the norm are comparisons of the square:
    [t.norm() < c] for a [c >= 0], and [t.norm() == 0].  The comparison is
    that of the exact norm. *)
Definition norm_sq (t : tensor) : Q := Qsum (map (fun x => x * x) (data t)).
Definition norm_lt (t : tensor) (c : Q) : bool :=
  if Qlt_le_dec (norm_sq t) (c * c) then true else false.
Definition norm_is_zero (t : tensor) : bool := Qeq_bool (norm_sq t) 0.

(** [0 < q] on Python floats *)
Definition Qpositive (q : Q) : bool := if Qlt_le_dec 0 q then true else false.

(** [t.shape[0]]: indexing the empty shape tuple of a 0-dimensional tensor
    raises [IndexError]. *)
Definition shape0 (t : tensor) : result nat :=
  match shape t with
  | [] => Raise IndexError
  | d :: _ => Ok d
  end.

(** *** Rows, columns and products *)

(** The first [count] consecutive pieces of length [size] of [l]. *)
Fixpoint chunks (count size : nat) (l : list Q) : list (list Q) :=
  match count with
  | O => []
  | S count' => firstn size l :: chunks count' size (skipn size l)
  end.

Fixpoint dot (u v : list Q) : Q :=
  match u, v with
  | x :: u', y :: v' => x * y + dot u' v'
  | _, _ => 0
  end.

(** Column [j] of the row-major [k] x [m] matrix [b]. *)
Definition column (k m : nat) (b : list Q) (j : nat) : list Q :=
  map (fun row => nth j row 0) (chunks k m b).

Definition columns (k m : nat) (b : list Q) : list (list Q) :=
  map (column k m b) (seq 0 m).

(** The product of an [n] x [k] and a [k] x [m] matrix, row-major. *)
Definition mm2 (n k m : nat) (a b : list Q) : list Q :=
  flat_map (fun row => map (dot row) (columns k m b)) (chunks n k a).

(** The transpose of an [n] x [k] matrix, row-major. *)
Definition transpose2 (n k : nat) (a : list Q) : list Q :=
  concat (columns n k a).

(** *** Broadcasting *)

Fixpoint broadcast_rev (s1 s2 : list nat) : option (list nat) :=
  match s1, s2 with
  | [], s | s, [] => Some s
  | d1 :: r1, d2 :: r2 =>
      match broadcast_rev r1 r2 with
      | None => None
      | Some r =>
          if (d1 =? d2)%nat then Some (d1 :: r)
          else if (d1 =? 1)%nat then Some (d2 :: r)
          else if (d2 =? 1)%nat then Some (d1 :: r)
          else None
      end
  end.

(** Shapes are aligned at their last dimension; two dimensions agree when
    they are equal or one of them is 1. *)
Definition broadcast_shapes (s1 s2 : list nat) : option (list nat) :=
  option_map (@rev nat) (broadcast_rev (rev s1) (rev s2)).

(** [expand_aligned src tgt d]: the elements [d] of shape [src] repeated to
    the shape [tgt] of the same length, along the dimensions where [src] is 1. *)
Fixpoint expand_aligned (src tgt : list nat) (d : list Q) : list Q :=
  match src, tgt with
  | ds :: src', dt :: tgt' =>
      let pieces := map (expand_aligned src' tgt') (chunks ds (numel src') d) in
      if (ds =? dt)%nat then concat pieces
      else concat (concat (repeat pieces dt))
  | _, _ => d
  end.

Definition expand (src tgt : list nat) (d : list Q) : list Q :=
  expand_aligned (repeat 1%nat (length tgt - length src) ++ src) tgt d.

(** [reduce_aligned src tgt g]: the gradient [g] of shape [tgt] summed back
    to the shape [src] it was expanded from. *)
Fixpoint reduce_aligned (src tgt : list nat) (g : list Q) : list Q :=
  match src, tgt with
  | ds :: src', dt :: tgt' =>
      let pieces := map (reduce_aligned src' tgt') (chunks dt (numel tgt') g) in
      if (ds =? dt)%nat then concat pieces
      else fold_right (fun p acc => map (fun xy => fst xy + snd xy) (combine p acc))
                      (repeat 0 (numel src')) pieces
  | _, _ => g
  end.

Definition sum_to_size (src tgt : list nat) (g : list Q) : list Q :=
  reduce_aligned (repeat 1%nat (length tgt - length src) ++ src) tgt g.

(** *** [torch.matmul], the [@] operator *)

(** The batch dimensions of a shape with at least two dimensions, and its
    last two dimensions. *)
Definition batch_dims (s : list nat) : list nat := firstn (length s - 2) s.
Definition matrix_dims (s : list nat) : nat * nat :=
  match skipn (length s - 2) s with
  | [r; c] => (r, c)
  | _ => (0%nat, 0%nat)
  end.

(** Both operands with at least two dimensions: the batch dimensions are
    broadcast and the matrices multiplied pairwise. *)
Definition bmm (a b : tensor) : result tensor :=
  let '(n, k) := matrix_dims (shape a) in
  let '(k', m) := matrix_dims (shape b) in
  if negb (k =? k')%nat then Raise RuntimeError
  else
    match broadcast_shapes (batch_dims (shape a)) (batch_dims (shape b)) with
    | None => Raise RuntimeError
    | Some batch =>
        let ea := expand (shape a) (batch ++ [n; k]) (data a) in
        let eb := expand (shape b) (batch ++ [k; m]) (data b) in
        Ok (Tensor (batch ++ [n; m])
              (concat (map (fun p => mm2 n k m (fst p) (snd p))
                         (combine (chunks (numel batch) (n * k) ea)
                                  (chunks (numel batch) (k * m) eb)))))
    end.

(** The cases of [torch.matmul] by the number of dimensions of its operands:
    vector-vector, matrix-vector, vector-matrix, matrix-matrix, and the
    batched product, where a one-dimensional operand is promoted to a matrix
    and the added dimension removed from the result. *)
Definition matmul (a b : tensor) : result tensor :=
  match shape a, shape b with
  | [], _ | _, [] => Raise RuntimeError
  | [k], [k'] =>
      if (k =? k')%nat then Ok (Tensor [] [dot (data a) (data b)])
      else Raise RuntimeError
  | [n; k], [k'] =>
      if (k =? k')%nat then Ok (Tensor [n] (mm2 n k 1 (data a) (data b)))
      else Raise RuntimeError
  | [k], [k'; m] =>
      if (k =? k')%nat then Ok (Tensor [m] (mm2 1 k m (data a) (data b)))
      else Raise RuntimeError
  | [n; k], [k'; m] =>
      if (k =? k')%nat then Ok (Tensor [n; m] (mm2 n k m (data a) (data b)))
      else Raise RuntimeError
  | [k], _ =>
      match bmm (Tensor [1%nat; k] (data a)) b with
      | Ok r => Ok (Tensor (batch_dims (shape r) ++ [snd (matrix_dims (shape r))]) (data r))
      | Raise e => Raise e
      end
  | _, [k'] =>
      match bmm a (Tensor [k'; 1%nat] (data b)) with
      | Ok r => Ok (Tensor (batch_dims (shape r) ++ [fst (matrix_dims (shape r))]) (data r))
      | Raise e => Raise e
      end
  | _, _ => bmm a b
  end.

(** *** Dtypes

    The tensors the notebooks create and compute with have the default
    dtype, [torch.float32], and [tensor] is the type of these tensors.  A
    tensor that a caller passes to a function of the notebooks can have any
    dtype: it is its dtype together with its shape and its elements. *)
Inductive dtype : Type :=
| float16 | bfloat16 | float32 | float64
| uint8 | int8 | int16 | int32 | int64
| bool_ | complex64 | complex128
| other_dtype (name : String.string).

Record any_tensor : Type := AnyTensor { dtype_of : dtype; contents : tensor }.

Definition float32_tensor (t : tensor) : any_tensor := AnyTensor float32 t.
Coercion float32_tensor : tensor >-> any_tensor.

(** [x @ w] for a [float32] tensor [x] and a tensor [w] of any dtype: the
    operands of a product must have one dtype. *)
Definition matmul_any (x : tensor) (w : any_tensor) : result tensor :=
  match dtype_of w with
  | float32 => matmul x (contents w)
  | _ => Raise RuntimeError
  end.

(** [t + c] for a Python number [c], and [t + u] for tensors of one shape *)
Definition add_scalar (t : tensor) (c : Q) : tensor :=
  Tensor (shape t) (map (fun x => x + c) (data t)).

Fixpoint zip_with (g : Q -> Q -> Q) (u v : list Q) : list Q :=
  match u, v with
  | x :: u', y :: v' => g x y :: zip_with g u' v'
  | _, _ => []
  end.

Definition add (t u : tensor) : tensor :=
  Tensor (shape t) (zip_with Qplus (data t) (data u)).

Definition sub (t u : tensor) : tensor :=
  Tensor (shape t) (zip_with Qminus (data t) (data u)).

Definition zeros_like (t : tensor) : tensor :=
  Tensor (shape t) (map (fun _ => 0) (data t)).

Definition ones (s : list nat) : tensor := Tensor s (repeat 1 (numel s)).

(** [torch.arange(n)] and [t.reshape(size)] for a size without [-1] *)
Definition arange (n : nat) : tensor :=
  Tensor [n] (map (fun i => inject_Z (Z.of_nat i)) (seq 0 n)).

Definition reshape (t : tensor) (size : list nat) : result tensor :=
  if (numel size =? numel (shape t))%nat then Ok (Tensor size (data t))
  else Raise RuntimeError.

(** The two dimensions of a matrix. *)
Definition dims2 (t : tensor) : nat * nat :=
  match shape t with
  | [r; c] => (r, c)
  | _ => (0%nat, 0%nat)
  end.

(** [t.t()]: the transpose of a matrix; a tensor with fewer dimensions is
    returned as it is, one with more is refused. *)
Definition t_ (t : tensor) : result tensor :=
  match shape t with
  | [] | [_] => Ok t
  | [n; k] => Ok (Tensor [k; n] (transpose2 n k (data t)))
  | _ => Raise RuntimeError
  end.

(** [torch.mm(a, b)]: matrices only. *)
Definition mm (a b : tensor) : result tensor :=
  match shape a, shape b with
  | [n; k], [k'; m] =>
      if (k =? k')%nat then Ok (Tensor [n; m] (mm2 n k m (data a) (data b)))
      else Raise RuntimeError
  | _, _ => Raise RuntimeError
  end.

(** [torch.addmm(bias, mat1, mat2)] for a bias of shape [(m,)]:
    [bias + mat1 @ mat2], the bias added to every row. *)
Definition addmm (bias mat1 mat2 : tensor) : result tensor :=
  match shape bias, shape mat1, shape mat2 with
  | [m'], [n; k], [k'; m] =>
      if ((k =? k') && (m' =? m))%nat
      then Ok (Tensor [n; m]
                 (flat_map (fun row => zip_with Qplus (data bias) row)
                    (chunks n m (mm2 n k m (data mat1) (data mat2)))))
      else Raise RuntimeError
  | _, _, _ => Raise RuntimeError
  end.

(** [x.view(-1, c)] for a tensor whose elements are stored in row-major
    order, as those of every tensor of the model are: the number of rows is
    inferred from the number of elements, which must be a multiple of [c];
    a tensor without elements has no rows.  With [c = 0] the number of rows
    cannot be inferred. *)
Definition view_rows (t : tensor) (c : nat) : result tensor :=
  let n := numel (shape t) in
  if ((c =? 0) || negb (n mod c =? 0))%nat then Raise RuntimeError
  else Ok (Tensor [(n / c)%nat; c] (data t)).

(** *** The random number generator

    The generator is the stream of standard normal variates and the stream
    of integers it will hand out, with the position reached in them. *)
Record generator : Type :=
  Generator { normal_at : nat -> Q; randint_at : nat -> nat; position : nat }.

Definition advance (g : generator) (count : nat) : generator :=
  Generator (normal_at g) (randint_at g) (position g + count).

(** The tensor [torch.normal(mean, std, size)] draws from [g]. *)
Definition normal_tensor (g : generator) (mean std : Q) (size : list nat) : tensor :=
  Tensor size (map (fun i => mean + std * normal_at g i) (seq (position g) (numel size))).

End Torch.

(** ** Reverse-mode automatic differentiation, as the notebooks use it

    An operation on variables records, in the [grad_fn] of its result, the
    operands it needs for the backward step and where the gradient flows
    next.  A leaf that requires a gradient has no [grad_fn]; gradients that
    reach it are accumulated in its [grad], a slot of the gradient store. *)

Module Autograd.
Import Torch.

#[warnings="-register-all"]
Inductive node : Type :=
| AccumulateGrad (leaf : nat)
| TBackward (next : option node)
| MmBackward (self mat2 : tensor) (next_self next_mat2 : option node)
| MulBackward0 (factor : Q) (next : option node)
| AddmmBackward (mat1 mat2 : tensor) (next_bias next_mat1 next_mat2 : option node)
| MseLossBackward (input target : tensor) (next : option node)
| ViewBackward (input_shape : list nat) (next : option node)
| ExpandBackward (input_shape : list nat) (next : option node).

(** [leaf] is the slot of the gradient store of a leaf that requires a
    gradient. *)
Record variable : Type :=
  Var { value : tensor; grad_fn : option node; leaf : option nat }.

(** [Variable(t, requires_grad=True)], with [slot] for its [grad] *)
Definition requires_grad_leaf (slot : nat) (t : tensor) : variable :=
  Var t None (Some slot).

(** A tensor that requires no gradient. *)
Definition constant (t : tensor) : variable := Var t None None.

(** Where the gradient of a variable flows: to its [grad_fn], to its [grad]
    when it is a leaf that requires one, or nowhere. *)
Definition edge (v : variable) : option node :=
  match grad_fn v with
  | Some n => Some n
  | None => option_map AccumulateGrad (leaf v)
  end.

Definition requires_grad (v : variable) : bool :=
  match edge v with Some _ => true | None => false end.

(** The result of an operation has a [grad_fn] when an operand requires a
    gradient. *)
Definition recorded (t : tensor) (n : node) (operands : list variable) : variable :=
  Var t (if existsb requires_grad operands then Some n else None) None.

Definition on_value (r : result tensor) (n : node) (operands : list variable) : result variable :=
  match r with
  | Ok t => Ok (recorded t n operands)
  | Raise e => Raise e
  end.

(** [x.t()], [torch.mm(a, b)], [c * x], [torch.addmm(bias, m1, m2)] and
    [MSELoss(reduction="sum")(input, target)] on variables *)
Definition t (x : variable) : result variable :=
  on_value (t_ (value x)) (TBackward (edge x)) [x].

Definition mm (a b : variable) : result variable :=
  on_value (Torch.mm (value a) (value b))
           (MmBackward (value a) (value b) (edge a) (edge b)) [a; b].

Definition rmul (c : Q) (x : variable) : variable :=
  recorded (rmul_scalar c (value x)) (MulBackward0 c (edge x)) [x].

Definition addmm (bias m1 m2 : variable) : result variable :=
  on_value (Torch.addmm (value bias) (value m1) (value m2))
           (AddmmBackward (value m1) (value m2) (edge bias) (edge m1) (edge m2))
           [bias; m1; m2].

(** [x.view(size)] for a size without [-1], and [x.expand(size)] *)
Definition view (x : variable) (size : list nat) : result variable :=
  on_value (reshape (value x) size) (ViewBackward (shape (value x)) (edge x)) [x].

Definition expand_to (x : variable) (size : list nat) : variable :=
  recorded (Tensor size (expand (shape (value x)) size (data (value x))))
           (ExpandBackward (shape (value x)) (edge x)) [x].

(** The loss on operands of one shape.  The target requires no gradient. *)
Definition mse_loss_sum_same (input target : variable) : variable :=
  recorded
    (Tensor [] [Qsum (map (fun d => d * d) (data (sub (value input) (value target))))])
    (MseLossBackward (value input) (value target) (edge input))
    [input].

(** Operands of different shapes are first broadcast to a common shape. *)
Definition mse_loss_sum (input target : variable) : result variable :=
  if list_eq_dec Nat.eq_dec (shape (value input)) (shape (value target))
  then Ok (mse_loss_sum_same input target)
  else
    match broadcast_shapes (shape (value input)) (shape (value target)) with
    | Some s => Ok (mse_loss_sum_same (expand_to input s) (expand_to target s))
    | None => Raise RuntimeError
    end.

(** [F.linear(input, weight, bias)], [input @ weight.t() + bias]: a matrix
    goes through [addmm]; an input of another number of dimensions is
    multiplied as the matrix of its rows, which its row-major elements
    already are, and the rows of the result take the place of its rows. *)
Definition linear (input weight bias : variable) : result variable :=
  (wt <- t weight ;;
   match shape (value input) with
   | [] => Raise RuntimeError
   | [_; _] => addmm bias input wt
   | s =>
       x2 <- view input [numel (removelast s); last s 0%nat] ;;
       y2 <- addmm bias x2 wt ;;
       view y2 (removelast s ++ [snd (dims2 (value y2))])
   end)%result.

(** The backward step of each operation: from the gradient [g] of the result
    to the gradients of the operands, passed on along the edges.  The result
    lists the gradients that reach leaves, in the order they arrive. *)
Fixpoint backprop (n : node) (g : tensor) : list (nat * tensor) :=
  match n with
  | AccumulateGrad i => [(i, g)]
  | TBackward next =>
      match next with
      | Some n' =>
          let '(k, r) := dims2 g in
          backprop n' (Tensor [r; k] (transpose2 k r (data g)))
      | None => []
      end
  | MmBackward a b next_a next_b =>
      let '(r, k) := dims2 a in
      let '(_, c) := dims2 b in
      match next_a with
      | Some n' => backprop n' (Tensor [r; k] (mm2 r c k (data g) (transpose2 k c (data b))))
      | None => []
      end ++
      match next_b with
      | Some n' => backprop n' (Tensor [k; c] (mm2 k r c (transpose2 r k (data a)) (data g)))
      | None => []
      end
  | MulBackward0 c next =>
      match next with
      | Some n' => backprop n' (mul_scalar g c)
      | None => []
      end
  | AddmmBackward m1 m2 next_bias next_1 next_2 =>
      let '(r, k) := dims2 m1 in
      let '(_, c) := dims2 m2 in
      match next_bias with
      | Some n' => backprop n' (Tensor [c] (map Qsum (columns r c (data g))))
      | None => []
      end ++
      match next_1 with
      | Some n' => backprop n' (Tensor [r; k] (mm2 r c k (data g) (transpose2 k c (data m2))))
      | None => []
      end ++
      match next_2 with
      | Some n' => backprop n' (Tensor [k; c] (mm2 k r c (transpose2 r k (data m1)) (data g)))
      | None => []
      end
  | MseLossBackward input target next =>
      match next with
      | Some n' =>
          backprop n' (Tensor (shape input)
                         (map (fun d => 2 * d * Qsum (data g))
                              (data (sub input target))))
      | None => []
      end
  | ViewBackward input_shape next =>
      match next with
      | Some n' => backprop n' (Tensor input_shape (data g))
      | None => []
      end
  | ExpandBackward input_shape next =>
      match next with
      | Some n' =>
          backprop n' (Tensor input_shape (sum_to_size input_shape (shape g) (data g)))
      | None => []
      end
  end.

(** The gradient store: the [grad] of every leaf, [None] until a gradient
    arrives. *)
Definition grads : Type := list (option tensor).

Fixpoint accumulate (gs : grads) (i : nat) (g : tensor) : grads :=
  match gs, i with
  | [], _ => []
  | None :: gs', O => Some g :: gs'
  | Some old :: gs', O => Some (add old g) :: gs'
  | o :: gs', S i' => o :: accumulate gs' i' g
  end.

(** [y.backward()], with the implicit gradient of ones: the variable must
    require a gradient and have a single element. *)
Definition backward (y : variable) (gs : grads) : result grads :=
  match edge y with
  | None => Raise RuntimeError
  | Some n =>
      if (numel (shape (value y)) =? 1)%nat
      then Ok (fold_left (fun acc ig => accumulate acc (fst ig) (snd ig))
                 (backprop n (ones (shape (value y)))) gs)
      else Raise RuntimeError
  end.

End Autograd.

(** ** Ch04, Automatic Differentiation: the control-flow function [f] *)

Module AutomaticDifferentiation.
Import Torch.

(** [while b.norm().item() < 1000: b = b * 2].  One unit of fuel pays for one
    evaluation of the loop condition. *)
Fixpoint f_while (fuel : nat) (b : tensor) : option tensor :=
  match fuel with
  | O => None
  | S fuel' =>
      if norm_lt b 1000
      then f_while fuel' (mul_scalar b 2)
      else Some b
  end.

(** [def f(a)] for a [float32] tensor [a] of any shape, in exact arithmetic.
    ([b.norm()] is defined for floating dtypes only: a tensor of integers
    is not an argument of this function.) *)
Definition f (fuel : nat) (a : tensor) : option tensor :=
  let b := mul_scalar a 2 in
  match f_while fuel b with
  | None => None
  | Some b =>
      if Qpositive (sum b)
      then Some b
      else Some (rmul_scalar 100 b)
  end.

(** A tensor with the single element [a], of any shape with one element:
    [(1,)] in the notebook. *)
Definition scalar (s : list nat) (a : Q) : tensor := Tensor s [a].

(** *** A Simple Example *)

Import Autograd.
Local Open Scope result_scope.

(** The cells [y = 2 * torch.mm(x.t(), x)] and [y.backward()], for [x] the
    variable of the tensor [x0] that requires a gradient.  The result is [x],
    [y] and the gradient store, where slot 0 is [x.grad]. *)
Definition differentiate (x0 : tensor) : result (variable * variable * grads) :=
  let x := requires_grad_leaf 0 x0 in
  xt <- t x ;;
  p <- mm xt x ;;
  let y := rmul 2 p in
  gs <- backward y [None] ;;
  Ok (x, y, gs).

(** The example, with
    [x = Variable(torch.arange(4, dtype=torch.float32).reshape((4, 1)),
                  requires_grad=True)] *)
Definition simple_example : result (variable * variable * grads) :=
  x0 <- reshape (arange 4) [4%nat; 1%nat] ;;
  differentiate x0.

(** [x.grad] *)
Definition grad_of (gs : grads) (slot : nat) : option tensor := nth slot gs None.

(** [(x.grad - 4 * x).norm().item() == 0] *)
Definition gradient_check (x : variable) (x_grad : tensor) : bool :=
  norm_is_zero (sub x_grad (rmul_scalar 4 (value x))).

End AutomaticDifferentiation.

(** ** The dtype [float32]: its numbers and its rounded arithmetic

    A [float32] number is a binary floating-point number with 24 bits of
    precision and exponents up to 128 (IEEE 754 binary32): a signed zero, a
    signed infinity, NaN, or [(-1)^s * m * 2^e]. *)

Module Float32.
Import SpecFloat.

Definition prec : Z := 24.
Definition emax : Z := 128.

Definition float : Type := spec_float.

(** The numbers of the format: a mantissa of at most 24 bits, and of exactly
    24 bits unless the exponent is the least one, -149. *)
Definition valid (x : float) : bool := valid_binary prec emax x.

Definition is_finite (x : float) : bool :=
  match x with
  | S754_zero _ | S754_finite _ _ _ => true
  | S754_infinity _ | S754_nan => false
  end.

(** The rational a finite number stands for. *)
Definition to_Q (x : float) : Q :=
  match x with
  | S754_finite s m e => inject_Z (cond_Zopp s (Zpos m)) * 2 ^ e
  | _ => 0
  end.

(** A Python integer as a [float32] number, rounded to nearest. *)
Definition of_Z (n : Z) : float := binary_normalize prec emax n 0 false.

(** [x * y], rounded to nearest, ties to even; [abs(x)]; [x < y], which is
    false when an operand is NaN. *)
Definition mul (x y : float) : float := SFmul prec emax x y.
Definition abs (x : float) : float := SFabs x.
Definition ltb (x y : float) : bool := SFltb x y.

End Float32.

(** ** Ch04, Automatic Differentiation: [f] in [float32] arithmetic

    [f] on a tensor with one element, as [torch.randn(size=(1,))] returns
    it, given by that element.  The norm of one element is its absolute
    value, so that [b.norm().item() < 1000] holds exactly when the absolute
    value of the element is below 1000 (also where the square of the
    element overflows or underflows); [b.sum()] is the element; [.item()]
    converts to a Python float without rounding; and the products [a * 2],
    [b * 2] and [100 * b] are rounded to [float32]. *)

Module AutomaticDifferentiation32.
Import Float32.

(** [while b.norm().item() < 1000: b = b * 2] *)
Fixpoint f_while (fuel : nat) (b : float) : option float :=
  match fuel with
  | O => None
  | S fuel' =>
      if ltb (abs b) (of_Z 1000)
      then f_while fuel' (mul b (of_Z 2))
      else Some b
  end.

(** [def f(a)] *)
Definition f (fuel : nat) (a : float) : option float :=
  let b := mul a (of_Z 2) in
  match f_while fuel b with
  | None => None
  | Some b =>
      if ltb (of_Z 0) b
      then Some b
      else Some (mul (of_Z 100) b)
  end.

End AutomaticDifferentiation32.

(** ** Tensor objects: a store, and computations that draw random numbers,
    allocate and update tensors in place, and may raise *)

Module Store.
Import Torch.

(** A tensor variable of Python holds a reference to a tensor object. *)
Definition ref : Type := nat.

Record world : Type := World { heap : list tensor; gen : generator }.

Definition M (A : Type) : Type := world -> result (A * world).

Definition ret {A : Type} (a : A) : M A := fun w => Ok (a, w).

Definition bind {A B : Type} (c : M A) (k : A -> M B) : M B :=
  fun w =>
    match c w with
    | Ok (a, w') => k a w'
    | Raise e => Raise e
    end.

Definition raise {A : Type} (e : exn) : M A := fun _ => Raise e.

Definition lift {A : Type} (r : result A) : M A :=
  fun w => match r with Ok a => Ok (a, w) | Raise e => Raise e end.

Declare Scope store_scope.
Delimit Scope store_scope with store.
Notation "x <- c ;; k" := (bind c (fun x => k))
  (at level 61, c at next level, right associativity) : store_scope.
Notation "c ;;; k" := (bind c (fun _ => k))
  (at level 61, right associativity) : store_scope.
Local Open Scope store_scope.

(** References come from [alloc] alone, so a load never reads the default. *)
Definition load_at (h : list tensor) (r : ref) : tensor := nth r h (Tensor [] []).

Definition load (r : ref) : M tensor := fun w => Ok (load_at (heap w) r, w).

Definition alloc (t : tensor) : M ref :=
  fun w => Ok (length (heap w), World (heap w ++ [t]) (gen w)).

Fixpoint update (h : list tensor) (r : ref) (t : tensor) : list tensor :=
  match h, r with
  | [], _ => []
  | _ :: h', O => t :: h'
  | u :: h', S r' => u :: update h' r' t
  end.

Definition store (r : ref) (t : tensor) : M unit :=
  fun w => Ok (tt, World (update (heap w) r t) (gen w)).

(** [torch.normal(mean, std, size)]: a new tensor. *)
Definition normal (mean std : Q) (size : list nat) : M ref :=
  fun w =>
    alloc (normal_tensor (gen w) mean std size)
          (World (heap w) (advance (gen w) (numel size))).

(** [x @ w] for a tensor [w] of any dtype: a new tensor. *)
Definition matmul_ (x : ref) (w : any_tensor) : M ref :=
  tx <- load x ;; r <- lift (matmul_any tx w) ;; alloc r.

(** [x + c] for a Python number [c]: a new tensor. *)
Definition add_scalar_ (x : ref) (c : Q) : M ref :=
  tx <- load x ;; alloc (add_scalar tx c).

(** [y += z]: the object of [y] is updated in place; [z] is broadcast to the
    shape of [y], and the sum must have that shape. *)
Definition iadd_ (y z : ref) : M unit :=
  ty <- load y ;; tz <- load z ;;
  match broadcast_shapes (shape ty) (shape tz) with
  | Some s =>
      if list_eq_dec Nat.eq_dec s (shape ty)
      then store y (Tensor (shape ty)
                      (zip_with Qplus (data ty) (expand (shape tz) (shape ty) (data tz))))
      else raise RuntimeError
  | None => raise RuntimeError
  end.

Definition shape_ (x : ref) : M (list nat) := tx <- load x ;; ret (shape tx).

Definition shape0_ (x : ref) : M nat := tx <- load x ;; lift (shape0 tx).

(** [x.type(t)]: a tensor that has the type [t] already is returned as it
    is, without a copy; a tensor of another type is converted into a new
    tensor.  In neither case is [x] updated. *)
Definition type_ (has_type : bool) (x : ref) : M ref :=
  if has_type then ret x else (tx <- load x ;; alloc tx).

(** [x.type(torch.FloatTensor)]: the tensors of the model all have the one
    floating type. *)
Definition type_FloatTensor (x : ref) : M ref := type_ true x.

(** [assert c, msg] *)
Definition assert_ (c : bool) (e : exn) : M unit :=
  if c then ret tt else raise e.

End Store.

(** ** Concise Implementation of Linear Regression: the data set *)

Module LinearRegressionData.
Import Torch Store.
Local Open Scope store_scope.

(** The statements of [synthetic_data] up to and including its assertion.
    The weight [w], a tensor of any dtype, is read only and is passed by
    value. *)
Definition synthetic_data_body (w : any_tensor) (b : Q) (num_examples : nat) : M (ref * ref) :=
  d <- lift (shape0 (contents w)) ;;
  X <- normal 0 1 [num_examples; d] ;;
  Xw <- matmul_ X w ;;
  y <- add_scalar_ Xw b ;;
  size <- shape_ y ;;
  noise <- normal 0 (1 # 100) size ;;
  iadd_ y noise ;;;
  x0 <- shape0_ X ;;
  y0 <- shape0_ y ;;
  assert_ (x0 =? y0)%nat (AssertionError (Python.mismatch_message x0 y0)) ;;;
  ret (X, y).

(** [def synthetic_data(w, b, num_examples)] *)
Definition synthetic_data (w : any_tensor) (b : Q) (num_examples : nat) : M (ref * ref) :=
  Xy <- synthetic_data_body w b num_examples ;;
  let '(X, y) := Xy in
  type_FloatTensor X ;;;
  type_FloatTensor y ;;;
  ret (X, y).

(** [true_w = torch.Tensor([2, -3.4]).view(-1, 1)] and [true_b = 4.2] *)
Definition true_w : tensor := Tensor [2%nat; 1%nat] [2; -(34 # 10)].
Definition true_b : Q := 42 # 10.

End LinearRegressionData.

(** ** [torch.utils.data]: [TensorDataset] and [DataLoader] *)

Module Data.
Import Torch.
Local Open Scope result_scope.

Record TensorDataset : Type := { tensors : list tensor }.

(** [all(tensors[0].size(0) == tensor.size(0) for tensor in tensors)]: the
    two sizes are read anew for every tensor, and the first difference ends
    the iteration. *)
Fixpoint same_size0 (first : result nat) (ts : list tensor) : result bool :=
  match ts with
  | [] => Ok true
  | t :: ts' =>
      a <- first ;;
      b <- shape0 t ;;
      if (a =? b)%nat then same_size0 first ts' else Ok false
  end.

(** [TensorDataset] applied to the tensors [ts] *)
Definition TensorDataset_init (ts : list tensor) : result TensorDataset :=
  ok <- same_size0 (match ts with t0 :: _ => shape0 t0 | [] => Raise IndexError end) ts ;;
  if ok then Ok {| tensors := ts |} else Raise (AssertionError String.EmptyString).

(** [len(dataset)] *)
Definition len (ds : TensorDataset) : result nat :=
  match tensors ds with
  | t0 :: _ => shape0 t0
  | [] => Raise IndexError
  end.

Record DataLoader : Type :=
  { dataset : TensorDataset; batch_size : Z; shuffle : bool }.

(** [RandomSampler(dataset)], the sampler of a loader that shuffles: it
    takes the length of the data set and refuses an empty one. *)
Definition RandomSampler_init (ds : TensorDataset) : result unit :=
  num_samples <- len ds ;;
  if (num_samples =? 0)%nat then Raise ValueError else Ok tt.

(** [DataLoader(dataset=dataset, batch_size=batch_size, shuffle=shuffle)]:
    with [shuffle=True] it creates a random sampler first; the batch sampler
    it creates then refuses a batch size that is not positive. *)
Definition DataLoader_init (ds : TensorDataset) (bs : Z) (sh : bool) : result DataLoader :=
  sampler <- (if sh then RandomSampler_init ds else Ok tt) ;;
  if (bs <=? 0)%Z then Raise ValueError
  else Ok {| dataset := ds; batch_size := bs; shuffle := sh |}.

(** [t[i]] and [torch.stack(rows, 0)] *)
Definition select0 (t : tensor) (i : nat) : tensor :=
  let k := numel (tl (shape t)) in
  Tensor (tl (shape t)) (firstn k (skipn (i * k) (data t))).

Definition stack (rows : list tensor) : tensor :=
  Tensor (length rows :: match rows with r :: _ => shape r | [] => [] end)
         (concat (map data rows)).

(** [torch.randperm(n)]: each draw picks one of the indices that are left. *)
Fixpoint pick (pool : list nat) (draws : list nat) : list nat :=
  match draws with
  | [] => []
  | r :: draws' =>
      match pool with
      | [] => []
      | _ :: _ =>
          let i := (r mod length pool)%nat in
          nth i pool 0%nat :: pick (firstn i pool ++ skipn (S i) pool) draws'
      end
  end.

Definition randperm (n : nat) (g : generator) : list nat * generator :=
  (pick (seq 0 n) (map (randint_at g) (seq (position g) n)), advance g n).

(** The batch sampler: indices are collected until the batch is full; a last
    batch that is not full is kept. *)
Fixpoint batch_sampler (bs : nat) (indices : list nat) (batch : list nat) : list (list nat) :=
  match indices with
  | [] => match batch with [] => [] | _ :: _ => [batch] end
  | idx :: indices' =>
      let batch' := batch ++ [idx] in
      if (length batch' =? bs)%nat
      then batch' :: batch_sampler bs indices' []
      else batch_sampler bs indices' batch'
  end.

(** The batch of the examples [indices]: one stacked tensor per tensor of
    the data set. *)
Definition collate (ds : TensorDataset) (indices : list nat) : list tensor :=
  map (fun t => stack (map (select0 t) indices)) (tensors ds).

(** One pass over a loader, [for batch in dataloader]: the batches it
    yields and the generator after the permutation was drawn. *)
Definition batches (dl : DataLoader) (g : generator) : result (list (list tensor) * generator) :=
  n <- len (dataset dl) ;;
  let '(indices, g') := if shuffle dl then randperm n g else (seq 0 n, g) in
  Ok (map (collate (dataset dl)) (batch_sampler (Z.to_nat (batch_size dl)) indices []), g').

End Data.

(** ** [torch.nn] and [torch.optim]: modules, the loss and the optimizer *)

Module NN.
Import Torch Autograd.
Local Open Scope result_scope.

(** [torch.nn.Module]: what a module computes and the parameters it owns. *)
Class Module (M : Type) : Type :=
  { forward : M -> variable -> result variable;
    parameters : M -> list variable }.

(** [torch.nn.Linear(in_features, out_features, bias=True)], with its
    [weight] of shape [(out_features, in_features)] and its [bias] of shape
    [(out_features,)] *)
Record Linear : Type :=
  { in_features : nat; out_features : nat; weight : variable; bias : variable }.

#[export] Instance Linear_Module : Module Linear :=
  { forward := fun m input => linear input (weight m) (bias m);
    parameters := fun m => [weight m; bias m] }.

(** [torch.nn.Sequential]: its layers, each a module of some type,
    applied in order. *)
Record layer : Type :=
  Layer { layer_type : Type; layer_module : Module layer_type; layer_of : layer_type }.
Arguments Layer {layer_type layer_module} layer_of.

Definition Sequential : Type := list layer.

Fixpoint Sequential_forward (layers : Sequential) (input : variable) : result variable :=
  match layers with
  | [] => Ok input
  | Layer m :: layers' =>
      output <- forward m input ;;
      Sequential_forward layers' output
  end.

#[export] Instance Sequential_Module : Module Sequential :=
  { forward := Sequential_forward;
    parameters := fun layers =>
      flat_map (fun l => match l with Layer m => parameters m end) layers }.

(** [torch.optim.SGD(params, lr)] without momentum, dampening or weight
    decay.  [zero_grad] zeroes in place every gradient that is there;
    [step] updates in place, [p.data.add_(-lr, p.grad)], every parameter
    that has a gradient. *)
Definition zero_grad (gs : grads) : grads := map (option_map zeros_like) gs.

Definition sgd_update (lr : Q) (p : tensor) (g : option tensor) : tensor :=
  match g with
  | None => p
  | Some d => Tensor (shape p) (zip_with (fun x dx => x + - lr * dx) (data p) (data d))
  end.

Fixpoint sgd_step (lr : Q) (ps : list tensor) (gs : grads) : list tensor :=
  match ps, gs with
  | p :: ps', g :: gs' => sgd_update lr p g :: sgd_step lr ps' gs'
  | _, _ => ps
  end.

End NN.

(** ** Concise Implementation of Linear Regression: data iterator, model,
    loss, optimizer and training *)

Module LinearRegression.
Import Torch Autograd Data NN.
Local Open Scope result_scope.

(** The names the notebook has bound when the cells below run: the data
    set, and the parameters of [net] with their gradients, in the order of
    [net.parameters()]: the weight of [layer1], then its bias. *)
Record notebook : Type :=
  { features : tensor;
    labels : tensor;
    params : list tensor;
    grad : grads;
    rng : generator;
    stdout : list String.string }.

(** The generator after a draw, and [print(line)] *)
Definition with_rng (nb : notebook) (g : generator) : notebook :=
  {| features := features nb; labels := labels nb; params := params nb;
     grad := grad nb; rng := g; stdout := stdout nb |}.

Definition print (line : String.string) (nb : notebook) : notebook :=
  {| features := features nb; labels := labels nb; params := params nb;
     grad := grad nb; rng := rng nb; stdout := stdout nb ++ [line] |}.

(** [def load_array(data_arrays, batch_size, is_train=True)] *)
Definition load_array (nb : notebook) (data_arrays : list tensor) (batch_size : Z)
    (is_train : bool) : result DataLoader :=
  dataset <- TensorDataset_init [features nb; labels nb] ;;
  dataloader <- DataLoader_init dataset batch_size true ;;
  Ok dataloader.

(** [class LinearRegressionModel(torch.nn.Module)] *)
Record LinearRegressionModel : Type := { layer1 : Linear }.

#[export] Instance LinearRegressionModel_Module : Module LinearRegressionModel :=
  { forward := fun self x =>
      y_pred <- forward (layer1 self) x ;;
      Ok y_pred;
    parameters := fun self => parameters (layer1 self) }.

(** [net], with the current values of its parameters: [layer1] is
    [torch.nn.Linear(2, 1, bias=True)]. *)
Definition parameter (nb : notebook) (slot : nat) : variable :=
  requires_grad_leaf slot (nth slot (params nb) (Tensor [] [])).

Definition net (nb : notebook) : LinearRegressionModel :=
  {| layer1 := {| in_features := 2; out_features := 1;
                  weight := parameter nb 0; bias := parameter nb 1 |} |}.

(** [loss = torch.nn.MSELoss(reduction="sum")] *)
Definition loss (input target : variable) : result variable :=
  mse_loss_sum input target.

(** [trainer = torch.optim.SGD(net.parameters(), lr=0.03)] *)
Definition lr : Q := 3 # 100.

(** The body of the inner loop, for one mini-batch:
    [l = loss(net(X), y)], [trainer.zero_grad()], [l.backward()],
    [trainer.step()].  The loss [l] is returned with the notebook. *)
Definition train_step (X y : tensor) (nb : notebook) : result (variable * notebook) :=
  output <- forward (net nb) (constant X) ;;
  l <- loss output (constant y) ;;
  let zeroed := zero_grad (grad nb) in
  gs <- backward l zeroed ;;
  Ok (l, {| features := features nb; labels := labels nb;
            params := sgd_step lr (params nb) gs;
            grad := gs; rng := rng nb; stdout := stdout nb |}).

(** [for X, y in data_iter: ...] over the batches of one pass *)
Fixpoint train_batches (bs : list (list tensor)) (nb : notebook) : result notebook :=
  match bs with
  | [] => Ok nb
  | [X; y] :: bs' =>
      r <- train_step X y nb ;;
      train_batches bs' (snd r)
  | _ :: _ => Raise ValueError
  end.

(** ['epoch {}, loss {}'.format(epoch + 1, l_epoch)]; [repr] is how Python
    prints the number a loss tensor holds. *)
Definition epoch_line (repr : Q -> String.string) (epoch : nat) (l_epoch : variable) : String.string :=
  Python.epoch_loss_line (epoch + 1) (repr (Torch.sum (value l_epoch))).

(** [l_epoch = loss(net(features), labels)] *)
Definition epoch_loss (nb : notebook) : result variable :=
  output <- forward (net nb) (constant (features nb)) ;;
  loss output (constant (labels nb)).

(** The body of the outer loop, for one epoch: a pass over the batches the
    loader yields, then the loss on the whole data set and its line. *)
Definition train_epoch (repr : Q -> String.string) (data_iter : DataLoader) (epoch : nat)
    (nb : notebook) : result notebook :=
  pass <- batches data_iter (rng nb) ;;
  nb1 <- train_batches (fst pass) (with_rng nb (snd pass)) ;;
  l_epoch <- epoch_loss nb1 ;;
  Ok (print (epoch_line repr epoch l_epoch) nb1).

(** [for epoch in range(num_epochs): ...] *)
Fixpoint for_epochs (repr : Q -> String.string) (data_iter : DataLoader)
    (epochs : list nat) (nb : notebook) : result notebook :=
  match epochs with
  | [] => Ok nb
  | epoch :: epochs' =>
      nb' <- train_epoch repr data_iter epoch nb ;;
      for_epochs repr data_iter epochs' nb'
  end.

Definition num_epochs : nat := 3.

Definition training (repr : Q -> String.string) (data_iter : DataLoader) (nb : notebook)
    : result notebook :=
  for_epochs repr data_iter (seq 0 num_epochs) nb.

End LinearRegression.

(** ** Concise Implementation of Softmax Regression: the network *)

Module SoftmaxRegression.
Import Torch Autograd NN.
Local Open Scope result_scope.

(** [class Reshape(torch.nn.Module)], [forward]: [x.view(-1, 784)] *)
Record Reshape : Type := { }.

Definition view_784 (x : variable) : result variable :=
  on_value (view_rows (value x) 784) (ViewBackward (shape (value x)) (edge x)) [x].

#[export] Instance Reshape_Module : Module Reshape :=
  { forward := fun _ x => view_784 x;
    parameters := fun _ => [] }.

(** [net = nn.Sequential(Reshape(), nn.Linear(784, 10))], with the given
    parameters of the linear layer *)
Definition net (weight bias : variable) : Sequential :=
  [ Layer (Build_Reshape);
    Layer {| in_features := 784; out_features := 10; weight := weight; bias := bias |} ].

End SoftmaxRegression.

(** ** The notions the properties are stated with *)

Module AutomaticDifferentiationSpec.

(** [k] is the least number of doublings that bring [|b|] to 1000 or more. *)
Definition least_doublings (b : Q) (k : nat) : Prop :=
  1000 <= Qabs b * 2 ^ Z.of_nat k /\
  forall j : nat, (j < k)%nat -> Qabs b * 2 ^ Z.of_nat j < 1000.

End AutomaticDifferentiationSpec.

Module LinearRegressionSpec.
Import Torch Autograd Store Data NN LinearRegressionData LinearRegression.
Local Open Scope nat_scope.

(** The two tensors [synthetic_data] draws when it starts in the world [w0]:
    [X], of the given size, and then the noise. *)
Definition drawn_X (w0 : world) (n d : nat) : tensor :=
  normal_tensor (gen w0) 0%Q 1%Q [n; d].

Definition drawn_noise (w0 : world) (n d : nat) (size : list nat) : tensor :=
  normal_tensor (advance (gen w0) (numel [n; d])) 0%Q (1 # 100)%Q size.

(** A generator that hands out zeros, and the world without tensors. *)
Definition zero_generator : generator := Generator (fun _ => 0%Q) (fun _ => 0) 0.
Definition empty_world : world := World [] zero_generator.

(** One row of the output of a linear layer: the bias plus the scalar
    products of the input row with the rows of the weight, [x W^T + b]. *)
Definition affine_row (w_rows : list (list Q)) (b : list Q) (row : list Q) : list Q :=
  zip_with Qplus b (map (dot row) w_rows).

(** The model [x . w + b] on the rows of a batch, its residuals against the
    labels, their sum of squares, and the partial derivatives of that sum. *)
Definition predictions (w0 w1 b0 : Q) (rows : list (list Q)) : list Q :=
  map (fun row => (b0 + dot row [w0; w1])%Q) rows.

Definition residuals (w0 w1 b0 : Q) (rows : list (list Q)) (ys : list Q) : list Q :=
  zip_with Qminus (predictions w0 w1 b0 rows) ys.

Definition sum_squared_error (w0 w1 b0 : Q) (rows : list (list Q)) (ys : list Q) : Q :=
  Qsum (map (fun d => d * d)%Q (residuals w0 w1 b0 rows ys)).

Definition dl_dw (k : nat) (w0 w1 b0 : Q) (rows : list (list Q)) (ys : list Q) : Q :=
  dot (map (fun row => nth k row 0%Q) rows)
      (map (fun d => 2 * d)%Q (residuals w0 w1 b0 rows ys)).

Definition dl_db (w0 w1 b0 : Q) (rows : list (list Q)) (ys : list Q) : Q :=
  Qsum (map (fun d => 2 * d)%Q (residuals w0 w1 b0 rows ys)).

(** A slot of the gradient store that is empty or holds [len] elements. *)
Definition grad_slot_ready (len : nat) (o : option tensor) : Prop :=
  match o with
  | None => True
  | Some t => length (data t) = len
  end.

(** The notebook as the training loop finds it: the weight and the bias of
    [Linear(2, 1)], and gradients, if any, of their sizes. *)
Definition ready (nb : notebook) : Prop :=
  (exists w0 w1 b0 : Q, params nb = [Tensor [1; 2] [w0; w1]; Tensor [1] [b0]]) /\
  (exists ow ob : option tensor,
     grad nb = [ow; ob] /\ grad_slot_ready 2 ow /\ grad_slot_ready 1 ob).

(** A pass visits every example exactly once, in batches that are not
    empty and not larger than the batch size. *)
Definition complete_pass (N bs : nat) (idx : list (list nat)) : Prop :=
  Permutation (concat idx) (seq 0 N) /\
  Forall (fun b => b <> [] /\ length b <= bs) idx.

(** What one epoch does to the notebook: a complete pass over the data that
    prints nothing and leaves [trained]; then the loss [l_epoch] of the
    trained model on all of [features] and [labels]; then one line, which is
    [label] followed by the text of that loss. *)
Definition epoch_run (repr : Q -> String.string) (N : nat) (bs : Z) (label : String.string)
    (nb nb' : notebook) : Prop :=
  exists (idx : list (list nat)) (trained : notebook) (l_epoch : variable) (w0 w1 b0 : Q),
    complete_pass N (Z.to_nat bs) idx /\
    train_batches (map (collate {| tensors := [features nb; labels nb] |}) idx)
                  (with_rng nb (advance (rng nb) N)) = Ok trained /\
    stdout trained = stdout nb /\
    params trained = [Tensor [1; 2] [w0; w1]; Tensor [1] [b0]] /\
    epoch_loss trained = Ok l_epoch /\
    value l_epoch = Tensor [] [sum_squared_error w0 w1 b0
                                 (chunks N 2 (data (features nb))) (data (labels nb))] /\
    nb' = print (String.append label (repr (Torch.sum (value l_epoch)))) trained.

(** A notebook with four examples, parameters at zero and no gradient yet,
    and the mini-batch of its first two examples. *)
Definition example_notebook : notebook :=
  {| features := Tensor [4; 2] [1; 0; 0; 1; 1; 1; 2; 1]%Q;
     labels := Tensor [4; 1] [1; 2; 3; 4]%Q;
     params := [Tensor [1; 2] [0; 0]%Q; Tensor [1] [0]%Q];
     grad := [None; None];
     rng := Generator (fun _ => 0%Q) (fun i => i) 0;
     stdout := [] |}.

Definition example_X : tensor := Tensor [2; 2] [1; 0; 0; 1]%Q.
Definition example_y : tensor := Tensor [2; 1] [1; 2]%Q.

End LinearRegressionSpec.

(** ** Ch04, Automatic Differentiation: the gradient of [f], and head gradients *)

Module ControlFlow.
Import Torch Autograd.
Local Open Scope result_scope.

(** [x * c] for a Python number [c], on a variable *)
Definition mul (x : variable) (c : Q) : variable :=
  recorded (mul_scalar (value x) c) (MulBackward0 c (edge x)) [x].

(** [def f(a)] on a variable: the same statements, every product recorded. *)
Fixpoint f_while (fuel : nat) (b : variable) : option variable :=
  match fuel with
  | O => None
  | S fuel' =>
      if norm_lt (value b) 1000
      then f_while fuel' (mul b 2)
      else Some b
  end.

Definition f (fuel : nat) (a : variable) : option variable :=
  let b := mul a 2 in
  match f_while fuel b with
  | None => None
  | Some b =>
      if Qpositive (sum (value b))
      then Some b
      else Some (rmul 100 b)
  end.

(** The cells [a = torch.randn(size=(1,))], [a.requires_grad = True],
    [d = f(a)], [d.backward()]: [a], [d] and the gradient store, where slot
    0 is [a.grad]. *)
Definition gradient_of_f (fuel : nat) (g : generator)
    : option (result (variable * variable * grads)) :=
  let a := requires_grad_leaf 0 (normal_tensor g 0 1 [1%nat]) in
  match f fuel a with
  | None => None
  | Some d => Some (gs <- backward d [None] ;; Ok (a, d, gs))
  end.

End ControlFlow.

Module HeadGradients.
Import Torch Autograd.
Local Open Scope result_scope.

(** [t * u], element by element, for tensors of one shape: the operands of
    the product below always have one shape. *)
Definition mul_tensors (t u : tensor) : tensor :=
  Tensor (shape t) (zip_with Qmult (data t) (data u)).

(** [z = y * x] for two variables of one shape: the product keeps its
    operands for the backward step. *)
Record product : Type := Product { self : variable; other : variable }.

Definition product_value (z : product) : tensor :=
  mul_tensors (value (self z)) (value (other z)).

(** The backward step of the product: the gradient times [other] flows to
    [self], and the gradient times [self] flows to [other]. *)
Definition product_backprop (z : product) (g : tensor) : list (nat * tensor) :=
  match edge (self z) with
  | Some n => backprop n (mul_tensors g (value (other z)))
  | None => []
  end ++
  match edge (other z) with
  | Some n => backprop n (mul_tensors g (value (self z)))
  | None => []
  end.

(** [z.backward(gradient)]: an operand must require a gradient, and the
    gradient must have the shape of [z]. *)
Definition backward_product (z : product) (gradient : tensor) (gs : grads) : result grads :=
  if negb (requires_grad (self z) || requires_grad (other z)) then Raise RuntimeError
  else if list_eq_dec Nat.eq_dec (shape gradient) (shape (product_value z))
  then Ok (fold_left (fun acc ig => accumulate acc (fst ig) (snd ig))
             (product_backprop z gradient) gs)
  else Raise RuntimeError.

(** The cells [x = Variable(..., requires_grad=True)], [y = x * 2],
    [z = y * x], [z.backward(head_gradient)]: [x] and the gradient store,
    where slot 0 is [x.grad]. *)
Definition head_gradients (x0 head_gradient : tensor) : result (variable * grads) :=
  let x := requires_grad_leaf 0 x0 in
  let y := ControlFlow.mul x 2 in
  let z := Product y x in
  gs <- backward_product z head_gradient [None] ;;
  Ok (x, gs).

(** The tensors of the notebook *)
Definition x_example : tensor := Tensor [4%nat; 1%nat] [0; 1; 2; 3].
Definition head_gradient_example : tensor :=
  Tensor [4%nat; 1%nat] [10; 1; 1 # 10; 1 # 100].

End HeadGradients.

(** ** The notions the further properties are stated with *)

Module ControlFlowSpec.
Import Torch Autograd ControlFlow.

(** One pass through the body of the loop of [f], on a tensor and on a
    variable, and [k] passes on a variable. *)
Definition double (t : tensor) : tensor := mul_scalar t 2.

Definition doubled (k : nat) (b : variable) : variable :=
  Nat.iter k (fun v => mul v 2) b.

(** The graph of [k] doublings, and the gradient it passes on. *)
Definition doublings (k : nat) (n : node) : node :=
  Nat.iter k (fun m => MulBackward0 2 (Some m)) n.

End ControlFlowSpec.

Module LoaderSpec.

(** The sizes of the batches of [total] examples. *)
Definition batch_sizes (bs total : nat) : list nat :=
  repeat bs (total / bs) ++ (if total mod bs =? 0 then [] else [total mod bs]).

End LoaderSpec.

Module LossSpec.
Import Torch.

(** The sum of the squared differences of every prediction with every label. *)
Definition pairwise_squared_error (ps ys : list Q) : Q :=
  Qsum (map (fun p => Qsum (map (fun y => (p - y) * (p - y))%Q ys)) ps).

End LossSpec.

(** ** Concise Implementation of Linear Regression: the cells around the
    training loop *)

Module PythonOutput.
Import String.
Local Open Scope string_scope.

(** [print('Error in estimating w', t)] and [print('Error in estimating b', t)],
    from the text Python prints for the tensor *)
Definition error_in_w_line (text : string) : string := "Error in estimating w " ++ text.
Definition error_in_b_line (text : string) : string := "Error in estimating b " ++ text.

End PythonOutput.

Module LinearRegressionCells.
Import Torch Autograd Data NN LinearRegressionData LinearRegression.
Local Open Scope result_scope.

(** [for X, y in data_iter: print(X); print(y); break]: the iterator draws
    its permutation when the loop starts; the first batch, if there is one,
    is printed, and the loop is left.  [repr_tensor] is the text Python
    prints for a tensor. *)
Definition first_batch (repr_tensor : tensor -> String.string) (data_iter : DataLoader)
    (nb : notebook) : result notebook :=
  pass <- batches data_iter (rng nb) ;;
  let nb1 := with_rng nb (snd pass) in
  match fst pass with
  | [] => Ok nb1
  | [X; y] :: _ => Ok (print (repr_tensor y) (print (repr_tensor X) nb1))
  | _ :: _ => Raise ValueError
  end.

(** [net.layer1.weight.data = torch.Tensor(np.random.normal(size=(1, 2),
    scale=0.01, loc=0))] and [net.layer1.bias.data = torch.Tensor([0])]:
    the weight is drawn from the generator of NumPy, the gradients stay as
    they are. *)
Definition initialize (numpy : generator) (nb : notebook) : notebook * generator :=
  ({| features := features nb; labels := labels nb;
      params := [normal_tensor numpy 0 (1 # 100) [1%nat; 2%nat]; Tensor [1%nat] [0]];
      grad := grad nb; rng := rng nb; stdout := stdout nb |},
   advance numpy 2).

(** [t[0]]: a tensor without dimensions cannot be indexed, and index 0 is
    out of range when the first dimension is 0. *)
Definition index0 (t : tensor) : result tensor :=
  match shape t with
  | [] => Raise IndexError
  | d :: _ => if (d =? 0)%nat then Raise IndexError else Ok (select0 t 0)
  end.

(** [l[i]] for a Python list *)
Definition list_index {A : Type} (l : list A) (i : nat) : result A :=
  match nth_error l i with
  | Some a => Ok a
  | None => Raise IndexError
  end.

(** [c - t] for a Python number [c] *)
Definition rsub_scalar (c : Q) (t : tensor) : tensor :=
  Tensor (shape t) (map (fun x => c - x) (data t)).

(** The last cell:
    [w = list(net.parameters())[0][0]],
    [print('Error in estimating w', true_w.reshape(w.shape) - w)],
    [b = list(net.parameters())[1][0]],
    [print('Error in estimating b', true_b - b)]. *)
Definition report_errors (repr_tensor : tensor -> String.string) (nb : notebook)
    : result notebook :=
  p0 <- list_index (params nb) 0 ;;
  w <- index0 p0 ;;
  tw <- reshape true_w (shape w) ;;
  let nb1 := print (PythonOutput.error_in_w_line (repr_tensor (sub tw w))) nb in
  p1 <- list_index (params nb1) 1 ;;
  b <- index0 p1 ;;
  Ok (print (PythonOutput.error_in_b_line (repr_tensor (rsub_scalar true_b b))) nb1).

End LinearRegressionCells.

(** ** Concise Implementation of Softmax Regression: [init_weights] *)

Module SoftmaxInit.
Import Torch Autograd NN SoftmaxRegression.

(** A module object of one of the classes the notebook uses. *)
#[warnings="-register-all"]
Inductive module_object : Type :=
| ReshapeObject (m : Reshape)
| LinearObject (m : Linear)
| SequentialObject (children : list module_object).

(** [m(x)] for a module object *)
Fixpoint object_forward (m : module_object) (x : variable) : result variable :=
  match m with
  | ReshapeObject r => forward r x
  | LinearObject l => forward l x
  | SequentialObject children =>
      (fix forward_children (cs : list module_object) (x : variable) :=
         match cs with
         | [] => Ok x
         | c :: cs' => and_then (object_forward c x) (forward_children cs')
         end) children x
  end.

(** [torch.nn.init.normal_(tensor, std=std)]: the elements of the tensor are
    drawn anew, in place; the tensor stays the leaf it is. *)
Definition normal_ (p : variable) (std : Q) (g : generator) : variable * generator :=
  (Var (normal_tensor g 0 std (shape (value p))) (grad_fn p) (leaf p),
   advance g (numel (shape (value p)))).

(** [def init_weights(m)] *)
Definition init_weights (m : module_object) (g : generator) : module_object * generator :=
  match m with
  | LinearObject l =>
      let '(w, g') := normal_ (weight l) (1 # 100) g in
      (LinearObject {| in_features := in_features l; out_features := out_features l;
                       weight := w; bias := bias l |}, g')
  | _ => (m, g)
  end.

(** [Module.apply(fn)]: [fn] is applied to every child, in order and
    recursively, and then to the module itself. *)
Fixpoint apply (fn : module_object -> generator -> module_object * generator)
    (m : module_object) (g : generator) : module_object * generator :=
  match m with
  | SequentialObject children =>
      let '(children', g') :=
        (fix apply_children (cs : list module_object) (g : generator) :=
           match cs with
           | [] => ([], g)
           | c :: cs' =>
               let '(c', g1) := apply fn c g in
               let '(cs'', g2) := apply_children cs' g1 in
               (c' :: cs'', g2)
           end) children g in
      fn (SequentialObject children') g'
  | _ => fn m g
  end.

(** [net = nn.Sequential(Reshape(), nn.Linear(784, 10))] as a module
    object, and [net.apply(init_weights)] *)
Definition net_object (weight bias : variable) : module_object :=
  SequentialObject
    [ ReshapeObject (Build_Reshape);
      LinearObject {| in_features := 784; out_features := 10;
                      weight := weight; bias := bias |} ].

Definition net_apply_init_weights (weight bias : variable) (g : generator)
    : module_object * generator :=
  apply init_weights (net_object weight bias) g.

(** The linear layers of a module, in the order [apply] visits them. *)
Fixpoint linears (m : module_object) : list Linear :=
  match m with
  | ReshapeObject _ => []
  | LinearObject l => [l]
  | SequentialObject children => flat_map linears children
  end.

(** The tensors [normal_] draws, one after the other, for the given
    shapes. *)
Fixpoint draws (g : generator) (std : Q) (shapes : list (list nat)) : list tensor :=
  match shapes with
  | [] => []
  | s :: shapes' => normal_tensor g 0 std s :: draws (advance g (numel s)) std shapes'
  end.

(** A module without its parameters: the classes and the sizes. *)
Fixpoint structure (m : module_object) : module_object :=
  match m with
  | ReshapeObject r => ReshapeObject r
  | LinearObject l =>
      LinearObject {| in_features := in_features l; out_features := out_features l;
                      weight := constant (Tensor [] []); bias := constant (Tensor [] []) |}
  | SequentialObject children => SequentialObject (map structure children)
  end.

(** The shape of the weight of a linear layer. *)
Definition weight_shape (l : Linear) : list nat := shape (value (weight l)).

(** What [apply init_weights] does to a module. *)
Definition initialised (m : module_object) (g : generator)
    (r : module_object * generator) : Prop :=
  structure (fst r) = structure m /\
  map bias (linears (fst r)) = map bias (linears m) /\
  map (fun l => value (weight l)) (linears (fst r))
    = draws g (1 # 100) (map weight_shape (linears m)) /\
  map (fun l => (grad_fn (weight l), leaf (weight l))) (linears (fst r))
    = map (fun l => (grad_fn (weight l), leaf (weight l))) (linears m) /\
  snd r = advance g (list_sum (map numel (map weight_shape (linears m)))).

End SoftmaxInit.

(** * Properties *)

(** ** Python strings *)

Module PythonFacts.
Import String Python.
Local Open Scope string_scope.

Example mismatch_message_3_2 :
  mismatch_message 3 2 = "The shape of X: 3 mismatched the shape of y: 2".
Proof. reflexivity. Qed.

Example epoch_loss_line_1 : epoch_loss_line 1 "0.1002" = "epoch 1, loss 0.1002".
Proof. reflexivity. Qed.

End PythonFacts.

(** ** Facts about the tensor fragment *)

Module TorchFacts.
Import Torch LinearRegressionSpec.

Lemma pow2_S (k : nat) : 2 ^ Z.of_nat (S k) == 2 * 2 ^ Z.of_nat k.
Proof.
  rewrite Nat2Z.inj_succ. unfold Z.succ.
  rewrite Qpower_plus by discriminate. simpl. ring.
Qed.

Lemma pow2_pos (k : nat) : 0 < 2 ^ Z.of_nat k.
Proof.
  apply Qpower_0_lt. reflexivity.
Qed.

Lemma pow2_ge_1 (k : nat) : 1 <= 2 ^ Z.of_nat k.
Proof.
  induction k as [|k IH].
  - simpl. apply Qle_refl.
  - rewrite pow2_S. lra.
Qed.

(** [k < 2^k], so the powers of two are unbounded. *)
Lemma pow2_gt_inject (k : nat) : inject_Z (Z.of_nat k) < 2 ^ Z.of_nat k.
Proof.
  induction k as [|k IH].
  - reflexivity.
  - rewrite pow2_S, Nat2Z.inj_succ. unfold Z.succ. rewrite inject_Z_plus.
    pose proof (pow2_ge_1 k). change (inject_Z 1) with 1. lra.
Qed.

(** The norm of a one-element tensor is the absolute value of the element. *)
Lemma norm_lt_scalar (s : list nat) (b c : Q) :
  0 <= c -> norm_lt (Tensor s [b]) c = true <-> Qabs b < c.
Proof.
  intros Hc. unfold norm_lt, norm_sq, Qsum. simpl.
  destruct (Qlt_le_dec (b * b + 0) (c * c)) as [H|H]; split; intros H'; try reflexivity; try discriminate.
  - apply Qabs_case; intros Hb; nra.
  - exfalso. revert H'. apply Qabs_case; intros Hb H'; nra.
Qed.

Local Open Scope nat_scope.

Lemma chunks_length (c k : nat) (d : list Q) : length (chunks c k d) = c.
Proof.
  revert d. induction c as [|c IH]; intros d; simpl; [reflexivity|].
  rewrite IH. reflexivity.
Qed.

Lemma chunks_piece_length (c k : nat) :
  forall d, length d = c * k -> forall x, In x (chunks c k d) -> length x = k.
Proof.
  induction c as [|c IH]; intros d Hd x Hx; simpl in Hx; [contradiction|].
  destruct Hx as [<-|Hx].
  - rewrite length_firstn. simpl in Hd. lia.
  - apply (IH (skipn k d)); [|exact Hx]. rewrite length_skipn. simpl in Hd. lia.
Qed.

Lemma concat_chunks (c k : nat) :
  forall d, length d = c * k -> concat (chunks c k d) = d.
Proof.
  induction c as [|c IH]; intros d Hd; simpl.
  - destruct d; [reflexivity|discriminate].
  - rewrite IH.
    + apply firstn_skipn.
    + rewrite length_skipn. simpl in Hd. lia.
Qed.

Lemma broadcast_rev_same (s : list nat) : broadcast_rev s s = Some s.
Proof.
  induction s as [|d s IH]; simpl; [reflexivity|].
  rewrite IH, Nat.eqb_refl. reflexivity.
Qed.

Lemma broadcast_shapes_same (s : list nat) : broadcast_shapes s s = Some s.
Proof.
  unfold broadcast_shapes. rewrite broadcast_rev_same. simpl.
  rewrite rev_involutive. reflexivity.
Qed.

Lemma expand_aligned_same (s : list nat) :
  forall d, length d = numel s -> expand_aligned s s d = d.
Proof.
  induction s as [|ds s IH]; intros d Hd; simpl; [reflexivity|].
  rewrite Nat.eqb_refl. simpl in Hd.
  rewrite (map_ext_in _ (fun x => x)).
  - rewrite map_id. apply concat_chunks. exact Hd.
  - intros x Hx. apply IH. exact (chunks_piece_length _ _ _ Hd x Hx).
Qed.

(** Expanding to the shape a tensor already has changes nothing. *)
Lemma expand_same (s : list nat) (d : list Q) :
  length d = numel s -> expand s s d = d.
Proof.
  intros Hd. unfold expand. rewrite Nat.sub_diag. simpl.
  apply expand_aligned_same. exact Hd.
Qed.

Lemma column_of_column_vector (d : nat) :
  forall wd, length wd = d -> column d 1 wd 0 = wd.
Proof.
  unfold column. induction d as [|d IH]; intros wd Hd.
  - destruct wd; [reflexivity|discriminate].
  - destruct wd as [|x wd]; [discriminate|]. simpl. f_equal.
    apply IH. simpl in Hd. lia.
Qed.

(** A matrix times a column vector: one scalar product per row. *)
Lemma mm2_column_vector (n d : nat) (xd wd : list Q) :
  length wd = d ->
  mm2 n d 1 xd wd = map (fun row => dot row wd) (chunks n d xd).
Proof.
  intros Hd. unfold mm2, columns. simpl.
  rewrite (column_of_column_vector d wd Hd).
  induction (chunks n d xd) as [|row rows IH]; simpl; [reflexivity|].
  rewrite IH. reflexivity.
Qed.

Lemma chunks_concat (k : nat) (ls : list (list Q)) :
  (forall l, In l ls -> length l = k) -> chunks (length ls) k (concat ls) = ls.
Proof.
  induction ls as [|l ls IH]; intros H; simpl; [reflexivity|].
  assert (Hl : length l = k) by (apply H; left; reflexivity).
  subst k.
  rewrite firstn_app, skipn_app, Nat.sub_diag, firstn_all, skipn_all. simpl.
  rewrite app_nil_r.
  rewrite IH; [reflexivity|]. intros l' Hl'. apply H. right. exact Hl'.
Qed.

Lemma column_length (k m : nat) (b : list Q) (j : nat) : length (column k m b j) = k.
Proof.
  unfold column. rewrite length_map. apply chunks_length.
Qed.

Lemma columns_length (k m : nat) (b : list Q) : length (columns k m b) = m.
Proof.
  unfold columns. rewrite length_map. apply length_seq.
Qed.

(** The rows of the transpose are the columns. *)
Lemma chunks_transpose2 (n k : nat) (a : list Q) :
  chunks k n (transpose2 n k a) = columns n k a.
Proof.
  unfold transpose2. rewrite <- (columns_length n k a) at 1.
  apply chunks_concat. intros l Hl. unfold columns in Hl.
  apply in_map_iff in Hl. destruct Hl as (j & <- & _). apply column_length.
Qed.

Lemma map_nth_seq (l : list Q) (d : Q) :
  map (fun i => nth i l d) (seq 0 (length l)) = l.
Proof.
  induction l as [|x l IH]; simpl; [reflexivity|].
  f_equal. rewrite <- seq_shift, map_map. exact IH.
Qed.

(** The columns of the transpose are the rows. *)
Lemma columns_transpose2 (n k : nat) (a : list Q) :
  length a = n * k -> columns k n (transpose2 n k a) = chunks n k a.
Proof.
  intros Ha. unfold columns at 1, column. rewrite chunks_transpose2.
  unfold columns, column.
  assert (Hrows : forall row, In row (chunks n k a) -> length row = k)
    by (apply chunks_piece_length; exact Ha).
  revert Hrows. rewrite <- (chunks_length n k a) at 1.
  induction (chunks n k a) as [|row rows IH]; intros Hrows; simpl; [reflexivity|].
  f_equal.
  - rewrite map_map. simpl. rewrite <- (Hrows row (or_introl eq_refl)). apply map_nth_seq.
  - rewrite <- seq_shift, map_map. rewrite <- IH at 2.
    + apply map_ext. intros j. rewrite !map_map. reflexivity.
    + intros r Hr. apply Hrows. right. exact Hr.
Qed.

Lemma chunks_singletons (z : list Q) : chunks (length z) 1 z = map (fun v => [v]) z.
Proof.
  induction z as [|v z IH]; simpl; [reflexivity|]. rewrite IH. reflexivity.
Qed.

Lemma addmm_transposed_value (b x w : tensor) (n k m : nat) :
  shape x = [n; k] -> shape w = [m; k] -> shape b = [m] ->
  length (data w) = m * k ->
  addmm b x (Tensor [k; m] (transpose2 m k (data w)))
    = Ok (Tensor [n; m]
            (flat_map (affine_row (chunks m k (data w)) (data b)) (chunks n k (data x)))).
Proof.
  intros Hx Hw Hb Hl. unfold addmm. rewrite Hx, Hb. cbn [shape data].
  rewrite !Nat.eqb_refl. cbn [andb]. do 2 f_equal.
  unfold mm2. rewrite (columns_transpose2 m k (data w) Hl).
  rewrite !flat_map_concat_map.
  pose proof (chunks_concat m
                (map (fun row => map (dot row) (chunks m k (data w))) (chunks n k (data x))))
    as E.
  rewrite length_map, chunks_length in E. rewrite E.
  - rewrite map_map. reflexivity.
  - intros l Hin. apply in_map_iff in Hin. destruct Hin as (row & <- & _).
    rewrite length_map. apply chunks_length.
Qed.

Lemma bmm_raises_RuntimeError (a b : tensor) (e : exn) :
  bmm a b = Raise e -> e = RuntimeError.
Proof.
  unfold bmm. destruct (matrix_dims (shape a)) as [n k], (matrix_dims (shape b)) as [k' m].
  destruct (negb (k =? k')); [congruence|].
  destruct (broadcast_shapes _ _); [discriminate|congruence].
Qed.

(** A matrix times a tensor of three or more dimensions: the result starts
    with the first dimension of the tensor. *)
Lemma bmm_matrix_batch_shape0 (a b r : tensor) (n k d p q : nat) (s : list nat) :
  shape a = [n; k] -> shape b = d :: p :: q :: s -> bmm a b = Ok r -> shape0 r = Ok d.
Proof.
  intros Ha Hb. unfold bmm. rewrite Ha, Hb.
  change (matrix_dims [n; k]) with (n, k).
  destruct (matrix_dims (d :: p :: q :: s)) as [k' m].
  destruct (negb (k =? k')); [discriminate|].
  change (batch_dims [n; k]) with (@nil nat).
  unfold broadcast_shapes. cbn [rev broadcast_rev option_map].
  rewrite rev_involutive. intros H. injection H as <-.
  unfold shape0, batch_dims. cbn [shape length Nat.sub firstn app]. reflexivity.
Qed.

Lemma matmul_matrix_batch (a b : tensor) (n k d p q : nat) (s : list nat) :
  shape a = [n; k] -> shape b = d :: p :: q :: s -> matmul a b = bmm a b.
Proof.
  intros Ha Hb. unfold matmul. rewrite Ha, Hb. reflexivity.
Qed.

Lemma normal_tensor_length (g : generator) (mean std : Q) (size : list nat) :
  length (data (normal_tensor g mean std size)) = numel size.
Proof.
  unfold normal_tensor. simpl. rewrite length_map, length_seq. reflexivity.
Qed.

(** Row and column vectors: transposing either keeps the data, and a product
    with a 1 x 1 matrix scales it. *)
Lemma transpose2_column_vector (n : nat) (xs : list Q) :
  length xs = n -> transpose2 n 1 xs = xs.
Proof.
  intros H. unfold transpose2, columns. cbn [seq map concat].
  rewrite (column_of_column_vector n xs H). apply app_nil_r.
Qed.

Lemma columns_row_vector (n : nat) (xs : list Q) :
  length xs = n -> columns 1 n xs = map (fun v => [v]) xs.
Proof.
  intros <-. unfold columns, column. cbn [chunks map]. rewrite firstn_all.
  rewrite <- (map_nth_seq xs 0%Q) at 2. rewrite map_map. reflexivity.
Qed.

Lemma transpose2_row_vector (n : nat) (xs : list Q) :
  length xs = n -> transpose2 1 n xs = xs.
Proof.
  intros H. unfold transpose2. rewrite (columns_row_vector n xs H).
  clear H. induction xs as [|v xs IH]; [reflexivity|].
  cbn [map concat app]. rewrite IH. reflexivity.
Qed.

Lemma mm2_scalar_row (n : nat) (c : Q) (xs : list Q) :
  length xs = n -> mm2 1 1 n [c] xs = map (fun v => c * v + 0)%Q xs.
Proof.
  intros H. unfold mm2. cbn [chunks firstn flat_map].
  rewrite (columns_row_vector n xs H), map_map, app_nil_r. reflexivity.
Qed.

Lemma mm2_column_scalar (n : nat) (c : Q) (xs : list Q) :
  length xs = n -> mm2 n 1 1 xs [c] = map (fun v => v * c + 0)%Q xs.
Proof.
  intros <-. rewrite (mm2_column_vector (length xs) 1 xs [c] eq_refl).
  rewrite chunks_singletons, map_map. reflexivity.
Qed.

Lemma zip_with_map (g : Q -> Q -> Q) (f h : Q -> Q) (xs : list Q) :
  zip_with g (map f xs) (map h xs) = map (fun v => g (f v) (h v)) xs.
Proof.
  induction xs as [|v xs IH]; [reflexivity|].
  cbn [map zip_with]. rewrite IH. reflexivity.
Qed.

Lemma Forall2_Qeq_map (f h : Q -> Q) (xs : list Q) :
  (forall v, f v == h v)%Q -> Forall2 Qeq (map f xs) (map h xs).
Proof.
  intros H. induction xs as [|v xs IH]; constructor; [apply H|exact IH].
Qed.

End TorchFacts.

(** ** Facts about the store *)

Module StoreFacts.
Import Torch Store.
Local Open Scope nat_scope.

Lemma load_at_last (h : list tensor) (t : tensor) : load_at (h ++ [t]) (length h) = t.
Proof.
  unfold load_at. rewrite app_nth2 by lia. rewrite Nat.sub_diag. reflexivity.
Qed.

Lemma load_at_app_l (h l : list tensor) (r : ref) :
  r < length h -> load_at (h ++ l) r = load_at h r.
Proof.
  intros H. unfold load_at. apply app_nth1. exact H.
Qed.

Lemma load_at_app_plus (h l : list tensor) (i : nat) :
  load_at (h ++ l) (length h + i) = load_at l i.
Proof.
  unfold load_at. apply app_nth2_plus.
Qed.

Lemma load_at_app_0 (h l : list tensor) : load_at (h ++ l) (length h) = load_at l 0.
Proof.
  rewrite <- (load_at_app_plus h l 0). f_equal. lia.
Qed.

Lemma update_last (h : list tensor) (t v : tensor) :
  update (h ++ [t]) (length h) v = h ++ [v].
Proof.
  induction h as [|u h IH]; simpl; [reflexivity|]. rewrite IH. reflexivity.
Qed.

Lemma update_app_l (h l : list tensor) (r : ref) (v : tensor) :
  r < length h -> update (h ++ l) r v = update h r v ++ l.
Proof.
  revert r. induction h as [|u h IH]; intros r Hr; simpl in *; [lia|].
  destruct r as [|r]; [reflexivity|]. rewrite IH by lia. reflexivity.
Qed.

Ltac heap_lia := rewrite ?length_app; simpl; lia.

Ltac heap_simpl :=
  repeat first
    [ rewrite load_at_last
    | rewrite load_at_app_l by heap_lia
    | rewrite update_last
    | rewrite update_app_l by heap_lia ].

End StoreFacts.

(** ** Concise Implementation of Linear Regression: [synthetic_data] *)

Module LinearRegressionDataFacts.
Import Torch TorchFacts Store StoreFacts LinearRegressionData LinearRegressionSpec.
Local Open Scope store_scope.
Local Open Scope nat_scope.

(** What the statements before the two [type] calls do once [X @ w] has
    succeeded with [xw]: four tensors are allocated, the third one, [y], is
    then updated in place, and the assertion compares [num_examples] with
    the first dimension of [xw]. *)
Lemma synthetic_data_body_run (w : tensor) (b : Q) (n : nat) (w0 : world) (d : nat) (xw : tensor) :
  shape0 w = Ok d ->
  matmul (drawn_X w0 n d) w = Ok xw ->
  synthetic_data_body w b n w0 =
    match shape0 xw with
    | Raise e => Raise e
    | Ok y0 =>
        if n =? y0
        then Ok ((length (heap w0), length (heap w0) + 2),
                 World (heap w0 ++ [drawn_X w0 n d; xw;
                                    add (add_scalar xw b) (drawn_noise w0 n d (shape xw));
                                    drawn_noise w0 n d (shape xw)])
                       (advance (advance (gen w0) (numel [n; d])) (numel (shape xw))))
        else Raise (AssertionError (Python.mismatch_message n y0))
    end.
Proof.
  intros Hd Hm.
  unfold synthetic_data_body, bind at 1, lift at 1. cbn [contents float32_tensor]. rewrite Hd.
  unfold normal at 1, bind at 1, alloc at 1. cbn [heap gen].
  unfold matmul_, bind at 1, bind at 1, load at 1. cbn [heap gen].
  heap_simpl. fold (drawn_X w0 n d).
  unfold matmul_any. cbn [dtype_of contents float32_tensor]. rewrite Hm.
  unfold lift at 1, bind at 1, alloc at 1. cbn [heap gen].
  unfold add_scalar_, bind at 1, bind at 1, load at 1, alloc at 1. cbn [heap gen]. heap_simpl.
  unfold shape_, bind at 1, bind at 1, load at 1, ret at 1. cbn [heap gen]. heap_simpl.
  unfold normal at 1, bind at 1, alloc at 1. cbn [heap gen].
  change (shape (add_scalar xw b)) with (shape xw).
  fold (drawn_noise w0 n d (shape xw)).
  unfold iadd_, bind at 1, bind at 1, load at 1. cbn [heap gen]. heap_simpl.
  unfold bind at 1, load at 1. cbn [heap gen]. heap_simpl.
  change (shape (add_scalar xw b)) with (shape xw).
  change (shape (drawn_noise w0 n d (shape xw))) with (shape xw).
  rewrite broadcast_shapes_same.
  destruct (list_eq_dec Nat.eq_dec (shape xw) (shape xw)) as [_|ne]; [|contradiction].
  rewrite expand_same by apply normal_tensor_length.
  unfold store at 1. cbn [heap gen]. heap_simpl.
  unfold shape0_, bind at 1, bind at 1, load at 1, lift at 1. cbn [heap gen]. heap_simpl.
  change (shape0 (drawn_X w0 n d)) with (@Ok nat n).
  unfold bind at 1, bind at 1, load at 1, lift at 1. cbn [heap gen]. heap_simpl.
  change (shape0 (Tensor (shape xw)
                    (zip_with Qplus (data (add_scalar xw b))
                       (data (drawn_noise w0 n d (shape xw))))))
    with (shape0 xw).
  destruct (shape0 xw) as [y0|e]; [|reflexivity].
  unfold bind at 1, assert_.
  destruct (n =? y0); [|reflexivity].
  unfold ret, bind. rewrite !length_app. cbn [length]. rewrite <- !app_assoc. cbn [app].
  replace (length (heap w0) + 1 + 1) with (length (heap w0) + 2) by lia.
  reflexivity.
Qed.

(** The two [type] calls change neither the result nor the world. *)
Lemma synthetic_data_is_body (w : tensor) (b : Q) (n : nat) (w0 : world) :
  synthetic_data w b n w0 = synthetic_data_body w b n w0.
Proof.
  unfold synthetic_data, bind at 1.
  destruct (synthetic_data_body w b n w0) as [[[X y] w1]|e]; reflexivity.
Qed.

(** The run of [synthetic_data] when [X @ w] succeeds with a tensor whose
    first dimension is [num_examples]. *)
Lemma synthetic_data_run_ok (w : tensor) (b : Q) (n : nat) (w0 : world) (d : nat) (xw : tensor) :
  shape0 w = Ok d ->
  matmul (drawn_X w0 n d) w = Ok xw ->
  shape0 xw = Ok n ->
  let X := length (heap w0) in
  let y := length (heap w0) + 2 in
  exists w1 : world,
    synthetic_data w b n w0 = Ok ((X, y), w1) /\
    load_at (heap w1) X = drawn_X w0 n d /\
    load_at (heap w1) y = add (add_scalar xw b) (drawn_noise w0 n d (shape xw)) /\
    (forall r, r < length (heap w0) -> load_at (heap w1) r = load_at (heap w0) r).
Proof.
  intros Hd Hm Hy X y.
  rewrite synthetic_data_is_body, (synthetic_data_body_run w b n w0 d xw Hd Hm), Hy.
  rewrite Nat.eqb_refl. eexists. split; [reflexivity|]. cbn [heap].
  subst X y. repeat split.
  - rewrite load_at_app_0. reflexivity.
  - rewrite load_at_app_plus. reflexivity.
  - intros r Hr. apply load_at_app_l. exact Hr.
Qed.

Example synthetic_data_true_w_3 :
  exists w1,
    synthetic_data true_w true_b 3 empty_world = Ok ((0, 2), w1) /\
    map shape (heap w1) = [[3; 2]; [3; 1]; [3; 1]; [3; 1]] /\
    Forall (fun v => (v == true_b)%Q) (data (load_at (heap w1) 2)).
Proof.
  eexists. split; [reflexivity|]. split; [reflexivity|].
  repeat constructor.
Qed.

(** A tensor of dtype [float32] is one of the tensors of the model. *)
Lemma float32_any (w : any_tensor) :
  dtype_of w = float32 -> w = float32_tensor (contents w).
Proof.
  destruct w as [dt t]. cbn [dtype_of contents]. intros ->. reflexivity.
Qed.

(** A weight of another dtype is refused by [X @ w], whatever its shape with
    at least one dimension. *)
Lemma synthetic_data_other_dtype (w : any_tensor) (b : Q) (n : nat) (w0 : world) :
  dtype_of w <> float32 -> shape (contents w) <> [] ->
  synthetic_data w b n w0 = Raise RuntimeError.
Proof.
  intros Hdt Hs. unfold synthetic_data, bind at 1, synthetic_data_body, bind at 1, lift at 1.
  unfold shape0. destruct (shape (contents w)) as [|d s]; [contradiction|].
  unfold normal at 1, bind at 1, alloc at 1. cbn [heap gen].
  unfold matmul_, bind at 1, bind at 1, load at 1. cbn [heap gen].
  unfold matmul_any. destruct (dtype_of w); try reflexivity. contradiction.
Qed.

(** The claim that every weight of shape [(d, 1)] gives a pair, refuted:
    [X] is a [float32] tensor, and with the weight of the notebook as a
    [float64] tensor [X @ w] raises. *)
Lemma synthetic_data_refuses_a_float64_weight :
  shape (contents (AnyTensor float64 true_w)) = [2; 1] /\
  synthetic_data (AnyTensor float64 true_w) true_b 1000 empty_world = Raise RuntimeError.
Proof.
  split; [reflexivity|]. apply synthetic_data_other_dtype; discriminate.
Qed.

(** C7, amended.  For a [float32] weight [w] of shape [(d, 1)],
    [synthetic_data w b n] returns a pair of tensors [(X, y)]: [X] has shape
    [(n, d)] and is the tensor that was drawn, unmodified; [y] has shape
    [(n, 1)] and is [X @ w + b + eps], row by row [X_i . w + b + eps_i], for
    the noise [eps] of the shape of [y]; and no tensor that existed before
    the call is changed. *)
Theorem synthetic_data_returns_X_y (w : any_tensor) (b : Q) (n d : nat) (w0 : world) :
  dtype_of w = float32 ->
  shape (contents w) = [d; 1] ->
  length (data (contents w)) = d ->
  exists (X y : ref) (w1 : world) (xw : tensor),
    synthetic_data w b n w0 = Ok ((X, y), w1) /\
    X <> y /\
    load_at (heap w1) X = drawn_X w0 n d /\
    shape (load_at (heap w1) X) = [n; d] /\
    matmul (drawn_X w0 n d) (contents w) = Ok xw /\
    load_at (heap w1) y = add (add_scalar xw b) (drawn_noise w0 n d [n; 1]) /\
    shape (load_at (heap w1) y) = [n; 1] /\
    shape (drawn_noise w0 n d [n; 1]) = shape (load_at (heap w1) y) /\
    data (load_at (heap w1) y) =
      zip_with Qplus
        (map (fun row => (dot row (data (contents w)) + b)%Q)
           (chunks n d (data (drawn_X w0 n d))))
        (data (drawn_noise w0 n d [n; 1])) /\
    (forall r, r < length (heap w0) -> load_at (heap w1) r = load_at (heap w0) r).
Proof.
  intros Hdt Hs Hl. rewrite (float32_any w Hdt). generalize dependent (contents w).
  clear w Hdt. intros w Hs Hl.
  assert (Hm : matmul (drawn_X w0 n d) w
               = Ok (Tensor [n; 1] (mm2 n d 1 (data (drawn_X w0 n d)) (data w)))).
  { unfold matmul. rewrite Hs. cbn [shape drawn_X normal_tensor].
    rewrite Nat.eqb_refl. reflexivity. }
  assert (Hd : shape0 w = Ok d) by (unfold shape0; rewrite Hs; reflexivity).
  destruct (synthetic_data_run_ok w b n w0 d _ Hd Hm eq_refl) as (w1 & Hrun & HX & Hy & Hframe).
  cbn [shape] in Hy.
  exists (length (heap w0)), (length (heap w0) + 2), w1,
    (Tensor [n; 1] (mm2 n d 1 (data (drawn_X w0 n d)) (data w))).
  split; [exact Hrun|]. split; [lia|]. split; [exact HX|].
  split; [rewrite HX; reflexivity|]. split; [exact Hm|]. split; [exact Hy|].
  split; [rewrite Hy; reflexivity|]. split; [rewrite Hy; reflexivity|].
  split; [|exact Hframe].
  rewrite Hy. cbn [add add_scalar data]. rewrite (mm2_column_vector n d _ _ Hl), map_map.
  reflexivity.
Qed.

Lemma synthetic_data_returns_X_y_witness :
  exists (X y : ref) (w1 : world) (xw : tensor),
    synthetic_data true_w true_b 1000 empty_world = Ok ((X, y), w1) /\
    X <> y /\
    load_at (heap w1) X = drawn_X empty_world 1000 2 /\
    shape (load_at (heap w1) X) = [1000; 2] /\
    matmul (drawn_X empty_world 1000 2) true_w = Ok xw /\
    load_at (heap w1) y = add (add_scalar xw true_b) (drawn_noise empty_world 1000 2 [1000; 1]) /\
    shape (load_at (heap w1) y) = [1000; 1] /\
    shape (drawn_noise empty_world 1000 2 [1000; 1]) = shape (load_at (heap w1) y) /\
    data (load_at (heap w1) y) =
      zip_with Qplus
        (map (fun row => (dot row (data true_w) + true_b)%Q)
           (chunks 1000 2 (data (drawn_X empty_world 1000 2))))
        (data (drawn_noise empty_world 1000 2 [1000; 1])) /\
    (forall r, r < length (heap empty_world) ->
       load_at (heap w1) r = load_at (heap empty_world) r).
Proof.
  apply (synthetic_data_returns_X_y true_w true_b 1000 2 empty_world); reflexivity.
Defined.

(** The claim that the assertion never fails, refuted: with a weight of
    shape [(2, 2, 1)] and three examples, [X @ w] is a batched product of
    shape [(2, 3, 1)], and the assertion compares 3 with 2.  A weight without
    dimensions has no [shape[0]], and a weight of integers is refused by
    [X @ w]. *)
Lemma synthetic_data_assertion_can_fail :
  synthetic_data (Tensor [2; 2; 1] [1; 0; 0; 1]%Q) 0%Q 3 empty_world
    = Raise (AssertionError (Python.mismatch_message 3 2)) /\
  synthetic_data (Tensor [] [1]%Q) 0%Q 3 empty_world = Raise IndexError /\
  synthetic_data (AnyTensor int64 (Tensor [2; 1] [2; -3]%Q)) 0%Q 3 empty_world
    = Raise RuntimeError.
Proof. repeat split; reflexivity. Qed.

(** C2, amended.  For a [float32] weight [w] with one or two dimensions the
    assertion of [synthetic_data] holds and the call returns: [X] has shape
    [(n, w.shape[0])], and [y] has [n] as its first dimension like [X]. *)
Theorem synthetic_data_assertion_holds (w : any_tensor) (b : Q) (n : nat) (w0 : world) :
  dtype_of w = float32 ->
  length (shape (contents w)) = 1 \/ length (shape (contents w)) = 2 ->
  exists (X y : ref) (w1 : world) (d : nat),
    synthetic_data w b n w0 = Ok ((X, y), w1) /\
    shape0 (contents w) = Ok d /\
    shape (load_at (heap w1) X) = [n; d] /\
    shape0 (load_at (heap w1) X) = Ok n /\
    shape0 (load_at (heap w1) y) = Ok n.
Proof.
  intros Hdt Hw. rewrite (float32_any w Hdt). generalize dependent (contents w).
  clear w Hdt. intros w Hw. cbn [contents float32_tensor].
  assert (H : exists d xw, shape0 w = Ok d /\
                matmul (drawn_X w0 n d) w = Ok xw /\ shape0 xw = Ok n).
  { destruct (shape w) as [|d [|m [|p s]]] eqn:Hs; simpl in Hw;
      try (destruct Hw; discriminate).
    - exists d. eexists. unfold shape0, matmul. rewrite Hs. cbn [shape drawn_X normal_tensor].
      rewrite Nat.eqb_refl. repeat split.
    - exists d. eexists. unfold shape0, matmul. rewrite Hs. cbn [shape drawn_X normal_tensor].
      rewrite Nat.eqb_refl. repeat split. }
  destruct H as (d & xw & Hd & Hm & Hy).
  destruct (synthetic_data_run_ok w b n w0 d xw Hd Hm Hy) as (w1 & Hrun & HX & Hy1 & _).
  exists (length (heap w0)), (length (heap w0) + 2), w1, d.
  split; [exact Hrun|]. split; [exact Hd|].
  rewrite HX, Hy1. repeat split. exact Hy.
Qed.

Lemma synthetic_data_assertion_holds_witness :
  exists (X y : ref) (w1 : world) (d : nat),
    synthetic_data true_w true_b 1000 empty_world = Ok ((X, y), w1) /\
    shape0 true_w = Ok d /\
    shape (load_at (heap w1) X) = [1000; d] /\
    shape0 (load_at (heap w1) X) = Ok 1000 /\
    shape0 (load_at (heap w1) y) = Ok 1000.
Proof.
  apply (synthetic_data_assertion_holds true_w true_b 1000 empty_world).
  - reflexivity.
  - right. reflexivity.
Defined.

(** With three or more dimensions in the weight, the first dimension of
    [X @ w] is that of [w]: the call raises unless it equals [num_examples]. *)
Lemma synthetic_data_batched_weight (w : tensor) (b : Q) (n : nat) (w0 : world)
      (d p q : nat) (s : list nat) :
  shape w = d :: p :: q :: s ->
  n <> d ->
  synthetic_data w b n w0 = Raise RuntimeError \/
  synthetic_data w b n w0 = Raise (AssertionError (Python.mismatch_message n d)).
Proof.
  intros Hs Hn.
  assert (Hd : shape0 w = Ok d) by (unfold shape0; rewrite Hs; reflexivity).
  assert (HX : shape (drawn_X w0 n d) = [n; d]) by reflexivity.
  rewrite synthetic_data_is_body.
  destruct (matmul (drawn_X w0 n d) w) as [xw|e] eqn:Hm.
  - right. rewrite (synthetic_data_body_run w b n w0 d xw Hd Hm).
    rewrite (matmul_matrix_batch _ _ _ _ _ _ _ _ HX Hs) in Hm.
    rewrite (bmm_matrix_batch_shape0 _ _ _ _ _ _ _ _ _ HX Hs Hm).
    destruct (n =? d) eqn:E; [apply Nat.eqb_eq in E; contradiction|reflexivity].
  - left. unfold synthetic_data_body, bind at 1, lift at 1.
    cbn [contents float32_tensor]. rewrite Hd.
    unfold normal at 1, bind at 1, alloc at 1. cbn [heap gen].
    unfold matmul_, bind at 1, bind at 1, load at 1. cbn [heap gen].
    heap_simpl. fold (drawn_X w0 n d).
    unfold matmul_any. cbn [dtype_of contents float32_tensor]. rewrite Hm.
    rewrite (matmul_matrix_batch _ _ _ _ _ _ _ _ HX Hs) in Hm.
    rewrite (bmm_raises_RuntimeError _ _ _ Hm). reflexivity.
Qed.

(** Whether [type] returns its tensor or a converted copy of it, no tensor
    object that exists is updated. *)
Lemma type_frame (has_type : bool) (x r : ref) (w1 w2 : world) :
  type_ has_type x w1 = Ok (r, w2) ->
  length (heap w1) <= length (heap w2) /\
  forall r', r' < length (heap w1) -> load_at (heap w2) r' = load_at (heap w1) r'.
Proof.
  unfold type_. destruct has_type.
  - cbv [ret]. intros H. inversion H; subst. split; [lia|reflexivity].
  - cbv [bind load alloc]. intros H. inversion H; subst. cbn [heap].
    rewrite length_app. split; [lia|]. intros r' Hr'. apply load_at_app_l. exact Hr'.
Qed.

(** C9.  The statements [X.type(torch.FloatTensor)] and
    [y.type(torch.FloatTensor)] are without effect: [synthetic_data] has the
    outcome of the statements before them.  When those return the pair
    [(X, y)] in a world [w1], the two calls return in the same world and the
    pair returned is that same [(X, y)]; and whether a call of [type] returns
    its tensor or a new one, its result is discarded and the objects of [X]
    and [y] are as they were. *)
Theorem type_calls_are_no_ops (w : tensor) (b : Q) (n : nat) (w0 : world) :
  synthetic_data w b n w0 = synthetic_data_body w b n w0 /\
  (forall (X y : ref) (w1 : world),
     synthetic_data_body w b n w0 = Ok ((X, y), w1) ->
     (type_FloatTensor X ;;; type_FloatTensor y ;;; ret (X, y)) w1 = Ok ((X, y), w1)) /\
  (forall (X y : ref) (w1 : world) (X_is_float y_is_float : bool),
     X < length (heap w1) -> y < length (heap w1) ->
     exists w2 : world,
       (type_ X_is_float X ;;; type_ y_is_float y ;;; ret (X, y)) w1 = Ok ((X, y), w2) /\
       load_at (heap w2) X = load_at (heap w1) X /\
       load_at (heap w2) y = load_at (heap w1) y /\
       forall r, r < length (heap w1) -> load_at (heap w2) r = load_at (heap w1) r).
Proof.
  split; [apply synthetic_data_is_body|]. split.
  - intros X y w1 _. reflexivity.
  - intros X y w1 fx fy HX Hy. unfold bind at 1.
    destruct (type_ fx X w1) as [[r1 wa]|e] eqn:E1;
      [|destruct fx; cbv [type_ ret bind load alloc] in E1; discriminate].
    destruct (type_frame fx X r1 w1 wa E1) as [Hlen1 Hfr1].
    unfold bind at 1.
    destruct (type_ fy y wa) as [[r2 wb]|e] eqn:E2;
      [|destruct fy; cbv [type_ ret bind load alloc] in E2; discriminate].
    destruct (type_frame fy y r2 wa wb E2) as [Hlen2 Hfr2].
    exists wb. split; [reflexivity|].
    assert (Hfr : forall r, r < length (heap w1) -> load_at (heap wb) r = load_at (heap w1) r).
    { intros r Hr. rewrite Hfr2 by lia. apply Hfr1. exact Hr. }
    split; [apply Hfr; exact HX|]. split; [apply Hfr; exact Hy|exact Hfr].
Qed.

End LinearRegressionDataFacts.

(** ** Ch04: the control-flow function [f] *)

Module AutomaticDifferentiationFacts.
Import Torch TorchFacts AutomaticDifferentiation AutomaticDifferentiationSpec.

Lemma least_doublings_unique (b : Q) (k k' : nat) :
  least_doublings b k -> least_doublings b k' -> k = k'.
Proof.
  intros [Hk Lk] [Hk' Lk'].
  destruct (Nat.lt_trichotomy k k') as [H|[H|H]]; [|assumption|].
  - specialize (Lk' k H). lra.
  - specialize (Lk k' H). lra.
Qed.

Lemma norm_lt_1000 (s : list nat) (b : Q) :
  norm_lt (scalar s b) 1000 = true <-> Qabs b < 1000.
Proof.
  apply norm_lt_scalar. discriminate.
Qed.

Lemma Qabs_double (b : Q) : Qabs (b * 2) == Qabs b * 2.
Proof.
  rewrite Qabs_Qmult. reflexivity.
Qed.

(** The loop, started at [b], leaves after exactly [k] doublings with
    [b * 2^k], where [k] is the least number of doublings that suffices. *)
Lemma f_while_exits (s : list nat) (n : nat) :
  forall b : Q,
    1000 <= Qabs b * 2 ^ Z.of_nat n ->
    exists (k : nat) (c : Q),
      least_doublings b k /\
      c == b * 2 ^ Z.of_nat k /\
      (forall fuel, (k < fuel)%nat -> f_while fuel (scalar s b) = Some (scalar s c)) /\
      (forall fuel, (fuel <= k)%nat -> f_while fuel (scalar s b) = None).
Proof.
  assert (stop : forall b, norm_lt (scalar s b) 1000 = false ->
            exists (k : nat) (c : Q),
              least_doublings b k /\ c == b * 2 ^ Z.of_nat k /\
              (forall fuel, (k < fuel)%nat -> f_while fuel (scalar s b) = Some (scalar s c)) /\
              (forall fuel, (fuel <= k)%nat -> f_while fuel (scalar s b) = None)).
  { intros b Hb. exists 0%nat, b.
    assert (Hge : 1000 <= Qabs b).
    { destruct (Qlt_le_dec (Qabs b) 1000) as [H|H]; [|exact H].
      apply norm_lt_1000 with (s := s) in H. congruence. }
    repeat split.
    - simpl. lra.
    - intros j Hj. lia.
    - simpl. ring.
    - intros [|fuel] Hf; [lia|]. simpl. rewrite Hb. reflexivity.
    - intros fuel Hf. assert (fuel = 0%nat) by lia. subst. reflexivity. }
  induction n as [|n IH]; intros b Hn.
  - apply stop. destruct (norm_lt (scalar s b) 1000) eqn:E; [|reflexivity].
    apply norm_lt_1000 in E. simpl in Hn. lra.
  - destruct (norm_lt (scalar s b) 1000) eqn:E; [|apply stop; exact E].
    destruct (IH (b * 2)) as (k & c & [Hk Lk] & Hc & Hsome & Hnone).
    { rewrite Qabs_double. rewrite pow2_S in Hn. lra. }
    exists (S k), c. repeat split.
    + rewrite pow2_S. rewrite Qabs_double in Hk. lra.
    + intros [|j] Hj.
      * apply norm_lt_1000 in E. simpl. lra.
      * specialize (Lk j ltac:(lia)). rewrite Qabs_double in Lk. rewrite pow2_S. lra.
    + rewrite Hc, pow2_S. ring.
    + intros [|fuel] Hf; [lia|]. simpl. rewrite E. apply Hsome. lia.
    + intros [|fuel] Hf; [reflexivity|]. simpl. rewrite E. apply Hnone. lia.
Qed.

(** Doubling a nonzero rational often enough reaches 1000. *)
Lemma doubling_reaches_1000 (x : Q) :
  0 < x -> exists n : nat, 1000 <= x * 2 ^ Z.of_nat n.
Proof.
  intros Hx. destruct x as [p q].
  assert (Hp : (0 < p)%Z) by (unfold Qlt in Hx; simpl in Hx; lia).
  exists (Pos.to_nat (1000 * q)).
  pose proof (pow2_gt_inject (Pos.to_nat (1000 * q))) as H.
  rewrite positive_nat_Z in H.
  assert (H1 : 1000 <= (p # q) * inject_Z (Z.pos (1000 * q))).
  { unfold Qle, Qmult, inject_Z. simpl. nia. }
  apply Qle_trans with (1 := H1).
  apply Qmult_le_l; [exact Hx|]. apply Qlt_le_weak.
  rewrite positive_nat_Z. exact H.
Qed.

Lemma f_while_zero (s : list nat) (fuel : nat) :
  forall b : Q, b == 0 -> f_while fuel (scalar s b) = None.
Proof.
  induction fuel as [|fuel IH]; intros b Hb; [reflexivity|].
  simpl. assert (E : norm_lt (scalar s b) 1000 = true).
  { apply norm_lt_1000. rewrite Hb. reflexivity. }
  rewrite E. apply IH. rewrite Hb. reflexivity.
Qed.

Lemma f_returns_nonzero (s : list nat) (a : Q) (fuel : nat) (r : tensor) :
  f fuel (scalar s a) = Some r -> ~ a == 0.
Proof.
  intros H Ha. unfold f in H.
  change (mul_scalar (scalar s a) 2) with (scalar s (a * 2)) in H.
  rewrite f_while_zero in H; [discriminate|]. rewrite Ha. reflexivity.
Qed.

Example f_at_1 : f 20 (scalar [1%nat] 1) = Some (scalar [1%nat] 1024).
Proof. reflexivity. Qed.

Example f_at_minus_3 : f 20 (scalar [1%nat] (-3)) = Some (scalar [1%nat] (-153600)).
Proof. reflexivity. Qed.

Example f_at_1_short_of_fuel : f 9 (scalar [1%nat] 1) = None.
Proof. reflexivity. Qed.

(** C8.  [f] terminates exactly on nonzero inputs.  For [a <> 0] the loop
    leaves after the least [k] with [|2a| * 2^k >= 1000] doublings; for
    [a = 0] the loop variable stays zero, its norm stays below 1000, and no
    amount of fuel lets [f] return. *)
Theorem f_terminates_iff_nonzero (s : list nat) (a : Q) :
  ((exists (fuel : nat) (r : tensor), f fuel (scalar s a) = Some r) <-> ~ a == 0) /\
  (~ a == 0 ->
   exists k : nat,
     least_doublings (a * 2) k /\
     forall fuel, (exists r, f fuel (scalar s a) = Some r) <-> (k < fuel)%nat) /\
  (a == 0 ->
   forall fuel, f_while fuel (mul_scalar (scalar s a) 2) = None /\
                f fuel (scalar s a) = None).
Proof.
  assert (nonzero : ~ a == 0 ->
            exists k : nat, least_doublings (a * 2) k /\
              forall fuel, (exists r, f fuel (scalar s a) = Some r) <-> (k < fuel)%nat).
  { intros Ha.
    assert (Hpos : 0 < Qabs (a * 2)).
    { apply Qabs_case; intros H; lra. }
    destruct (doubling_reaches_1000 _ Hpos) as [n Hn].
    destruct (f_while_exits s n (a * 2) Hn) as (k & c & Hk & Hc & Hsome & Hnone).
    exists k. split; [exact Hk|]. intros fuel. unfold f.
    change (mul_scalar (scalar s a) 2) with (scalar s (a * 2)).
    destruct (Nat.lt_ge_cases k fuel) as [Hf|Hf].
    - rewrite (Hsome fuel Hf). split; [intros _; exact Hf|intros _].
      destruct (Qpositive (sum (scalar s c))); eexists; reflexivity.
    - rewrite (Hnone fuel Hf). split; [intros [r Hr]; discriminate|lia]. }
  split; [split|split].
  - intros (fuel & r & H). exact (f_returns_nonzero _ _ _ _ H).
  - intros Ha. destruct (nonzero Ha) as (k & _ & Hk).
    exists (S k). apply Hk. lia.
  - exact nonzero.
  - intros Ha fuel.
    change (mul_scalar (scalar s a) 2) with (scalar s (a * 2)).
    assert (E : f_while fuel (scalar s (a * 2)) = None).
    { apply f_while_zero. rewrite Ha. reflexivity. }
    split; [exact E|]. unfold f.
    change (mul_scalar (scalar s a) 2) with (scalar s (a * 2)).
    rewrite E. reflexivity.
Qed.

(** *** A Simple Example *)

Import Autograd.

(** C10.  In the simple example [x] is the column [(0, 1, 2, 3)], a leaf
    that requires a gradient and has no [grad_fn]; [y = 2 x^T x] is 28 and
    has the [grad_fn] of the multiplication by 2; [y.backward()] stores
    [x.grad = (0, 4, 8, 12)], which is [4 x], so that [x.grad - 4 x] is zero
    and its norm is 0. *)
Theorem simple_example_gradient :
  exists (x y : variable) (gs : grads) (x_grad : tensor),
    simple_example = Ok (x, y, gs) /\
    value x = Tensor [4; 1]%nat [0; 1; 2; 3] /\
    requires_grad x = true /\
    grad_fn x = None /\
    value y = Tensor [1; 1]%nat [28] /\
    (exists next, grad_fn y = Some (MulBackward0 2 next)) /\
    grad_of gs 0 = Some x_grad /\
    x_grad = Tensor [4; 1]%nat [0; 4; 8; 12] /\
    x_grad = rmul_scalar 4 (value x) /\
    sub x_grad (rmul_scalar 4 (value x)) = Tensor [4; 1]%nat [0; 0; 0; 0] /\
    norm_sq (sub x_grad (rmul_scalar 4 (value x))) == 0 /\
    gradient_check x x_grad = true.
Proof.
  unfold simple_example.
  assert (Hx : reshape (arange 4) [4; 1]%nat = Ok (Tensor [4; 1]%nat [0; 1; 2; 3]))
    by reflexivity.
  rewrite Hx. cbn [and_then]. unfold differentiate.
  set (x := requires_grad_leaf 0 (Tensor [4; 1]%nat [0; 1; 2; 3])).
  assert (Ht : t x = Ok (Var (Tensor [1; 4]%nat [0; 1; 2; 3])
                             (Some (TBackward (Some (AccumulateGrad 0)))) None))
    by reflexivity.
  rewrite Ht. cbn [and_then].
  match goal with
  | |- context [Autograd.mm ?a ?b] =>
      assert (Hmm : Autograd.mm a b
                    = Ok (Var (Tensor [1; 1]%nat [14])
                              (Some (MmBackward (Tensor [1; 4]%nat [0; 1; 2; 3])
                                                (Tensor [4; 1]%nat [0; 1; 2; 3])
                                                (Some (TBackward (Some (AccumulateGrad 0))))
                                                (Some (AccumulateGrad 0))))
                              None))
        by reflexivity
  end.
  rewrite Hmm. cbn [and_then].
  match goal with
  | |- context [backward ?y ?g] =>
      assert (Hb : backward y g = Ok [Some (Tensor [4; 1]%nat [0; 4; 8; 12])])
        by reflexivity
  end.
  rewrite Hb. cbn [and_then].
  eexists _, _, _, _. split; [reflexivity|].
  repeat split; try reflexivity.
  eexists. reflexivity.
Qed.

(** X1.  The cells of the simple example on any column [x], of any
    length: [y] is [2 x^T x], a single number, and [y.backward()] stores
    [4 x] in [x.grad], entry by entry. *)
Lemma gradient_of_2xTx (xs : list Q) :
  exists (x y : variable) (g : list Q),
    differentiate (Tensor [length xs; 1%nat] xs)
      = Ok (x, y, [Some (Tensor [length xs; 1%nat] g)]) /\
    value x = Tensor [length xs; 1%nat] xs /\
    value y = Tensor [1; 1]%nat [2 * dot xs xs] /\
    Forall2 Qeq g (map (fun v => 4 * v) xs).
Proof.
  unfold differentiate, t, Autograd.mm, backward.
  cbn -[transpose2 mm2 Qmult Qplus].
  rewrite Nat.eqb_refl.
  cbn -[transpose2 mm2 Qmult Qplus].
  rewrite (transpose2_column_vector _ xs eq_refl).
  rewrite (transpose2_row_vector _ xs eq_refl).
  rewrite (mm2_scalar_row _ _ xs eq_refl), (mm2_column_scalar _ _ xs eq_refl).
  rewrite (transpose2_row_vector (length xs)) by apply length_map.
  rewrite (mm2_column_vector 1 _ xs xs eq_refl).
  cbn [chunks map]. rewrite firstn_all.
  unfold add. cbn [shape data]. rewrite zip_with_map.
  eexists _, _, _. split; [reflexivity|].
  split; [reflexivity|]. split; [reflexivity|].
  apply Forall2_Qeq_map. intros v. ring.
Qed.

End AutomaticDifferentiationFacts.

(** ** [float32] arithmetic: doubling is exact, and comparisons are those of
    the rationals *)

Module Float32Facts.
Import SpecFloat Float32.

(** A number of the format is normal, with a mantissa of 24 bits, or
    subnormal, with the least exponent. *)
Lemma valid_cases (s : bool) (m : positive) (e : Z) :
  valid (S754_finite s m e) = true ->
  (Zpos (digits2_pos m) = 24 /\ -149 <= e <= 104)%Z \/
  (Zpos (digits2_pos m) < 24 /\ e = -149)%Z.
Proof.
  unfold valid, valid_binary, bounded, canonical_mantissa, fexp, emin, prec, emax.
  intros H. apply andb_true_iff in H. destruct H as [H1 H2].
  apply Z.eqb_eq in H1. apply Z.leb_le in H2. lia.
Qed.

(** [x * 2]: the exponent of a normal number grows by one, or the result
    is an infinity; the mantissa of a subnormal number is doubled. *)
Lemma mul_2 (s : bool) (m : positive) (e : Z) :
  valid (S754_finite s m e) = true ->
  mul (S754_finite s m e) (of_Z 2) =
    if (Zpos (digits2_pos m) =? 24)%Z then
       if (e + 1 <=? 104)%Z then S754_finite s m (e + 1) else S754_infinity s
    else S754_finite s (m~0) e.
Proof.
  intros Hv. destruct (valid_cases s m e Hv) as [[Hd He]|[Hd He]].
  - rewrite Hd. cbn [Z.eqb Pos.eqb].
    change (of_Z 2) with (S754_finite false 8388608 (-22)).
    unfold mul, SFmul. rewrite xorb_false_r, Pos.mul_comm. cbn [Pos.mul].
    unfold binary_round_aux, shr_fexp, Zdigits2. cbn [digits2_pos shr_record_of_loc].
    replace (fexp prec emax _ - (e + -22))%Z with 23%Z
      by (unfold fexp, emin, prec, emax; lia).
    cbn [shr iter_pos shr_1 orb shr_m loc_of_shr_record round_nearest_even shr_record_of_loc].
    replace (fexp prec emax _ - (e + -22 + 23))%Z with 0%Z
      by (unfold fexp, emin, prec, emax; lia).
    cbn [shr shr_m]. replace (e + -22 + 23)%Z with (e + 1)%Z by lia. reflexivity.
  - assert (E : (Zpos (digits2_pos m) =? 24)%Z = false) by (apply Z.eqb_neq; lia).
    rewrite E. subst e.
    change (of_Z 2) with (S754_finite false 8388608 (-22)).
    unfold mul, SFmul. rewrite xorb_false_r, Pos.mul_comm. cbn [Pos.mul].
    unfold binary_round_aux, shr_fexp, Zdigits2. cbn [digits2_pos shr_record_of_loc].
    replace (fexp prec emax _ - (-149 + -22))%Z with 22%Z
      by (unfold fexp, emin, prec, emax; lia).
    cbn [shr iter_pos shr_1 orb shr_m loc_of_shr_record round_nearest_even shr_record_of_loc].
    cbn [Zdigits2 digits2_pos].
    replace (fexp prec emax _ - (-149 + -22 + 22))%Z with 0%Z
      by (unfold fexp, emin, prec, emax; lia).
    cbn [shr shr_m]. reflexivity.
Qed.

Lemma digits2_pos_bounds (m : positive) :
  (2 ^ (Zpos (digits2_pos m) - 1) <= Zpos m < 2 ^ Zpos (digits2_pos m))%Z.
Proof.
  induction m as [p IH|p IH|]; cbn [digits2_pos].
  - rewrite Pos2Z.inj_succ. replace (Z.succ (Z.pos (digits2_pos p)) - 1)%Z
      with (Z.succ (Z.pos (digits2_pos p) - 1)) by lia.
    rewrite !Z.pow_succ_r by lia. lia.
  - rewrite Pos2Z.inj_succ. replace (Z.succ (Z.pos (digits2_pos p)) - 1)%Z
      with (Z.succ (Z.pos (digits2_pos p) - 1)) by lia.
    rewrite !Z.pow_succ_r by lia. lia.
  - simpl. lia.
Qed.

Lemma valid_mantissa (s : bool) (m : positive) (e : Z) :
  valid (S754_finite s m e) = true ->
  (Zpos m < 16777216)%Z /\ ((-149 < e)%Z -> (8388608 <= Zpos m)%Z) /\ (-149 <= e <= 104)%Z.
Proof.
  intros Hv. pose proof (digits2_pos_bounds m) as [Hlo Hhi].
  destruct (valid_cases s m e Hv) as [[Hd He]|[Hd He]].
  - rewrite Hd in Hlo, Hhi. change (2 ^ 24)%Z with 16777216%Z in Hhi.
    change (2 ^ (24 - 1))%Z with 8388608%Z in Hlo. lia.
  - assert (2 ^ Zpos (digits2_pos m) <= 2 ^ 24)%Z by (apply Z.pow_le_mono_r; lia).
    change (2 ^ 24)%Z with 16777216%Z in H. lia.
Qed.

Lemma Qabs_to_Q (s : bool) (m : positive) (e : Z) :
  Qabs (to_Q (S754_finite s m e)) == inject_Z (Zpos m) * 2 ^ e.
Proof.
  unfold to_Q. rewrite Qabs_Qmult.
  assert (H2 : 0 < 2 ^ e) by (apply Qpower_0_lt; reflexivity).
  rewrite (Qabs_pos (2 ^ e)) by lra.
  destruct s; cbn [cond_Zopp]; reflexivity.
Qed.

Lemma pow2_le (e1 e2 : Z) : (e1 <= e2)%Z -> (2:Q) ^ e1 <= 2 ^ e2.
Proof. intros H. apply Qpower_le_compat_l; [exact H|discriminate]. Qed.

Lemma inject_Z_lt (a b : Z) : (a < b)%Z -> inject_Z a < inject_Z b.
Proof. intros H. rewrite <- Zlt_Qlt. exact H. Qed.

Lemma inject_Z_le (a b : Z) : (a <= b)%Z -> inject_Z a <= inject_Z b.
Proof. intros H. rewrite <- Zle_Qle. exact H. Qed.

(** [abs(b) < 1000] on [float32] numbers is the comparison of the rationals. *)
Lemma abs_lt_1000 (s : bool) (m : positive) (e : Z) :
  valid (S754_finite s m e) = true ->
  (ltb (abs (S754_finite s m e)) (of_Z 1000) = true
   <-> Qabs (to_Q (S754_finite s m e)) < 1000).
Proof.
  intros Hv. rewrite Qabs_to_Q.
  destruct (valid_mantissa s m e Hv) as (Hhi & Hlo & He).
  assert (Hm : 0 < inject_Z (Zpos m)) by (apply (inject_Z_lt 0); lia).
  assert (Hp : 0 < 2 ^ e) by (apply Qpower_0_lt; reflexivity).
  change (of_Z 1000) with (S754_finite false 16384000 (-14)).
  unfold ltb, abs, SFabs, SFltb, SFcompare.
  destruct (Z.compare_spec e (-14)) as [E|E|E].
  - subst e. rewrite Pos.compare_cont_spec. cbn [Pos.switch_Eq].
    change ((2:Q) ^ (-14)) with (/ 16384).
    destruct (Pos.compare_spec m 16384000) as [C|C|C].
    + subst m. split; [discriminate|]. intros H. exfalso. revert H. apply Qle_not_lt.
      unfold Qle. simpl. lia.
    + split; [intros _|reflexivity]. unfold Qlt. simpl. lia.
    + split; [discriminate|]. intros H. exfalso. revert H. apply Qle_not_lt.
      unfold Qle. simpl. lia.
  - split; [intros _|reflexivity].
    assert (H1 : (2:Q) ^ e <= 2 ^ (-15)) by (apply pow2_le; lia).
    change ((2:Q) ^ (-15)) with (/ 32768) in H1.
    assert (H2 : inject_Z (Zpos m) < 16777216) by (apply (inject_Z_lt _ 16777216); exact Hhi).
    set (x := inject_Z (Zpos m)) in *. set (p := 2 ^ e) in *.
    assert (H3 : / 32768 == 1 # 32768) by reflexivity. rewrite H3 in H1. nra.
  - split; [discriminate|]. intros H. exfalso. revert H. apply Qle_not_lt.
    assert (H1 : (2:Q) ^ (-13) <= 2 ^ e) by (apply pow2_le; lia).
    change ((2:Q) ^ (-13)) with (/ 8192) in H1.
    assert (H2 : 8388608 <= inject_Z (Zpos m))
      by (apply (inject_Z_le 8388608); apply Hlo; lia).
    set (x := inject_Z (Zpos m)) in *. set (p := 2 ^ e) in *.
    assert (H3 : / 8192 == 1 # 8192) by reflexivity. rewrite H3 in H1. nra.
Qed.

Lemma lt_1000_exponent (s : bool) (m : positive) (e : Z) :
  ltb (abs (S754_finite s m e)) (of_Z 1000) = true -> (e <= -14)%Z.
Proof.
  change (of_Z 1000) with (S754_finite false 16384000 (-14)).
  unfold ltb, abs, SFabs, SFltb, SFcompare.
  destruct (Z.compare_spec e (-14)) as [E|E|E]; [lia|lia|discriminate].
Qed.

(** [0 < b] on a [float32] number is the sign of the rational. *)
Lemma positive_iff (s : bool) (m : positive) (e : Z) :
  ltb (of_Z 0) (S754_finite s m e) = true <-> 0 < to_Q (S754_finite s m e).
Proof.
  assert (Hm : 0 < inject_Z (Zpos m)) by (apply (inject_Z_lt 0); lia).
  assert (Hp : 0 < 2 ^ e) by (apply Qpower_0_lt; reflexivity).
  change (of_Z 0) with (S754_zero false). unfold ltb, SFltb, SFcompare, to_Q.
  destruct s; cbn [cond_Zopp].
  - split; [discriminate|]. intros H. exfalso.
    change (inject_Z (- Z.pos m)) with (inject_Z (- (Z.pos m))) in H.
    rewrite inject_Z_opp in H. set (x := inject_Z (Zpos m)) in *. set (p := 2 ^ e) in *. nra.
  - split; [intros _|reflexivity]. set (x := inject_Z (Zpos m)) in *. set (p := 2 ^ e) in *. nra.
Qed.

(** Below the largest exponent, doubling is exact. *)
Lemma double_exact (s : bool) (m : positive) (e : Z) :
  valid (S754_finite s m e) = true -> (e < 104)%Z ->
  exists (m' : positive) (e' : Z),
    mul (S754_finite s m e) (of_Z 2) = S754_finite s m' e' /\
    valid (S754_finite s m' e') = true /\
    to_Q (S754_finite s m' e') == to_Q (S754_finite s m e) * 2.
Proof.
  intros Hv He. rewrite (mul_2 s m e Hv).
  destruct (valid_cases s m e Hv) as [[Hd He']|[Hd He']].
  - rewrite Hd. cbn [Z.eqb Pos.eqb].
    destruct (e + 1 <=? 104)%Z eqn:E; [|apply Z.leb_gt in E; lia].
    exists m, (e + 1)%Z. split; [reflexivity|]. split.
    + unfold valid, valid_binary, bounded, canonical_mantissa, fexp, emin, prec, emax.
      apply andb_true_iff. split; [apply Z.eqb_eq|apply Z.leb_le]; lia.
    + unfold to_Q. rewrite Qpower_plus by discriminate. change ((2:Q) ^ 1) with (2:Q). ring.
  - assert (E : (Zpos (digits2_pos m) =? 24)%Z = false) by (apply Z.eqb_neq; lia).
    rewrite E. exists (m~0)%positive, e. split; [reflexivity|]. split.
    + unfold valid, valid_binary, bounded, canonical_mantissa, fexp, emin, prec, emax.
      cbn [digits2_pos]. rewrite Pos2Z.inj_succ.
      apply andb_true_iff. split; [apply Z.eqb_eq|apply Z.leb_le]; lia.
    + unfold to_Q.
      assert (H : inject_Z (cond_Zopp s (Zpos m~0)) == 2 * inject_Z (cond_Zopp s (Zpos m))).
      { destruct s; cbn [cond_Zopp].
        - change (- Z.pos m~0)%Z with (2 * - Z.pos m)%Z. rewrite inject_Z_mult. reflexivity.
        - change (Z.pos m~0)%Z with (2 * Z.pos m)%Z. rewrite inject_Z_mult. reflexivity. }
      rewrite H. ring.
Qed.

(** The numbers with the largest exponent are those of magnitude [2^127]
    and more: their double is an infinity. *)
Lemma below_overflow (s : bool) (m : positive) (e : Z) :
  valid (S754_finite s m e) = true ->
  (Qabs (to_Q (S754_finite s m e)) < 2 ^ 127 <-> (e < 104)%Z).
Proof.
  intros Hv. rewrite Qabs_to_Q.
  destruct (valid_mantissa s m e Hv) as (Hhi & Hlo & He).
  assert (Hm : 0 < inject_Z (Zpos m)) by (apply (inject_Z_lt 0); lia).
  assert (Hp : 0 < 2 ^ e) by (apply Qpower_0_lt; reflexivity).
  split.
  - intros H. destruct (Z.lt_ge_cases e 104) as [L|G]; [exact L|]. exfalso.
    revert H. apply Qle_not_lt.
    assert (E : e = 104%Z) by lia. subst e.
    assert (H2 : 8388608 <= inject_Z (Zpos m))
      by (apply (inject_Z_le 8388608); apply Hlo; lia).
    setoid_replace ((2:Q) ^ 127) with (8388608 * 2 ^ 104) by reflexivity.
    apply Qmult_le_compat_r; [exact H2|lra].
  - intros L.
    assert (H1 : (2:Q) ^ e <= 2 ^ 103) by (apply pow2_le; lia).
    assert (H2 : inject_Z (Zpos m) < 16777216) by (apply (inject_Z_lt _ 16777216); exact Hhi).
    setoid_replace ((2:Q) ^ 127) with (16777216 * 2 ^ 103) by reflexivity.
    set (x := inject_Z (Zpos m)) in *. set (p := 2 ^ e) in *.
    assert (Hp' : 0 < 2 ^ 103) by reflexivity. set (r := 2 ^ 103) in *. nra.
Qed.

Lemma double_overflows (s : bool) (m : positive) :
  valid (S754_finite s m 104) = true ->
  mul (S754_finite s m 104) (of_Z 2) = S754_infinity s.
Proof.
  intros Hv. rewrite (mul_2 s m 104 Hv).
  destruct (valid_cases s m 104 Hv) as [[Hd _]|[_ Hd]]; [|discriminate].
  rewrite Hd. reflexivity.
Qed.

End Float32Facts.

(** ** Ch04: [f] in [float32] arithmetic *)

Module AutomaticDifferentiation32Facts.
Import SpecFloat Float32 Float32Facts.
Import Torch TorchFacts AutomaticDifferentiationSpec AutomaticDifferentiationFacts.
Import AutomaticDifferentiation32.

(** The loop in [float32] arithmetic and the loop in exact arithmetic take
    the same steps: the test is that of the rationals, and the doublings
    before the loop is left are exact. *)
Lemma f_while_simulation (sh : list nat) (fuel : nat) :
  forall (s : bool) (m : positive) (e : Z) (q : Q),
    valid (S754_finite s m e) = true ->
    to_Q (S754_finite s m e) == q ->
    match AutomaticDifferentiation.f_while fuel (AutomaticDifferentiation.scalar sh q) with
    | None => f_while fuel (S754_finite s m e) = None
    | Some t =>
        exists (m' : positive) (e' : Z) (c : Q),
          t = AutomaticDifferentiation.scalar sh c /\
          f_while fuel (S754_finite s m e) = Some (S754_finite s m' e') /\
          valid (S754_finite s m' e') = true /\
          to_Q (S754_finite s m' e') == c
    end.
Proof.
  induction fuel as [|fuel IH]; intros s m e q Hv Hq; [reflexivity|].
  cbn [AutomaticDifferentiation.f_while f_while].
  assert (Htest : norm_lt (AutomaticDifferentiation.scalar sh q) 1000 = ltb (abs (S754_finite s m e)) (of_Z 1000)).
  { destruct (ltb (abs (S754_finite s m e)) (of_Z 1000)) eqn:E.
    - apply norm_lt_1000. rewrite <- Hq. apply abs_lt_1000; assumption.
    - destruct (norm_lt (AutomaticDifferentiation.scalar sh q) 1000) eqn:E'; [|reflexivity].
      apply norm_lt_1000 in E'. rewrite <- Hq in E'. apply abs_lt_1000 in E'; [|exact Hv].
      congruence. }
  rewrite Htest. destruct (ltb (abs (S754_finite s m e)) (of_Z 1000)) eqn:E.
  - apply lt_1000_exponent in E.
    destruct (double_exact s m e Hv ltac:(lia)) as (m' & e' & Hmul & Hv' & Hq').
    rewrite Hmul. change (mul_scalar (AutomaticDifferentiation.scalar sh q) 2) with (AutomaticDifferentiation.scalar sh (q * 2)).
    apply IH; [exact Hv'|]. rewrite Hq', Hq. reflexivity.
  - exists m, e, q. repeat split; assumption.
Qed.

Lemma f_while_zero32 (s : bool) (fuel : nat) : f_while fuel (S754_zero s) = None.
Proof.
  induction fuel as [|fuel IH]; [reflexivity|].
  cbn [f_while]. destruct s; exact IH.
Qed.

(** The claim that [f a] is [2^(k+1) * a] for every positive [a] and
    [100 * 2^(k+1) * a] for every negative [a], refuted.  For
    [a = -11838741 / 2^24], where [k = 10], the product [100 * b] is
    rounded: [f a] is [-144515.875], which is not
    [100 * 2^11 * a = -295968525 / 2048].  For [a = 14791142 * 2^104], the
    [float32] number next to [3e38], where [k = 0], the product [a * 2]
    overflows: [f a] is an infinity, not [2 * a]. *)
Lemma f_rounds_and_overflows :
  let a := S754_finite true 11838741 (-24) in
  let big := S754_finite false 14791142 104 in
  (valid a = true /\
   to_Q a == - (11838741 # 16777216) /\
   least_doublings (to_Q a * 2) 10 /\
   exists c : float,
     f 11 a = Some c /\
     to_Q c == - (1156127 # 8) /\
     ~ to_Q c == 100 * 2 ^ Z.of_nat (10 + 1) * to_Q a) /\
  (valid big = true /\
   0 < to_Q big /\
   least_doublings (to_Q big * 2) 0 /\
   f 1 big = Some (S754_infinity false)).
Proof.
  cbv zeta. split.
  - split; [reflexivity|]. split; [reflexivity|]. split.
    + split.
      * vm_compute. discriminate.
      * intros j Hj.
        assert (H : (2:Q) ^ Z.of_nat j <= 2 ^ 9) by (apply pow2_le; lia).
        assert (Hq : Qabs (to_Q (S754_finite true 11838741 (-24)) * 2) == 11838741 # 8388608)
          by reflexivity.
        rewrite Hq. change ((2:Q) ^ 9) with (512 # 1) in H.
        set (p := 2 ^ Z.of_nat j) in *.
        assert (0 < p) by (apply Qpower_0_lt; reflexivity). lra.
    + eexists. split; [vm_compute; reflexivity|]. split; [reflexivity|].
      intros H. vm_compute in H. discriminate H.
  - split; [reflexivity|]. split; [reflexivity|]. split; [|reflexivity].
    split.
    + vm_compute. discriminate.
    + intros j Hj. lia.
Qed.

(** C1, amended.  [f] is a forward computation that is piecewise linear in a
    scalar input up to the rounding of one product.  For a [float32] number
    [a] that is finite and not zero, of magnitude below [2^127], let [k] be
    the least number of doublings of [b = 2a] that brings [|b|] to 1000 or
    more.  The loop runs exactly [k] doublings ([k + 1] tests of its
    condition), all of them exact, and leaves [b = 2^(k+1) * a]; [f a] is
    this [b] when [a > 0], and the [float32] product of 100 and [b], which
    is [100 * 2^(k+1) * a] rounded to [float32], when [a < 0].  For a
    magnitude of [2^127] or more, [2a] is an infinity and so is [f a]. *)
Theorem f_piecewise_linear (a : float) :
  valid a = true -> is_finite a = true -> ~ to_Q a == 0 ->
  (Qabs (to_Q a) < 2 ^ 127 ->
   exists k : nat,
     least_doublings (to_Q a * 2) k /\
     (forall fuel, (fuel <= k)%nat -> f fuel a = None) /\
     (forall fuel, (k < fuel)%nat ->
        exists b : float,
          valid b = true /\ is_finite b = true /\
          to_Q b == 2 ^ Z.of_nat (k + 1) * to_Q a /\
          (0 < to_Q a -> f fuel a = Some b) /\
          (to_Q a < 0 -> f fuel a = Some (mul (of_Z 100) b)))) /\
  (2 ^ 127 <= Qabs (to_Q a) ->
   f 0 a = None /\
   forall fuel,
     (0 < to_Q a -> f (S fuel) a = Some (S754_infinity false)) /\
     (to_Q a < 0 -> f (S fuel) a = Some (S754_infinity true))).
Proof.
  intros Hv Hf Hnz.
  destruct a as [z|i| |s m e]; try discriminate Hf; try (exfalso; apply Hnz; reflexivity).
  pose proof (positive_iff s m e) as Hsign.
  change (of_Z 0) with (S754_zero false) in Hsign.
  unfold ltb, SFltb, SFcompare in Hsign.
  split.
  - intros Hlt. apply (below_overflow s m e Hv) in Hlt.
    destruct (double_exact s m e Hv Hlt) as (m0 & e0 & Hmul & Hv0 & Hq0).
    assert (Hpos : 0 < Qabs (to_Q (S754_finite s m e) * 2)).
    { apply Qabs_case; intros H; lra. }
    destruct (doubling_reaches_1000 _ Hpos) as [n Hn].
    destruct (f_while_exits [1%nat] n (to_Q (S754_finite s m e) * 2) Hn)
      as (k & c & Hk & Hc & Hsome & Hnone).
    exists k. split; [exact Hk|].
    pose proof (fun fuel => f_while_simulation [1%nat] fuel s m0 e0 _ Hv0 Hq0) as Hsim.
    split.
    + intros fuel Hfuel. specialize (Hsim fuel). rewrite (Hnone fuel Hfuel) in Hsim.
      unfold f. rewrite Hmul, Hsim. reflexivity.
    + intros fuel Hfuel. specialize (Hsim fuel). rewrite (Hsome fuel Hfuel) in Hsim.
      destruct Hsim as (m' & e' & c' & Hcc & Hrun & Hv' & Hq').
      injection Hcc as <-.
      exists (S754_finite s m' e'). split; [exact Hv'|]. split; [reflexivity|].
      split.
      { rewrite Hq', Hc. replace (k + 1)%nat with (S k) by lia. rewrite pow2_S. ring. }
      unfold f. rewrite Hmul, Hrun.
      change (of_Z 0) with (S754_zero false). unfold ltb, SFltb, SFcompare.
      destruct s.
      * split; [|reflexivity]. intros H. apply Hsign in H. discriminate.
      * split; [reflexivity|]. intros H. exfalso.
        assert (0 < to_Q (S754_finite false m e)) by (apply Hsign; reflexivity). lra.
  - intros Hge. split; [reflexivity|]. intros fuel.
    assert (He : e = 104%Z).
    { destruct (valid_mantissa s m e Hv) as (_ & _ & He).
      destruct (Z.lt_ge_cases e 104) as [L|G]; [|lia].
      apply (below_overflow s m e Hv) in L. lra. }
    subst e. unfold f. rewrite (double_overflows s m Hv). cbn [f_while].
    destruct s.
    + split; [|reflexivity]. intros H. apply Hsign in H. discriminate.
    + split; [reflexivity|]. intros H. exfalso.
      assert (0 < to_Q (S754_finite false m 104)) by (apply Hsign; reflexivity). lra.
Qed.


Lemma f_piecewise_linear_witness :
  let a := S754_finite true 11838741 (-24) in
  (Qabs (to_Q a) < 2 ^ 127 ->
   exists k : nat,
     least_doublings (to_Q a * 2) k /\
     (forall fuel, (fuel <= k)%nat -> f fuel a = None) /\
     (forall fuel, (k < fuel)%nat ->
        exists b : float,
          valid b = true /\ is_finite b = true /\
          to_Q b == 2 ^ Z.of_nat (k + 1) * to_Q a /\
          (0 < to_Q a -> f fuel a = Some b) /\
          (to_Q a < 0 -> f fuel a = Some (mul (of_Z 100) b)))) /\
  (2 ^ 127 <= Qabs (to_Q a) ->
   f 0 a = None /\
   forall fuel,
     (0 < to_Q a -> f (S fuel) a = Some (S754_infinity false)) /\
     (to_Q a < 0 -> f (S fuel) a = Some (S754_infinity true))).
Proof.
  apply (f_piecewise_linear (S754_finite true 11838741 (-24))).
  - reflexivity.
  - reflexivity.
  - intros H. vm_compute in H. discriminate H.
Defined.


(** X3.  [f] in [float32] arithmetic follows [f] in exact arithmetic: on a
    finite [float32] number [a] that is not zero, of magnitude below
    [2^127], the two return for the same amounts of fuel, that is after the
    same number of doublings; for [a > 0] they return the same number, and
    for [a < 0] the exact result is 100 times the number whose rounded
    product with 100 the [float32] computation returns. *)
Theorem f_float32_follows_exact_f (sh : list nat) (a : float) (fuel : nat) :
  valid a = true -> is_finite a = true -> ~ to_Q a == 0 ->
  Qabs (to_Q a) < 2 ^ 127 ->
  (f fuel a = None <->
   AutomaticDifferentiation.f fuel (AutomaticDifferentiation.scalar sh (to_Q a)) = None) /\
  (forall t : tensor,
     AutomaticDifferentiation.f fuel (AutomaticDifferentiation.scalar sh (to_Q a)) = Some t ->
     exists (b : float) (r : Q),
       t = AutomaticDifferentiation.scalar sh r /\
       valid b = true /\ is_finite b = true /\
       (0 < to_Q a -> f fuel a = Some b /\ to_Q b == r) /\
       (to_Q a < 0 -> f fuel a = Some (mul (of_Z 100) b) /\ r == 100 * to_Q b)).
Proof.
  intros Hv Hf Hnz Hlt.
  destruct a as [z|i| |s m e]; try discriminate Hf; try (exfalso; apply Hnz; reflexivity).
  pose proof (positive_iff s m e) as Hsign.
  apply (below_overflow s m e Hv) in Hlt.
  destruct (double_exact s m e Hv Hlt) as (m0 & e0 & Hmul & Hv0 & Hq0).
  pose proof (f_while_simulation sh fuel s m0 e0 _ Hv0 Hq0) as Hsim.
  unfold f, AutomaticDifferentiation.f. rewrite Hmul.
  change (mul_scalar (AutomaticDifferentiation.scalar sh (to_Q (S754_finite s m e))) 2)
    with (AutomaticDifferentiation.scalar sh (to_Q (S754_finite s m e) * 2)).
  destruct (AutomaticDifferentiation.f_while fuel
              (AutomaticDifferentiation.scalar sh (to_Q (S754_finite s m e) * 2))) as [t0|].
  - destruct Hsim as (m' & e' & c & Ht0 & Hrun & Hv' & Hq'). subst t0. rewrite Hrun.
    assert (Hc : 0 < c <-> 0 < to_Q (S754_finite s m e)).
    { rewrite <- Hq'. rewrite <- (positive_iff s m' e'), <- Hsign.
      change (of_Z 0) with (S754_zero false). unfold ltb, SFltb, SFcompare. reflexivity. }
    assert (Hpc : Qpositive (sum (AutomaticDifferentiation.scalar sh c))
                  = ltb (of_Z 0) (S754_finite s m' e')).
    { unfold Qpositive, sum, Qsum. cbn [AutomaticDifferentiation.scalar data fold_right].
      destruct (Qlt_le_dec 0 (c + 0)) as [H|H].
      - symmetry. apply positive_iff. rewrite Hq'. lra.
      - destruct (ltb (of_Z 0) (S754_finite s m' e')) eqn:E; [|reflexivity].
        apply positive_iff in E. rewrite Hq' in E. lra. }
    rewrite Hpc. split.
    + destruct (ltb (of_Z 0) (S754_finite s m' e')); split; discriminate.
    + intros t Ht. exists (S754_finite s m' e').
      destruct (ltb (of_Z 0) (S754_finite s m' e')) eqn:E; injection Ht as <-.
      * apply positive_iff in E. rewrite Hq' in E. apply Hc in E.
        exists c. split; [reflexivity|]. split; [exact Hv'|]. split; [reflexivity|].
        split; [intros _; split; [reflexivity|exact Hq']|]. intros H. lra.
      * exists (100 * c). split; [reflexivity|]. split; [exact Hv'|]. split; [reflexivity|].
        split.
        -- intros H. exfalso. apply Hsign in H.
           change (of_Z 0) with (S754_zero false) in H, E.
           unfold ltb, SFltb, SFcompare in H, E. congruence.
        -- intros _. split; [reflexivity|]. rewrite Hq'. reflexivity.
  - rewrite Hsim. split; [split; intros _; reflexivity|]. intros t Ht. discriminate.
Qed.

Lemma f_float32_follows_exact_f_witness :
  let a := S754_finite true 11838741 (-24) in
  (f 11 a = None <->
   AutomaticDifferentiation.f 11 (AutomaticDifferentiation.scalar [1%nat] (to_Q a)) = None) /\
  (forall t : tensor,
     AutomaticDifferentiation.f 11 (AutomaticDifferentiation.scalar [1%nat] (to_Q a)) = Some t ->
     exists (b : float) (r : Q),
       t = AutomaticDifferentiation.scalar [1%nat] r /\
       valid b = true /\ is_finite b = true /\
       (0 < to_Q a -> f 11 a = Some b /\ to_Q b == r) /\
       (to_Q a < 0 -> f 11 a = Some (mul (of_Z 100) b) /\ r == 100 * to_Q b)).
Proof.
  apply (f_float32_follows_exact_f [1%nat] (S754_finite true 11838741 (-24)) 11).
  - reflexivity.
  - reflexivity.
  - intros H. vm_compute in H. discriminate H.
  - vm_compute. reflexivity.
Defined.

(** On a zero the loop never ends; on an infinity and on NaN it is left at
    once. *)
Lemma f_on_zero_infinity_nan (s : bool) (fuel : nat) :
  f fuel (S754_zero s) = None /\
  f (S fuel) (S754_infinity s) = Some (S754_infinity s) /\
  f (S fuel) S754_nan = Some S754_nan.
Proof.
  split; [|destruct s; split; reflexivity].
  unfold f. replace (mul (S754_zero s) (of_Z 2)) with (S754_zero s) by (destruct s; reflexivity).
  rewrite f_while_zero32. reflexivity.
Qed.

End AutomaticDifferentiation32Facts.

(** ** Concise Implementation of Linear Regression: [load_array] *)

Module DataFacts.
Import Torch Data LinearRegression.
Local Open Scope result_scope.


End DataFacts.

(** ** The models of the two notebooks *)

Module ModelFacts.
Import Torch TorchFacts Autograd NN LinearRegression SoftmaxRegression LinearRegressionSpec.
Local Open Scope result_scope.
Local Open Scope nat_scope.

Lemma and_then_Ok {A : Type} (r : result A) : (x <- r ;; Ok x) = r.
Proof.
  destruct r; reflexivity.
Qed.

(** A linear layer on a matrix: every row [x_i] becomes [x_i W^T + b]. *)
Lemma linear_matrix (x w b : variable) (n k m : nat) :
  shape (value x) = [n; k] -> shape (value w) = [m; k] -> shape (value b) = [m] ->
  length (data (value w)) = m * k ->
  exists out : variable,
    linear x w b = Ok out /\
    value out = Tensor [n; m]
                  (flat_map (affine_row (chunks m k (data (value w))) (data (value b)))
                     (chunks n k (data (value x)))).
Proof.
  intros Hx Hw Hb Hl. unfold linear, t, t_. rewrite Hw. cbn [on_value and_then].
  rewrite Hx. unfold Autograd.addmm. cbn [value recorded].
  rewrite (addmm_transposed_value _ _ _ n k m Hx Hw Hb Hl). cbn [on_value].
  eexists. split; reflexivity.
Qed.

Lemma view_784_rows (x : variable) (n : nat) :
  numel (shape (value x)) = n * 784 ->
  exists r : variable,
    SoftmaxRegression.view_784 x = Ok r /\
    value r = Tensor [n; 784] (data (value x)).
Proof.
  intros Hn. unfold SoftmaxRegression.view_784, view_rows. rewrite Hn.
  rewrite Nat.Div0.mod_mul, Nat.div_mul by discriminate.
  change (784 =? 0) with false. cbn [orb negb Nat.eqb on_value].
  eexists. split; reflexivity.
Qed.

Example softmax_net_on_one_image :
  exists out,
    forward (SoftmaxRegression.net
               (requires_grad_leaf 0 (Tensor [10; 784] (repeat 0%Q (10 * 784))))
               (requires_grad_leaf 1 (Tensor [10] [1; 2; 3; 4; 5; 6; 7; 8; 9; 10]%Q)))
            (constant (Tensor [1; 28; 28] (repeat 1%Q 784))) = Ok out /\
    shape (value out) = [1; 10] /\
    Forall2 Qeq (data (value out)) [1; 2; 3; 4; 5; 6; 7; 8; 9; 10]%Q.
Proof.
  eexists. split; [vm_compute; reflexivity|]. split; [reflexivity|].
  repeat constructor.
Qed.

(** C6.  Each model is one affine map.  [LinearRegressionModel.forward] is
    its layer [Linear(2, 1)] applied to the input, [x W^T + b] row by row;
    the softmax network is the reshaping of the input to rows of length 784
    followed by the layer [Linear(784, 10)], and nothing else. *)
Theorem models_are_single_affine_maps :
  (forall (nb : LinearRegression.notebook) (x : variable),
     let net := LinearRegression.net nb in
     forward net x = forward (LinearRegression.layer1 net) x /\
     forward (LinearRegression.layer1 net) x
       = linear x (LinearRegression.parameter nb 0) (LinearRegression.parameter nb 1) /\
     in_features (LinearRegression.layer1 net) = 2 /\
     out_features (LinearRegression.layer1 net) = 1) /\
  (forall (nb : LinearRegression.notebook) (x : variable) (n : nat) (w b : tensor),
     LinearRegression.params nb = [w; b] ->
     shape w = [1; 2] -> length (data w) = 2 -> shape b = [1] ->
     shape (value x) = [n; 2] ->
     exists out : variable,
       forward (LinearRegression.net nb) x = Ok out /\
       value out = Tensor [n; 1]
                     (flat_map (affine_row (chunks 1 2 (data w)) (data b))
                        (chunks n 2 (data (value x))))) /\
  (forall (weight bias x : variable),
     forward (SoftmaxRegression.net weight bias) x
       = (r <- SoftmaxRegression.view_784 x ;; linear r weight bias)) /\
  (forall (weight bias x : variable) (n : nat),
     shape (value weight) = [10; 784] -> length (data (value weight)) = 10 * 784 ->
     shape (value bias) = [10] ->
     numel (shape (value x)) = n * 784 -> 0 < n ->
     exists r out : variable,
       SoftmaxRegression.view_784 x = Ok r /\
       value r = Tensor [n; 784] (data (value x)) /\
       forward (SoftmaxRegression.net weight bias) x = Ok out /\
       value out = Tensor [n; 10]
                     (flat_map (affine_row (chunks 10 784 (data (value weight)))
                                           (data (value bias)))
                        (chunks n 784 (data (value x))))).
Proof.
  assert (Hsoft : forall weight bias x,
            forward (SoftmaxRegression.net weight bias) x
            = (r <- SoftmaxRegression.view_784 x ;; linear r weight bias)).
  { intros weight bias x. cbn [forward Sequential_Module SoftmaxRegression.net
                                 Sequential_forward SoftmaxRegression.Reshape_Module
                                 Linear_Module NN.weight NN.bias].
    destruct (SoftmaxRegression.view_784 x) as [r|e]; [|reflexivity].
    cbn [and_then]. apply and_then_Ok. }
  assert (Hlin : forall nb x,
            forward (LinearRegression.net nb) x
            = linear x (LinearRegression.parameter nb 0) (LinearRegression.parameter nb 1)).
  { intros nb x. cbn [forward LinearRegression.LinearRegressionModel_Module
                        LinearRegression.net LinearRegression.layer1 Linear_Module
                        NN.weight NN.bias].
    apply and_then_Ok. }
  split; [|split; [|split]].
  - intros nb x net. repeat split. subst net. rewrite Hlin. reflexivity.
  - intros nb x n w b Hp Hw Hl Hb Hx. rewrite Hlin.
    assert (H0 : value (LinearRegression.parameter nb 0) = w)
      by (unfold LinearRegression.parameter; rewrite Hp; reflexivity).
    assert (H1 : value (LinearRegression.parameter nb 1) = b)
      by (unfold LinearRegression.parameter; rewrite Hp; reflexivity).
    destruct (linear_matrix x (LinearRegression.parameter nb 0)
                (LinearRegression.parameter nb 1) n 2 1) as (out & Ho & Hv);
      rewrite ?H0, ?H1; try assumption.
    exists out. rewrite <- H0, <- H1 at 1. split; [exact Ho|].
    rewrite Hv, H0, H1. reflexivity.
  - exact Hsoft.
  - intros weight bias x n Hw Hl Hb Hn Hpos.
    destruct (view_784_rows x n Hn) as (r & Hr & Hrv).
    destruct (linear_matrix r weight bias n 784 10) as (out & Ho & Hv);
      try assumption; [rewrite Hrv; reflexivity|].
    exists r, out. split; [exact Hr|]. split; [exact Hrv|].
    rewrite Hsoft, Hr. cbn [and_then]. split; [exact Ho|].
    rewrite Hv, Hrv. reflexivity.
Qed.

End ModelFacts.

(** ** Concise Implementation of Linear Regression: training *)

Module TrainingFacts.
Import Torch TorchFacts Autograd Data NN LinearRegression ModelFacts LinearRegressionSpec.
Local Open Scope result_scope.
Local Open Scope nat_scope.

Lemma predictions_flat_map (w0 w1 b0 : Q) (rows : list (list Q)) :
  flat_map (affine_row [[w0; w1]] [b0]) rows = predictions w0 w1 b0 rows.
Proof.
  unfold predictions. induction rows as [|row rows IH]; simpl; [reflexivity|].
  rewrite IH. reflexivity.
Qed.

Lemma zip_with_length (g : Q -> Q -> Q) (u v : list Q) :
  length (zip_with g u v) = Nat.min (length u) (length v).
Proof.
  revert v. induction u as [|x u IH]; intros [|y v]; simpl; try reflexivity.
  rewrite IH. reflexivity.
Qed.

Lemma residuals_length (w0 w1 b0 : Q) (rows : list (list Q)) (ys : list Q) :
  length rows = length ys -> length (residuals w0 w1 b0 rows ys) = length ys.
Proof.
  intros H. unfold residuals, predictions. rewrite zip_with_length, length_map. lia.
Qed.

Lemma Qsum_map_ext (f g : Q -> Q) (l : list Q) :
  (forall x, f x == g x)%Q -> (Qsum (map f l) == Qsum (map g l))%Q.
Proof.
  intros H. induction l as [|x l IH]; simpl; [reflexivity|].
  rewrite IH, H. reflexivity.
Qed.

Lemma dot_map_ext (f g : Q -> Q) (l u : list Q) :
  (forall x, f x == g x)%Q -> (dot u (map f l) == dot u (map g l))%Q.
Proof.
  intros H. revert u. induction l as [|x l IH]; intros [|a u]; simpl; try reflexivity.
  rewrite IH, H. reflexivity.
Qed.

(** The gradients are the derivative of the sum of squared errors: along
    any direction [h], scaled by [t], the loss is the loss at the parameters,
    plus [t] times the gradient applied to [h], plus [t^2] times the sum of
    the squared changes of the predictions. *)
Lemma Qsum_cons (x : Q) (l : list Q) : Qsum (x :: l) = (x + Qsum l)%Q.
Proof. reflexivity. Qed.

Lemma dot_nil_r (u : list Q) : dot u [] = 0%Q.
Proof. destruct u; reflexivity. Qed.

Lemma Qsum_nil : Qsum [] = 0%Q.
Proof. reflexivity. Qed.

(** The gradients are the derivative of the sum of squared errors: along
    any direction [h], scaled by [t], the loss is the loss at the parameters,
    plus [t] times the gradient applied to [h], plus [t^2] times the sum of
    the squared changes of the predictions. *)
Lemma gradient_is_derivative (w0 w1 b0 h0 h1 hb t : Q) (rows : list (list Q)) :
  forall ys : list Q,
    length rows = length ys ->
    (sum_squared_error (w0 + t * h0) (w1 + t * h1) (b0 + t * hb) rows ys
     == sum_squared_error w0 w1 b0 rows ys
        + t * (dl_dw 0 w0 w1 b0 rows ys * h0 + dl_dw 1 w0 w1 b0 rows ys * h1
               + dl_db w0 w1 b0 rows ys * hb)
        + t * t * Qsum (map (fun row => (hb + dot row [h0; h1]) * (hb + dot row [h0; h1]))
                          rows))%Q.
Proof.
  unfold sum_squared_error, dl_dw, dl_db, residuals, predictions.
  induction rows as [|row rows IH]; intros [|y ys] Hlen; try discriminate;
    cbn [map zip_with dot nth]; rewrite ?Qsum_cons, ?Qsum_nil.
  - ring.
  - injection Hlen as Hlen. rewrite (IH ys Hlen).
    destruct row as [|x0 [|x1 row]]; cbn [dot nth]; rewrite ?dot_nil_r; ring.
Qed.

Lemma forward_batch (nb : notebook) (B : nat) (w0 w1 b0 : Q) (xd : list Q) :
  params nb = [Tensor [1; 2] [w0; w1]; Tensor [1] [b0]] ->
  forward (net nb) (constant (Tensor [B; 2] xd)) =
    Ok (Var (Tensor [B; 1] (predictions w0 w1 b0 (chunks B 2 xd)))
            (Some (AddmmBackward (Tensor [B; 2] xd) (Tensor [2; 1] [w0; w1])
                     (Some (AccumulateGrad 1)) None
                     (Some (TBackward (Some (AccumulateGrad 0))))))
            None).
Proof.
  intros Hp.
  cbn [forward LinearRegressionModel_Module net layer1 Linear_Module NN.weight NN.bias].
  rewrite and_then_Ok. unfold linear, parameter. rewrite Hp. cbn [nth].
  unfold t, t_. cbn [value requires_grad_leaf shape on_value and_then constant].
  unfold Autograd.addmm.
  cbn [value requires_grad_leaf constant recorded edge grad_fn leaf option_map existsb
         requires_grad orb].
  pose proof (addmm_transposed_value (Tensor [1] [b0]) (Tensor [B; 2] xd)
                (Tensor [1; 2] [w0; w1]) B 2 1 eq_refl eq_refl eq_refl eq_refl) as E.
  change (transpose2 1 2 (data (Tensor [1; 2] [w0; w1]))) with [w0; w1] in E.
  change (transpose2 1 2 (data (Tensor [1; 2] [w0; w1]))) with [w0; w1].
  rewrite E. cbn [on_value data]. change (chunks 1 2 [w0; w1]) with [[w0; w1]].
  rewrite predictions_flat_map. reflexivity.
Qed.

Lemma train_step_run (nb : notebook) (B : nat) (w0 w1 b0 : Q) (xd yd : list Q)
      (ow ob : option tensor) :
  params nb = [Tensor [1; 2] [w0; w1]; Tensor [1] [b0]] ->
  grad nb = [ow; ob] -> grad_slot_ready 2 ow -> grad_slot_ready 1 ob ->
  length xd = B * 2 -> length yd = B ->
  exists (l : variable) (gw0 gw1 gb : Q) (sw sb : list nat),
    train_step (Tensor [B; 2] xd) (Tensor [B; 1] yd) nb =
      Ok (l, {| features := features nb; labels := labels nb;
                params := [Tensor [1; 2] [(w0 + - lr * gw0)%Q; (w1 + - lr * gw1)%Q];
                           Tensor [1] [(b0 + - lr * gb)%Q]];
                grad := [Some (Tensor sw [gw0; gw1]); Some (Tensor sb [gb])];
                rng := rng nb; stdout := stdout nb |}) /\
    value l = Tensor [] [sum_squared_error w0 w1 b0 (chunks B 2 xd) yd] /\
    (gw0 == dl_dw 0 w0 w1 b0 (chunks B 2 xd) yd)%Q /\
    (gw1 == dl_dw 1 w0 w1 b0 (chunks B 2 xd) yd)%Q /\
    (gb == dl_db w0 w1 b0 (chunks B 2 xd) yd)%Q.
Proof.
  intros Hp Hg Hw Hb Hxl Hyl.
  unfold train_step. rewrite (forward_batch nb B w0 w1 b0 xd Hp). cbn [and_then].
  unfold loss, mse_loss_sum. cbn [value constant shape].
  destruct (list_eq_dec Nat.eq_dec [B; 1] [B; 1]) as [_|ne]; [|contradiction].
  cbn [and_then].
  unfold backward, mse_loss_sum_same.
  cbn [edge recorded existsb requires_grad grad_fn orb value shape numel fold_right
         Nat.eqb Nat.mul].
  cbn [backprop ones dims2 shape data numel fold_right repeat Nat.mul sub app value constant].
  fold (residuals w0 w1 b0 (chunks B 2 xd) yd).
  set (res := residuals w0 w1 b0 (chunks B 2 xd) yd).
  set (g1 := map (fun d => (2 * d * Qsum [1])%Q) res).
  assert (Hres : length res = B).
  { unfold res. rewrite residuals_length; [exact Hyl|]. rewrite chunks_length. symmetry. exact Hyl. }
  assert (Hg1 : length g1 = B) by (unfold g1; rewrite length_map; exact Hres).
  assert (Eb : map Qsum (columns B 1 g1) = [Qsum g1]).
  { unfold columns. cbn [seq map]. rewrite (column_of_column_vector B g1 Hg1). reflexivity. }
  assert (Ew : transpose2 2 1 (mm2 2 B 1 (transpose2 B 2 xd) g1)
               = [dot (column B 2 xd 0) g1; dot (column B 2 xd 1) g1]).
  { rewrite (mm2_column_vector 2 B _ _ Hg1), chunks_transpose2. reflexivity. }
  rewrite Eb, Ew, Hg, Hp. cbn [and_then fold_left fst snd zero_grad map].
  assert (Qb : (Qsum g1 == dl_db w0 w1 b0 (chunks B 2 xd) yd)%Q).
  { unfold g1, dl_db. fold res. apply Qsum_map_ext. intros d. cbn [Qsum fold_right]. ring. }
  assert (Qw : forall k, (dot (column B 2 xd k) g1 == dl_dw k w0 w1 b0 (chunks B 2 xd) yd)%Q).
  { intros k. unfold g1, dl_dw, column. fold res. apply dot_map_ext.
    intros d. cbn [Qsum fold_right]. ring. }
  destruct ow as [[sw dw]|], ob as [[sb db]|]; cbn [grad_slot_ready data] in Hw, Hb;
    try (destruct dw as [|d0 [|d1 [|d2 dw]]]; try discriminate Hw);
    try (destruct db as [|e0 [|e1 db]]; try discriminate Hb);
    cbn [option_map accumulate zeros_like add shape data map zip_with sgd_step sgd_update];
    eexists _, _, _, _, _, _; (split; [reflexivity|]); (split; [reflexivity|]);
    rewrite ?Qplus_0_l; repeat split; first [apply Qw | apply Qb].
Qed.

(** C4.  One step of the training loop on a mini-batch [(X, y)]: the loss
    [l] is the sum of the squared errors of [net(X)] against [y]; whatever
    gradients were stored before, the gradients stored afterwards are those
    of [l] alone; every parameter is replaced by itself minus 0.03 times its
    gradient; and nothing else of the notebook changes.  The gradients are
    the derivative of the loss with respect to the parameters. *)
Theorem train_step_is_one_sgd_update (nb : notebook) (X y : tensor) (B : nat)
        (w0 w1 b0 : Q) (ow ob : option tensor) :
  params nb = [Tensor [1; 2] [w0; w1]; Tensor [1] [b0]] ->
  grad nb = [ow; ob] -> grad_slot_ready 2 ow -> grad_slot_ready 1 ob ->
  shape X = [B; 2] -> length (data X) = B * 2 ->
  shape y = [B; 1] -> length (data y) = B ->
  let rows := chunks B 2 (data X) in
  let ys := data y in
  exists (l : variable) (nb' : notebook) (w0' w1' b0' gw0 gw1 gb : Q) (sw sb : list nat),
    train_step X y nb = Ok (l, nb') /\
    value l = Tensor [] [sum_squared_error w0 w1 b0 rows ys] /\
    grad nb' = [Some (Tensor sw [gw0; gw1]); Some (Tensor sb [gb])] /\
    (gw0 == dl_dw 0 w0 w1 b0 rows ys)%Q /\
    (gw1 == dl_dw 1 w0 w1 b0 rows ys)%Q /\
    (gb == dl_db w0 w1 b0 rows ys)%Q /\
    params nb' = [Tensor [1; 2] [w0'; w1']; Tensor [1] [b0']] /\
    (w0' == w0 - (3 # 100) * dl_dw 0 w0 w1 b0 rows ys)%Q /\
    (w1' == w1 - (3 # 100) * dl_dw 1 w0 w1 b0 rows ys)%Q /\
    (b0' == b0 - (3 # 100) * dl_db w0 w1 b0 rows ys)%Q /\
    features nb' = features nb /\ labels nb' = labels nb /\
    rng nb' = rng nb /\ stdout nb' = stdout nb /\
    (forall h0 h1 hb t : Q,
       sum_squared_error (w0 + t * h0) (w1 + t * h1) (b0 + t * hb) rows ys
       == sum_squared_error w0 w1 b0 rows ys
          + t * (dl_dw 0 w0 w1 b0 rows ys * h0 + dl_dw 1 w0 w1 b0 rows ys * h1
                 + dl_db w0 w1 b0 rows ys * hb)
          + t * t * Qsum (map (fun row => (hb + dot row [h0; h1]) * (hb + dot row [h0; h1]))
                            rows))%Q.
Proof.
  intros Hp Hg Hw Hb HX HXl Hy Hyl rows ys.
  destruct X as [sx xd], y as [sy yd]. cbn [shape data] in *. subst sx sy rows ys.
  destruct (train_step_run nb B w0 w1 b0 xd yd ow ob Hp Hg Hw Hb HXl Hyl)
    as (l & gw0 & gw1 & gb & sw & sb & Hrun & Hl & Hg0 & Hg1 & Hgb).
  eexists l, _, _, _, _, gw0, gw1, gb, sw, sb.
  split; [exact Hrun|]. cbn [grad params features labels rng stdout].
  split; [exact Hl|]. split; [reflexivity|].
  split; [exact Hg0|]. split; [exact Hg1|]. split; [exact Hgb|]. split; [reflexivity|].
  split; [rewrite Hg0; unfold lr; ring|].
  split; [rewrite Hg1; unfold lr; ring|].
  split; [rewrite Hgb; unfold lr; ring|].
  repeat (split; [reflexivity|]).
  intros h0 h1 hb t. apply gradient_is_derivative.
  rewrite chunks_length. symmetry. exact Hyl.
Qed.

Lemma split_nth (l : list nat) :
  forall i, i < length l -> l = firstn i l ++ nth i l 0 :: skipn (S i) l.
Proof.
  induction l as [|x l IH]; intros [|i] H; simpl in *; try lia; [reflexivity|].
  f_equal. apply IH. lia.
Qed.

(** [randperm] is a permutation. *)
Lemma pick_permutation (draws : list nat) :
  forall pool : list nat, length pool = length draws -> Permutation (pick pool draws) pool.
Proof.
  induction draws as [|r draws IH]; intros pool Hlen.
  - destruct pool; [constructor|discriminate].
  - destruct pool as [|p pool]; [discriminate|].
    cbn [pick]. set (full := p :: pool).
    set (i := r mod length full).
    assert (Hi : i < length full) by (apply Nat.mod_upper_bound; discriminate).
    assert (Hsplit := split_nth full i Hi).
    etransitivity.
    { apply perm_skip. apply IH.
      rewrite length_app, length_firstn, length_skipn.
      unfold full in *. cbn [length] in *. lia. }
    etransitivity; [apply Permutation_middle|].
    rewrite <- Hsplit. reflexivity.
Qed.

Lemma randperm_permutation (n : nat) (g : generator) :
  Permutation (fst (randperm n g)) (seq 0 n) /\ snd (randperm n g) = advance g n.
Proof.
  split; [|reflexivity]. unfold randperm. cbn [fst].
  apply pick_permutation. rewrite length_map, !length_seq. reflexivity.
Qed.

(** The batches of the sampler, one after the other, are the indices; no
    batch is empty. *)
Lemma batch_sampler_concat (bs : nat) (indices : list nat) :
  forall batch, concat (batch_sampler bs indices batch) = batch ++ indices.
Proof.
  induction indices as [|idx indices IH]; intros batch; cbn [batch_sampler].
  - destruct batch; cbn [concat]; rewrite ?app_nil_r; reflexivity.
  - destruct (length (batch ++ [idx]) =? bs).
    + cbn [concat]. rewrite IH, <- app_assoc. reflexivity.
    + rewrite IH, <- app_assoc. reflexivity.
Qed.

Lemma batch_sampler_nonempty (bs : nat) (indices : list nat) :
  forall batch, Forall (fun b => b <> []) (batch_sampler bs indices batch).
Proof.
  induction indices as [|idx indices IH]; intros batch; cbn [batch_sampler].
  - destruct batch; constructor; [discriminate|constructor].
  - destruct (length (batch ++ [idx]) =? bs).
    + constructor; [|apply IH]. destruct batch; discriminate.
    + apply IH.
Qed.

Lemma batch_sampler_size (bs : nat) (indices : list nat) :
  forall batch, length batch < bs ->
    Forall (fun b => length b <= bs) (batch_sampler bs indices batch).
Proof.
  induction indices as [|idx indices IH]; intros batch Hb; cbn [batch_sampler].
  - destruct batch; constructor; [lia|constructor].
  - destruct (length (batch ++ [idx]) =? bs) eqn:E.
    + apply Nat.eqb_eq in E. constructor; [lia|]. apply IH. simpl. lia.
    + apply Nat.eqb_neq in E. apply IH. rewrite length_app in *. simpl in *. lia.
Qed.

(** *** The batches of a data set of [N] examples with two features *)

Lemma gathered_length (N k : nat) (fd : list Q) (indices : list nat) :
  length fd = N * k -> Forall (fun i => i < N) indices ->
  length (concat (map (fun i => firstn k (skipn (i * k) fd)) indices)) = length indices * k.
Proof.
  intros Hfd Hall. induction Hall as [|i indices Hi _ IH]; [reflexivity|].
  cbn [map concat length]. rewrite length_app, IH, length_firstn, length_skipn, Hfd.
  assert (k <= N * k - i * k) by nia. lia.
Qed.

Lemma collate_batch (F L : tensor) (N : nat) (indices : list nat) :
  shape F = [N; 2] -> length (data F) = N * 2 ->
  shape L = [N; 1] -> length (data L) = N ->
  indices <> [] -> Forall (fun i => i < N) indices ->
  exists xd yd : list Q,
    collate {| tensors := [F; L] |} indices
      = [Tensor [length indices; 2] xd; Tensor [length indices; 1] yd] /\
    length xd = length indices * 2 /\ length yd = length indices.
Proof.
  intros HF HFl HL HLl Hne Hall.
  assert (Hs : forall t : tensor,
            match map (select0 t) indices with r :: _ => shape r | [] => [] end
            = tl (shape t)).
  { intros t. destruct indices; [contradiction|reflexivity]. }
  unfold collate, stack. cbn [tensors map]. rewrite !Hs, HF, HL, !length_map.
  cbn [tl]. eexists _, _. split; [reflexivity|].
  unfold select0. rewrite !map_map, HF, HL. cbn [data tl numel fold_right]. split.
  - change (2 * 1) with 2. apply (gathered_length N 2 (data F) indices HFl Hall).
  - change (1 * 1) with 1.
    rewrite (gathered_length N 1 (data L) indices); [lia|lia|exact Hall].
Qed.

Lemma train_step_ready (nb : notebook) (B : nat) (xd yd : list Q) :
  ready nb -> length xd = B * 2 -> length yd = B ->
  exists (l : variable) (nb' : notebook),
    train_step (Tensor [B; 2] xd) (Tensor [B; 1] yd) nb = Ok (l, nb') /\
    ready nb' /\
    features nb' = features nb /\ labels nb' = labels nb /\
    rng nb' = rng nb /\ stdout nb' = stdout nb.
Proof.
  intros [(w0 & w1 & b0 & Hp) (ow & ob & Hg & Hw & Hb)] Hxl Hyl.
  destruct (train_step_run nb B w0 w1 b0 xd yd ow ob Hp Hg Hw Hb Hxl Hyl)
    as (l & gw0 & gw1 & gb & sw & sb & Hrun & _).
  eexists _, _. split; [exact Hrun|]. cbn [features labels rng stdout].
  repeat split.
  - eexists _, _, _. reflexivity.
  - eexists _, _. cbn [grad]. repeat split.
Qed.

(** A pass over batches of valid indices trains on every batch, in order,
    and touches neither the data, the generator nor the output. *)
Lemma train_batches_run (F L : tensor) (N : nat) (idx : list (list nat)) :
  shape F = [N; 2] -> length (data F) = N * 2 ->
  shape L = [N; 1] -> length (data L) = N ->
  Forall (fun b => b <> [] /\ Forall (fun i => i < N) b) idx ->
  forall nb : notebook,
    ready nb ->
    exists nb' : notebook,
      train_batches (map (collate {| tensors := [F; L] |}) idx) nb = Ok nb' /\
      ready nb' /\
      features nb' = features nb /\ labels nb' = labels nb /\
      rng nb' = rng nb /\ stdout nb' = stdout nb.
Proof.
  intros HF HFl HL HLl Hall. induction Hall as [|b idx [Hne Hb] _ IH]; intros nb Hr.
  - exists nb. repeat split; assumption || apply Hr.
  - destruct (collate_batch F L N b HF HFl HL HLl Hne Hb) as (xd & yd & Hc & Hxl & Hyl).
    cbn [map train_batches]. rewrite Hc.
    destruct (train_step_ready nb (length b) xd yd Hr Hxl Hyl)
      as (l & nb1 & Hstep & Hr1 & Hf1 & Hl1 & Hg1 & Ho1).
    rewrite Hstep. cbn [and_then snd].
    destruct (IH nb1 Hr1) as (nb' & Hrun & Hr' & Hf' & Hl' & Hg' & Ho').
    exists nb'. split; [exact Hrun|]. split; [exact Hr'|].
    repeat split; congruence.
Qed.

Lemma epoch_loss_run (nb : notebook) (N : nat) (w0 w1 b0 : Q) :
  params nb = [Tensor [1; 2] [w0; w1]; Tensor [1] [b0]] ->
  shape (features nb) = [N; 2] -> shape (labels nb) = [N; 1] ->
  exists l : variable,
    epoch_loss nb = Ok l /\
    value l = Tensor [] [sum_squared_error w0 w1 b0
                           (chunks N 2 (data (features nb))) (data (labels nb))].
Proof.
  intros Hp HF HL. unfold epoch_loss.
  destruct (features nb) as [sf fd] eqn:EF. destruct (labels nb) as [sl ld] eqn:EL.
  cbn [shape data] in *. subst sf sl.
  rewrite (forward_batch nb N w0 w1 b0 fd Hp). cbn [and_then].
  unfold loss, mse_loss_sum. cbn [value constant shape].
  destruct (list_eq_dec Nat.eq_dec [N; 1] [N; 1]) as [_|ne]; [|contradiction].
  eexists. split; reflexivity.
Qed.

Lemma complete_pass_indices (N bs : nat) (idx : list (list nat)) :
  complete_pass N bs idx ->
  Forall (fun b => b <> [] /\ Forall (fun i => i < N) b) idx.
Proof.
  intros [Hperm Hall]. apply Forall_forall. intros b Hb.
  split; [exact (proj1 (proj1 (Forall_forall _ _) Hall b Hb))|].
  apply Forall_forall. intros i Hi.
  assert (Hin : In i (concat idx)) by (apply in_concat; exists b; split; assumption).
  apply (Permutation_in _ Hperm) in Hin. apply in_seq in Hin. lia.
Qed.

Lemma batches_run (F L : tensor) (N : nat) (bs : Z) (g : generator) :
  shape F = [N; 2] -> (0 < bs)%Z ->
  exists idx : list (list nat),
    batches {| dataset := {| tensors := [F; L] |}; batch_size := bs; shuffle := true |} g
      = Ok (map (collate {| tensors := [F; L] |}) idx, advance g N) /\
    complete_pass N (Z.to_nat bs) idx.
Proof.
  intros HF Hbs. unfold batches, len, shape0. cbn [dataset tensors shuffle Data.batch_size].
  rewrite HF. cbn [and_then]. unfold randperm.
  eexists. split; [reflexivity|]. split.
  - rewrite batch_sampler_concat. cbn [app].
    apply pick_permutation. rewrite length_map, !length_seq. reflexivity.
  - apply Forall_forall. intros b Hb. split.
    + exact (proj1 (Forall_forall _ _) (batch_sampler_nonempty _ _ _) b Hb).
    + refine (proj1 (Forall_forall _ _) (batch_sampler_size _ _ _ _) b Hb).
      cbn [length]. lia.
Qed.

(** One epoch: a complete pass, during which nothing is printed, then the
    loss of the trained model on the whole data set, then its line. *)
Lemma train_epoch_run (repr : Q -> String.string) (N : nat) (bs : Z) (epoch : nat)
      (nb : notebook) :
  ready nb ->
  shape (features nb) = [N; 2] -> length (data (features nb)) = N * 2 ->
  shape (labels nb) = [N; 1] -> length (data (labels nb)) = N ->
  (0 < bs)%Z ->
  let ds := {| tensors := [features nb; labels nb] |} in
  exists (idx : list (list nat)) (trained : notebook) (l_epoch : variable) (w0 w1 b0 : Q),
    complete_pass N (Z.to_nat bs) idx /\
    train_batches (map (collate ds) idx) (with_rng nb (advance (rng nb) N)) = Ok trained /\
    ready trained /\
    features trained = features nb /\ labels trained = labels nb /\
    stdout trained = stdout nb /\
    params trained = [Tensor [1; 2] [w0; w1]; Tensor [1] [b0]] /\
    epoch_loss trained = Ok l_epoch /\
    value l_epoch = Tensor [] [sum_squared_error w0 w1 b0
                                 (chunks N 2 (data (features nb))) (data (labels nb))] /\
    train_epoch repr {| dataset := ds; batch_size := bs; shuffle := true |} epoch nb
      = Ok (print (epoch_line repr epoch l_epoch) trained).
Proof.
  intros Hr HF HFl HL HLl Hbs ds.
  destruct (batches_run (features nb) (labels nb) N bs (rng nb) HF Hbs) as (idx & Hb & Hpass).
  assert (Hr0 : ready (with_rng nb (advance (rng nb) N))) by exact Hr.
  destruct (train_batches_run (features nb) (labels nb) N idx HF HFl HL HLl
              (complete_pass_indices _ _ _ Hpass) _ Hr0)
    as (trained & Hrun & Hr' & Hf' & Hl' & Hg' & Ho').
  cbn [with_rng features labels rng stdout] in Hf', Hl', Hg', Ho'.
  destruct Hr' as [(w0 & w1 & b0 & Hp) Hgr].
  destruct (epoch_loss_run trained N w0 w1 b0 Hp) as (l & Hloss & Hval);
    [rewrite Hf'; exact HF|rewrite Hl'; exact HL|].
  rewrite Hf', Hl' in Hval.
  exists idx, trained, l, w0, w1, b0.
  repeat (split; [first [assumption | split; [eexists _, _, _; eassumption|assumption]]|]).
  unfold train_epoch. fold ds. subst ds. rewrite Hb. cbn [and_then fst snd].
  rewrite Hrun. cbn [and_then]. rewrite Hloss. reflexivity.
Qed.

Lemma load_array_ok (nb : notebook) (N d1 d2 : nat) (data_arrays : list tensor) (bs : Z)
      (is_train : bool) :
  shape (features nb) = [N; d1] -> shape (labels nb) = [N; d2] ->
  0 < N -> (0 < bs)%Z ->
  load_array nb data_arrays bs is_train
    = Ok {| dataset := {| tensors := [features nb; labels nb] |};
            batch_size := bs; shuffle := true |}.
Proof.
  intros HF HL HN Hbs. unfold load_array, TensorDataset_init, shape0. cbn [same_size0].
  unfold shape0. rewrite HF, HL. cbn [and_then]. rewrite Nat.eqb_refl. cbn [and_then].
  unfold DataLoader_init, RandomSampler_init, len, shape0. cbn [tensors]. rewrite HF.
  cbn [and_then].
  destruct (N =? 0) eqn:EN; [apply Nat.eqb_eq in EN; lia|]. cbn [and_then].
  destruct (bs <=? 0)%Z eqn:E; [apply Z.leb_le in E; lia|reflexivity].
Qed.

(** An epoch whose line [print] builds as [label] followed by the loss. *)
Lemma epoch_run_exists (repr : Q -> String.string) (N : nat) (bs : Z) (epoch : nat)
      (label : String.string) (nb : notebook) :
  (forall text, Python.epoch_loss_line (epoch + 1) text = String.append label text) ->
  ready nb ->
  shape (features nb) = [N; 2] -> length (data (features nb)) = N * 2 ->
  shape (labels nb) = [N; 1] -> length (data (labels nb)) = N ->
  (0 < bs)%Z ->
  exists nb' : notebook,
    epoch_run repr N bs label nb nb' /\
    train_epoch repr {| dataset := {| tensors := [features nb; labels nb] |};
                        batch_size := bs; shuffle := true |} epoch nb = Ok nb' /\
    ready nb' /\ features nb' = features nb /\ labels nb' = labels nb /\
    exists text : String.string,
      stdout nb' = stdout nb ++ [String.append label text].
Proof.
  intros Hlabel Hr HF HFl HL HLl Hbs.
  destruct (train_epoch_run repr N bs epoch nb Hr HF HFl HL HLl Hbs)
    as (idx & trained & l & w0 & w1 & b0 & Hpass & Hrun & Hr' & Hf' & Hl' & Ho' & Hp & Hloss
        & Hval & Hepoch).
  unfold epoch_line in Hepoch. rewrite Hlabel in Hepoch.
  eexists. split; [|split; [exact Hepoch|]].
  - exists idx, trained, l, w0, w1, b0. split; [exact Hpass|]. repeat split; assumption.
  - cbn [print features labels stdout]. split; [exact Hr'|].
    split; [exact Hf'|]. split; [exact Hl'|].
    eexists. rewrite Ho'. reflexivity.
Qed.

Import String.
Import List.


Example train_step_on_example :
  exists l nb',
    train_step example_X example_y example_notebook = Ok (l, nb') /\
    value l = Tensor [] [5]%Q /\
    grad nb' = [Some (Tensor [1; 2] [-2; -4]%Q); Some (Tensor [1] [-6]%Q)] /\
    Forall2 (fun p q => Forall2 Qeq (data p) q) (params nb')
            [[6 # 100; 12 # 100]; [18 # 100]]%Q.
Proof.
  eexists _, _. split; [vm_compute; reflexivity|]. cbn [value grad params].
  split; [reflexivity|]. split; [reflexivity|].
  repeat constructor.
Qed.

Lemma train_step_is_one_sgd_update_witness :
  let nb := example_notebook in
  let w0 := 0%Q in
  let w1 := 0%Q in
  let b0 := 0%Q in
  let rows := chunks 2 2 (data example_X) in
  let ys := data example_y in
  exists (l : variable) (nb' : notebook) (w0' w1' b0' gw0 gw1 gb : Q) (sw sb : list nat),
    train_step example_X example_y nb = Ok (l, nb') /\
    value l = Tensor [] [sum_squared_error w0 w1 b0 rows ys] /\
    grad nb' = [Some (Tensor sw [gw0; gw1]); Some (Tensor sb [gb])] /\
    (gw0 == dl_dw 0 w0 w1 b0 rows ys)%Q /\
    (gw1 == dl_dw 1 w0 w1 b0 rows ys)%Q /\
    (gb == dl_db w0 w1 b0 rows ys)%Q /\
    params nb' = [Tensor [1; 2] [w0'; w1']; Tensor [1] [b0']] /\
    (w0' == w0 - (3 # 100) * dl_dw 0 w0 w1 b0 rows ys)%Q /\
    (w1' == w1 - (3 # 100) * dl_dw 1 w0 w1 b0 rows ys)%Q /\
    (b0' == b0 - (3 # 100) * dl_db w0 w1 b0 rows ys)%Q /\
    features nb' = features nb /\ labels nb' = labels nb /\
    rng nb' = rng nb /\ stdout nb' = stdout nb /\
    (forall h0 h1 hb t : Q,
       sum_squared_error (w0 + t * h0) (w1 + t * h1) (b0 + t * hb) rows ys
       == sum_squared_error w0 w1 b0 rows ys
          + t * (dl_dw 0 w0 w1 b0 rows ys * h0 + dl_dw 1 w0 w1 b0 rows ys * h1
                 + dl_db w0 w1 b0 rows ys * hb)
          + t * t * Qsum (map (fun row => (hb + dot row [h0; h1]) * (hb + dot row [h0; h1]))
                            rows))%Q.
Proof.
  apply (train_step_is_one_sgd_update example_notebook example_X example_y 2
           0%Q 0%Q 0%Q None None); reflexivity || exact I.
Defined.

Lemma example_notebook_ready : ready example_notebook.
Proof.
  split.
  - exists 0%Q, 0%Q, 0%Q. reflexivity.
  - exists None, None. repeat split.
Defined.


End TrainingFacts.

Module TensorFFacts.
Import Torch TorchFacts AutomaticDifferentiation AutomaticDifferentiationSpec
       AutomaticDifferentiationFacts ControlFlowSpec.

Lemma pow4_S (k : nat) : 4 ^ Z.of_nat (S k) == 4 * 4 ^ Z.of_nat k.
Proof.
  rewrite Nat2Z.inj_succ. unfold Z.succ.
  rewrite Qpower_plus by discriminate. simpl. ring.
Qed.

Lemma pow4_pow2 (k : nat) : 4 ^ Z.of_nat k == 2 ^ Z.of_nat k * 2 ^ Z.of_nat k.
Proof.
  induction k as [|k IH]; [reflexivity|]. rewrite pow4_S, pow2_S, IH. ring.
Qed.

Lemma Qsum_nonneg_squares (l : list Q) : 0 <= Qsum (map (fun x => x * x) l).
Proof.
  unfold Qsum. induction l as [|x l IH]; simpl; [apply Qle_refl|]. nra.
Qed.

Lemma norm_sq_nonneg (b : tensor) : 0 <= norm_sq b.
Proof. apply Qsum_nonneg_squares. Qed.

Lemma norm_sq_double (b : tensor) : norm_sq (mul_scalar b 2) == 4 * norm_sq b.
Proof.
  unfold norm_sq, mul_scalar, Qsum. cbn [data].
  induction (data b) as [|x l IH]; simpl; [ring|]. rewrite IH. ring.
Qed.

Lemma norm_lt_iff (b : tensor) (c : Q) : norm_lt b c = true <-> norm_sq b < c * c.
Proof.
  unfold norm_lt. destruct (Qlt_le_dec (norm_sq b) (c * c)) as [H|H]; split; intros H';
    try reflexivity; try discriminate; try exact H. lra.
Qed.

Lemma norm_sq_pos_iff (l : list Q) :
  0 < Qsum (map (fun x => x * x) l) <-> Exists (fun x => ~ x == 0) l.
Proof.
  induction l as [|x l IH]; simpl.
  - split; [intros H; lra|intros H; inversion H].
  - pose proof (Qsum_nonneg_squares l) as Hl. split.
    + intros H. destruct (Qeq_dec x 0) as [E|E].
      * right. apply IH. rewrite E in H. lra.
      * left. exact E.
    + intros H. inversion H as [? ? Hx|? ? Hx]; subst.
      * assert (0 < x * x) by (destruct (Q_dec x 0) as [[?|?]|?]; [nra|nra|contradiction]). lra.
      * apply IH in Hx. nra.
Qed.

Lemma f_while_reaches (n : nat) :
  forall b, 1000 * 1000 <= norm_sq b * 4 ^ Z.of_nat n ->
    exists c, f_while (S n) b = Some c.
Proof.
  induction n as [|n IH]; intros b H.
  - cbn [f_while]. destruct (norm_lt b 1000) eqn:E; [|eexists; reflexivity].
    apply norm_lt_iff in E. simpl in H. lra.
  - change (f_while (S (S n)) b)
      with (if norm_lt b 1000 then f_while (S n) (mul_scalar b 2) else Some b).
    destruct (norm_lt b 1000); [|eexists; reflexivity].
    apply IH. rewrite norm_sq_double. rewrite pow4_S in H. lra.
Qed.

Lemma f_while_never (fuel : nat) :
  forall b, norm_sq b == 0 -> f_while fuel b = None.
Proof.
  induction fuel as [|fuel IH]; intros b Hb; [reflexivity|].
  cbn [f_while]. assert (E : norm_lt b 1000 = true).
  { apply norm_lt_iff. rewrite Hb. reflexivity. }
  rewrite E. apply IH. rewrite norm_sq_double, Hb. reflexivity.
Qed.

(** X2.  [f] on a [float32] tensor of any shape, with any finite elements,
    returns exactly when some element of the tensor is not zero: on a tensor
    of zeros, and on a tensor without elements, the norm stays 0 and the
    loop never ends. *)
Theorem f_returns_iff_some_element_nonzero (a : tensor) :
  ((exists (fuel : nat) (r : tensor), f fuel a = Some r)
   <-> Exists (fun x => ~ x == 0) (data a)) /\
  (Forall (fun x => x == 0) (data a) -> forall fuel, f fuel a = None).
Proof.
  assert (Hzero : norm_sq a == 0 -> forall fuel, f fuel a = None).
  { intros H fuel. unfold f. rewrite f_while_never; [reflexivity|].
    rewrite norm_sq_double, H. reflexivity. }
  split; [split|].
  - intros (fuel & r & H). apply norm_sq_pos_iff. fold (norm_sq a).
    pose proof (norm_sq_nonneg a) as Hn.
    destruct (Qeq_dec (norm_sq a) 0) as [E|E]; [|lra].
    rewrite (Hzero E) in H. discriminate.
  - intros H. apply norm_sq_pos_iff in H. fold (norm_sq a) in H.
    assert (Hx : 0 < norm_sq (mul_scalar a 2) / 1000000).
    { rewrite norm_sq_double. apply Qlt_shift_div_l; lra. }
    destruct (doubling_reaches_1000 _ Hx) as [n Hn].
    destruct (f_while_reaches n (mul_scalar a 2)) as [c Hc].
    { rewrite pow4_pow2. pose proof (pow2_ge_1 n) as H1. pose proof (pow2_pos n) as H2.
      set (p := 2 ^ Z.of_nat n) in *. set (q := norm_sq (mul_scalar a 2)) in *.
      assert (Hq : 0 <= q) by apply norm_sq_nonneg.
      assert (1000 * 1000000 <= q * p).
      { apply Qmult_le_r with (z := / 1000000); [reflexivity|].
        setoid_replace (q * p * / 1000000) with (q / 1000000 * p) by (field).
        setoid_replace (1000 * 1000000 * / 1000000) with 1000 by (field). exact Hn. }
      nra. }
    exists (S n). unfold f. rewrite Hc.
    destruct (Qpositive (sum c)); eexists; reflexivity.
  - intros H fuel. apply Hzero.
    pose proof (norm_sq_nonneg a) as Hn.
    destruct (Qeq_dec (norm_sq a) 0) as [E|E]; [exact E|].
    assert (Hp : 0 < norm_sq a) by lra.
    apply norm_sq_pos_iff in Hp. exfalso.
    apply Exists_exists in Hp. destruct Hp as (x & Hin & Hx).
    rewrite Forall_forall in H. exact (Hx (H x Hin)).
Qed.

End TensorFFacts.

Module ControlFlowFacts.
Import Torch TorchFacts Autograd AutomaticDifferentiation AutomaticDifferentiationSpec
       AutomaticDifferentiationFacts ControlFlow ControlFlowSpec.

Lemma doubled_succ_r k b : doubled (S k) b = doubled k (mul b 2).
Proof. unfold doubled. apply Nat.iter_succ_r. Qed.

(** Recording the products changes neither the values nor the number of
    doublings. *)
Lemma f_while_value (fuel : nat) :
  forall b, option_map value (ControlFlow.f_while fuel b)
            = AutomaticDifferentiation.f_while fuel (value b).
Proof.
  induction fuel as [|fuel IH]; intros b; [reflexivity|].
  cbn [ControlFlow.f_while AutomaticDifferentiation.f_while].
  destruct (norm_lt (value b) 1000); [|reflexivity].
  rewrite IH. reflexivity.
Qed.

Lemma f_value (fuel : nat) (a : variable) :
  option_map value (ControlFlow.f fuel a) = AutomaticDifferentiation.f fuel (value a).
Proof.
  unfold ControlFlow.f, AutomaticDifferentiation.f.
  pose proof (f_while_value fuel (mul a 2)) as H.
  change (value (mul a 2)) with (mul_scalar (value a) 2) in H. rewrite <- H.
  destruct (ControlFlow.f_while fuel (mul a 2)) as [b|]; [|reflexivity].
  cbn [option_map]. destruct (Qpositive (sum (value b))); reflexivity.
Qed.

Lemma f_while_doubled (fuel : nat) :
  forall b c, ControlFlow.f_while fuel b = Some c ->
    exists j, c = doubled j b /\
      AutomaticDifferentiation.f_while j (value b) = None /\
      AutomaticDifferentiation.f_while (S j) (value b) = Some (value c).
Proof.
  induction fuel as [|fuel IH]; intros b c H; [discriminate|].
  cbn [ControlFlow.f_while] in H.
  destruct (norm_lt (value b) 1000) eqn:E.
  - destruct (IH _ _ H) as (j & Hc & Hn & Hs).
    exists (S j). rewrite doubled_succ_r. split; [exact Hc|].
    change (value (mul b 2)) with (mul_scalar (value b) 2) in Hn, Hs.
    split.
    + cbn [AutomaticDifferentiation.f_while]. rewrite E. exact Hn.
    + change (AutomaticDifferentiation.f_while (S (S j)) (value b))
        with (if norm_lt (value b) 1000
              then AutomaticDifferentiation.f_while (S j) (mul_scalar (value b) 2)
              else Some (value b)).
      rewrite E. exact Hs.
  - injection H as <-. exists 0%nat. split; [reflexivity|]. split; [reflexivity|].
    cbn [AutomaticDifferentiation.f_while]. rewrite E. reflexivity.
Qed.

Lemma edge_mul (b : variable) (c : Q) (n : node) :
  edge b = Some n -> edge (mul b c) = Some (MulBackward0 c (Some n)).
Proof.
  intros H. unfold mul, recorded, edge at 1. cbn [grad_fn existsb].
  unfold requires_grad. rewrite H. reflexivity.
Qed.

Lemma edge_rmul (c : Q) (b : variable) (n : node) :
  edge b = Some n -> edge (rmul c b) = Some (MulBackward0 c (Some n)).
Proof.
  intros H. unfold rmul, recorded, edge at 1. cbn [grad_fn existsb].
  unfold requires_grad. rewrite H. reflexivity.
Qed.

Lemma edge_doubled (k : nat) (b : variable) (n : node) :
  edge b = Some n -> edge (doubled k b) = Some (doublings k n).
Proof.
  intros H. induction k as [|k IH]; [exact H|].
  unfold doubled, doublings. cbn [Nat.iter]. apply edge_mul. exact IH.
Qed.

Lemma backprop_doublings (k : nat) (n : node) :
  forall g, backprop (doublings k n) g
            = backprop n (Nat.iter k (fun t => mul_scalar t 2) g).
Proof.
  induction k as [|k IH]; intros g; [reflexivity|].
  change (doublings (S k) n) with (MulBackward0 2 (Some (doublings k n))).
  cbn [backprop]. rewrite IH, Nat.iter_succ_r. reflexivity.
Qed.

Lemma double_iter (k : nat) (g : tensor) :
  mul_scalar (Nat.iter k (fun t => mul_scalar t 2) g) 2
  = Nat.iter k (fun t => mul_scalar t 2) (mul_scalar g 2).
Proof.
  induction k as [|k IH]; [reflexivity|]. rewrite !Nat.iter_succ, IH. reflexivity.
Qed.

Lemma iter_double_scalar (k : nat) (s : list nat) (q : Q) :
  exists q', Nat.iter k (fun t => mul_scalar t 2) (Tensor s [q]) = Tensor s [q'] /\
             q' == q * 2 ^ Z.of_nat k.
Proof.
  induction k as [|k (q' & E & Hq)].
  - exists q. split; [reflexivity|]. simpl. ring.
  - exists (q' * 2). rewrite Nat.iter_succ, E. split; [reflexivity|].
    rewrite Hq, pow2_S. ring.
Qed.

(** X4.  The cells that differentiate [f]: for a drawn [a] of magnitude
    [2^-100] or more, and fuel for the doublings of the loop, [d.backward()]
    stores in [a.grad] the slope of [f] at [a], [2^(k+1)] for a positive [a]
    and [100 * 2^(k+1)] for a negative one, where [k] is the number of
    doublings of the loop.  (For such an [a] the slope is a [float32] number
    and the products of the backward pass are exact.)  The recorded [f]
    returns the value the plain [f] returns. *)
Theorem gradient_of_f_is_the_slope (g : generator) (a0 : Q) :
  normal_tensor g 0 1 [1%nat] = Tensor [1%nat] [a0] ->
  2 ^ (-100) <= Qabs a0 ->
  exists k : nat,
    least_doublings (a0 * 2) k /\
    (k <= 110)%nat /\
    (forall fuel, (fuel <= k)%nat -> gradient_of_f fuel g = None) /\
    (forall fuel, (k < fuel)%nat ->
       exists (a d : variable) (gs : grads) (slope : Q),
         gradient_of_f fuel g = Some (Ok (a, d, gs)) /\
         value a = Tensor [1%nat] [a0] /\
         AutomaticDifferentiation.f fuel (value a) = Some (value d) /\
         gs = [Some (Tensor [1%nat] [slope])] /\
         (0 < a0 -> slope == 2 ^ Z.of_nat (k + 1)) /\
         (a0 < 0 -> slope == 100 * 2 ^ Z.of_nat (k + 1))).
Proof.
  intros Hdraw Hbig.
  assert (Hsmall : 0 < (2:Q) ^ (-100)) by reflexivity.
  assert (Ha : ~ a0 == 0).
  { intros E. rewrite E in Hbig. change (Qabs 0) with 0 in Hbig. lra. }
  assert (Hpos : 0 < Qabs (a0 * 2)).
  { apply Qabs_case; intros H; lra. }
  destruct (doubling_reaches_1000 _ Hpos) as [n Hn].
  destruct (f_while_exits [1%nat] n (a0 * 2) Hn) as (k & c & Hk & Hc & Hsome & Hnone).
  exists k. split; [exact Hk|].
  split.
  { destruct (Nat.le_gt_cases k 110) as [Hle|Hgt]; [exact Hle|exfalso].
    destruct Hk as [_ Hleast]. specialize (Hleast 110%nat Hgt).
    rewrite Qabs_Qmult in Hleast. change (Qabs 2) with 2 in Hleast.
    assert (H110 : (2:Q) ^ Z.of_nat 110 == 1024 * 2 ^ 100) by reflexivity.
    assert (H100 : (2:Q) ^ (-100) * 2 ^ 100 == 1) by reflexivity.
    rewrite H110 in Hleast.
    set (x := Qabs a0) in *. set (p := (2:Q) ^ 100) in *. set (q := (2:Q) ^ (-100)) in *.
    assert (Hp : 0 < p) by reflexivity. nra. }
  set (a := requires_grad_leaf 0 (normal_tensor g 0 1 [1%nat])).
  assert (Hva : value a = Tensor [1%nat] [a0]) by exact Hdraw.
  assert (Hvb : value (mul a 2) = scalar [1%nat] (a0 * 2)).
  { change (value (mul a 2)) with (mul_scalar (value a) 2). rewrite Hva. reflexivity. }
  assert (Heb : edge (mul a 2) = Some (MulBackward0 2 (Some (AccumulateGrad 0))))
    by reflexivity.
  split.
  - intros fuel Hf. unfold gradient_of_f. fold a.
    pose proof (f_value fuel a) as Hv. unfold AutomaticDifferentiation.f in Hv.
    rewrite Hva in Hv.
    change (mul_scalar (Tensor [1%nat] [a0]) 2) with (scalar [1%nat] (a0 * 2)) in Hv.
    rewrite (Hnone fuel Hf) in Hv.
    destruct (ControlFlow.f fuel a); [discriminate|reflexivity].
  - intros fuel Hf. unfold gradient_of_f. fold a.
    pose proof (f_value fuel a) as Hv.
    unfold ControlFlow.f in *.
    pose proof (f_while_value fuel (mul a 2)) as Hw. rewrite Hvb, (Hsome fuel Hf) in Hw.
    destruct (ControlFlow.f_while fuel (mul a 2)) as [b|] eqn:Eb; [|discriminate].
    cbn [option_map] in Hw. injection Hw as Hw.
    destruct (f_while_doubled fuel _ _ Eb) as (j & Hbj & Hnj & Hsj).
    rewrite Hvb in Hnj, Hsj.
    assert (Hjk : j = k).
    { destruct (Nat.lt_trichotomy j k) as [H|[H|H]]; [|exact H|].
      - rewrite (Hnone (S j)) in Hsj by lia. discriminate.
      - rewrite (Hsome j H) in Hnj. discriminate. }
    subst j.
    assert (Hedge : edge b = Some (doublings k (MulBackward0 2 (Some (AccumulateGrad 0))))).
    { rewrite Hbj. apply edge_doubled. exact Heb. }
    assert (Hc' : c == 2 ^ Z.of_nat (k + 1) * a0).
    { rewrite Hc. replace (k + 1)%nat with (S k) by lia. rewrite pow2_S. ring. }
    pose proof (pow2_pos (k + 1)) as Hp.
    rewrite Hw in *. unfold Qpositive, sum, Qsum in *. cbn [scalar data fold_right] in *.
    destruct (Qlt_le_dec 0 (c + 0)) as [Hs|Hs].
    + destruct (iter_double_scalar k [1%nat] (1 * 2)) as (s1 & Hi & Hs1).
      exists a, b, [Some (Tensor [1%nat] [s1])], s1.
      assert (Hback : backward b [None] = Ok [Some (Tensor [1%nat] [s1])]).
      { unfold backward. rewrite Hedge, Hw. cbn [shape scalar numel fold_right Nat.mul Nat.eqb].
        rewrite backprop_doublings. cbn [backprop ones numel fold_right Nat.mul repeat].
        rewrite double_iter.
        change (mul_scalar (ones [1%nat]) 2) with (Tensor [1%nat] [1 * 2]).
        rewrite Hi. reflexivity. }
      rewrite Hback. cbn [and_then].
      split; [reflexivity|]. split; [exact Hva|]. split; [symmetry; exact Hv|].
      split; [reflexivity|].
      assert (Hslope : s1 == 2 ^ Z.of_nat (k + 1)).
      { rewrite Hs1. replace (k + 1)%nat with (S k) by lia. rewrite pow2_S. ring. }
      split; [intros _; exact Hslope|].
      intros Hneg. exfalso. assert (2 ^ Z.of_nat (k + 1) * a0 < 0) by nra. lra.
    + destruct (iter_double_scalar k [1%nat] (1 * 100 * 2)) as (s1 & Hi & Hs1).
      exists a, (rmul 100 b), [Some (Tensor [1%nat] [s1])], s1.
      assert (Hback : backward (rmul 100 b) [None] = Ok [Some (Tensor [1%nat] [s1])]).
      { unfold backward. rewrite (edge_rmul 100 b _ Hedge).
        change (value (rmul 100 b)) with (rmul_scalar 100 (value b)). rewrite Hw.
        cbn [shape scalar rmul_scalar numel fold_right Nat.mul Nat.eqb].
        cbn [backprop]. rewrite backprop_doublings. cbn [backprop ones numel fold_right Nat.mul repeat].
        rewrite double_iter.
        change (mul_scalar (mul_scalar (ones [1%nat]) 100) 2)
          with (Tensor [1%nat] [1 * 100 * 2]).
        rewrite Hi. reflexivity. }
      rewrite Hback. cbn [and_then].
      split; [reflexivity|]. split; [exact Hva|]. split; [symmetry; exact Hv|].
      split; [reflexivity|].
      assert (Hslope : s1 == 100 * 2 ^ Z.of_nat (k + 1)).
      { rewrite Hs1. replace (k + 1)%nat with (S k) by lia. rewrite pow2_S. ring. }
      split.
      * intros Hgt. exfalso. assert (0 < 2 ^ Z.of_nat (k + 1) * a0) by nra. lra.
      * intros _. exact Hslope.
Qed.

Lemma gradient_of_f_is_the_slope_witness :
  exists k : nat,
    least_doublings (-(7 # 10) * 2) k /\
    (k <= 110)%nat /\
    (forall fuel, (fuel <= k)%nat ->
       gradient_of_f fuel (Generator (fun _ => -(7 # 10)) (fun _ => 0%nat) 0) = None) /\
    (forall fuel, (k < fuel)%nat ->
       exists (a d : variable) (gs : grads) (slope : Q),
         gradient_of_f fuel (Generator (fun _ => -(7 # 10)) (fun _ => 0%nat) 0)
           = Some (Ok (a, d, gs)) /\
         value a = Tensor [1%nat] [-(7 # 10)] /\
         AutomaticDifferentiation.f fuel (value a) = Some (value d) /\
         gs = [Some (Tensor [1%nat] [slope])] /\
         (0 < -(7 # 10) -> slope == 2 ^ Z.of_nat (k + 1)) /\
         (-(7 # 10) < 0 -> slope == 100 * 2 ^ Z.of_nat (k + 1))).
Proof.
  apply (gradient_of_f_is_the_slope (Generator (fun _ => -(7 # 10)) (fun _ => 0%nat) 0)
           (-(7 # 10))).
  - reflexivity.
  - vm_compute. discriminate.
Defined.

End ControlFlowFacts.

Module SimpleExampleFacts.
Import Torch TorchFacts Autograd AutomaticDifferentiation.
Local Open Scope nat_scope.

(** X5.  The cells of the simple example run without an exception exactly on a
    column: [torch.mm] refuses a tensor that is not a matrix, [x.t()] one
    with more than two dimensions, and [y.backward()], called without a
    gradient, a [y] that is not a single number, which [2 x^T x] is only
    when [x] has one column. *)
Theorem differentiate_needs_a_column (x0 : tensor) :
  ((exists r, differentiate x0 = Ok r) <-> (exists n, shape x0 = [n; 1])) /\
  ((forall n, shape x0 <> [n; 1]) -> differentiate x0 = Raise RuntimeError).
Proof.
  destruct x0 as [s d].
  assert (H : (exists n, s = [n; 1]) /\ (exists r, differentiate (Tensor s d) = Ok r)
              \/ (forall n, s <> [n; 1]) /\ differentiate (Tensor s d) = Raise RuntimeError).
  { destruct s as [|n [|m [|p s]]].
    - right. split; [intros n H; discriminate|reflexivity].
    - right. split; [intros n' H; discriminate|reflexivity].
    - unfold differentiate, t, Autograd.mm, backward.
      cbn -[transpose2 mm2 Qmult Qplus Nat.mul]. rewrite Nat.eqb_refl.
      cbn -[transpose2 mm2 Qmult Qplus Nat.mul].
      destruct (Nat.eq_dec m 1) as [->|Hm].
      + left. split; [exists n; reflexivity|]. cbn -[transpose2 mm2 Qmult Qplus].
        eexists. reflexivity.
      + right. split; [intros n' H; injection H as _ H; contradiction|].
        assert (E : (m * (m * 1) =? 1) = false) by (apply Nat.eqb_neq; nia).
        rewrite E. reflexivity.
    - right. split; [intros n' H; discriminate|reflexivity]. }
  cbn [shape]. split; [split|].
  - intros Hr. destruct H as [[Hs _]|[_ Hd]]; [exact Hs|].
    destruct Hr as [r Hr]. rewrite Hd in Hr. discriminate.
  - intros (n & Hn). destruct H as [[_ Hr]|[Hs _]]; [exact Hr|].
    exfalso. exact (Hs n Hn).
  - intros Hs. destruct H as [[(n & Hn) _]|[_ Hd]]; [|exact Hd].
    exfalso. exact (Hs n Hn).
Qed.

End SimpleExampleFacts.

Module HeadGradientsFacts.
Import Torch TorchFacts Autograd HeadGradients.

Lemma head_gradient_data (xs hs : list Q) :
  Forall2 Qeq
    (zip_with Qplus (map (fun v => v * 2) (zip_with Qmult hs xs))
                    (zip_with Qmult hs (map (fun v => v * 2) xs)))
    (zip_with (fun x h => 4 * x * h) xs hs).
Proof.
  revert hs. induction xs as [|x xs IH]; intros [|h hs]; simpl; constructor.
  - ring.
  - apply IH.
Qed.

(** X6.  With a head gradient [h] of the shape of [x], [z.backward(h)] for
    [z = (x * 2) * x] stores [4 x h], element by element; a head gradient of
    another shape is refused. *)
Theorem head_gradient_scales_the_gradient (s : list nat) (xs : list Q) (head : tensor) :
  (shape head = s ->
   exists g : list Q,
     head_gradients (Tensor s xs) head
       = Ok (requires_grad_leaf 0 (Tensor s xs), [Some (Tensor s g)]) /\
     Forall2 Qeq g (zip_with (fun x h => 4 * x * h) xs (data head))) /\
  (shape head <> s -> head_gradients (Tensor s xs) head = Raise RuntimeError).
Proof.
  unfold head_gradients, backward_product.
  cbn [self other requires_grad edge grad_fn leaf requires_grad_leaf option_map
         ControlFlow.mul recorded existsb orb negb product_value mul_tensors value shape
         mul_scalar].
  split; intros Hs.
  - destruct (list_eq_dec Nat.eq_dec (shape head) s) as [_|ne]; [|contradiction].
    unfold product_backprop.
    cbn [self other edge grad_fn leaf requires_grad_leaf option_map ControlFlow.mul
           recorded existsb orb requires_grad backprop app fold_left fst snd accumulate
           and_then value mul_tensors mul_scalar add shape data].
    unfold add, mul_scalar, mul_tensors. cbn [shape data].
    rewrite Hs. eexists. split; [reflexivity|]. apply head_gradient_data.
  - destruct (list_eq_dec Nat.eq_dec (shape head) s) as [e|_]; [contradiction|reflexivity].
Qed.

Example head_gradients_of_the_notebook :
  exists g,
    head_gradients x_example head_gradient_example
      = Ok (requires_grad_leaf 0 x_example, [Some (Tensor [4%nat; 1%nat] g)]) /\
    Forall2 Qeq g [0; 4; 8 # 10; 12 # 100].
Proof.
  eexists. split; [reflexivity|]. repeat constructor.
Qed.

End HeadGradientsFacts.

(** ** [synthetic_data]: errors, and calls one after the other *)

Module SyntheticDataFacts.
Import Torch TorchFacts Store StoreFacts LinearRegressionData LinearRegressionSpec
       LinearRegressionDataFacts.
Local Open Scope store_scope.
Local Open Scope nat_scope.

(** The run of [synthetic_data] for a weight matrix, with the world it
    leaves. *)
Lemma synthetic_data_matrix_run (w : tensor) (b : Q) (n d m : nat) (w0 : world) :
  shape w = [d; m] ->
  let xw := Tensor [n; m] (mm2 n d m (data (drawn_X w0 n d)) (data w)) in
  synthetic_data w b n w0 =
    Ok ((length (heap w0), length (heap w0) + 2),
        World (heap w0 ++ [drawn_X w0 n d; xw;
                           add (add_scalar xw b) (drawn_noise w0 n d [n; m]);
                           drawn_noise w0 n d [n; m]])
              (advance (advance (gen w0) (numel [n; d])) (numel [n; m]))).
Proof.
  intros Hs xw.
  assert (Hd : shape0 w = Ok d) by (unfold shape0; rewrite Hs; reflexivity).
  assert (Hm : matmul (drawn_X w0 n d) w = Ok xw).
  { unfold matmul. rewrite Hs. cbn [shape drawn_X normal_tensor].
    rewrite Nat.eqb_refl. reflexivity. }
  rewrite synthetic_data_is_body, (synthetic_data_body_run w b n w0 d xw Hd Hm).
  cbn [shape0 xw shape]. rewrite Nat.eqb_refl. reflexivity.
Qed.

(** X7.  Two calls, one after the other, give two data sets that share nothing:
    the four tensors are different objects, the second call leaves [X] and
    [y] of the first as they are, and the normal variates of the second call
    are those that follow the [n * d + n * m] variates of the first. *)
Theorem synthetic_data_calls_are_independent
    (w w' : tensor) (b b' : Q) (n n' d d' m m' : nat) (w0 : world) :
  shape w = [d; m] -> shape w' = [d'; m'] ->
  exists (X1 y1 X2 y2 : ref) (w1 w2 : world),
    synthetic_data w b n w0 = Ok ((X1, y1), w1) /\
    synthetic_data w' b' n' w1 = Ok ((X2, y2), w2) /\
    NoDup [X1; y1; X2; y2] /\
    load_at (heap w2) X1 = load_at (heap w1) X1 /\
    load_at (heap w2) y1 = load_at (heap w1) y1 /\
    load_at (heap w1) X1 = normal_tensor (gen w0) 0 1 [n; d] /\
    load_at (heap w2) X2 = normal_tensor (gen w1) 0 1 [n'; d'] /\
    normal_at (gen w1) = normal_at (gen w0) /\
    position (gen w1) = position (gen w0) + n * d + n * m /\
    position (gen w2) = position (gen w1) + n' * d' + n' * m'.
Proof.
  intros Hs Hs'.
  pose proof (synthetic_data_matrix_run w b n d m w0 Hs) as H1. cbv zeta in H1.
  match type of H1 with _ = Ok (_, ?ww) => set (w1 := ww) in * end.
  pose proof (synthetic_data_matrix_run w' b' n' d' m' w1 Hs') as H2. cbv zeta in H2.
  match type of H2 with _ = Ok (_, ?ww) => set (w2 := ww) in * end.
  exists (length (heap w0)), (length (heap w0) + 2),
         (length (heap w1)), (length (heap w1) + 2), w1, w2.
  assert (Hlen : length (heap w1) = length (heap w0) + 4).
  { subst w1. cbn [heap]. rewrite length_app. reflexivity. }
  split; [exact H1|]. split; [exact H2|]. split.
  { rewrite Hlen. repeat constructor; cbn [In]; intuition lia. }
  split.
  { subst w2. cbn [heap]. apply load_at_app_l. lia. }
  split.
  { subst w2. cbn [heap]. apply load_at_app_l. lia. }
  split.
  { subst w1. cbn [heap]. rewrite load_at_app_0. reflexivity. }
  split.
  { subst w2. cbn [heap]. rewrite load_at_app_0. reflexivity. }
  split; [reflexivity|].
  subst w2 w1. cbn [gen advance position numel fold_right]. split; lia.
Qed.

Lemma synthetic_data_calls_are_independent_witness :
  exists (X1 y1 X2 y2 : ref) (w1 w2 : world),
    synthetic_data true_w true_b 1000 empty_world = Ok ((X1, y1), w1) /\
    synthetic_data true_w true_b 100 w1 = Ok ((X2, y2), w2) /\
    NoDup [X1; y1; X2; y2] /\
    load_at (heap w2) X1 = load_at (heap w1) X1 /\
    load_at (heap w2) y1 = load_at (heap w1) y1 /\
    load_at (heap w1) X1 = normal_tensor (gen empty_world) 0 1 [1000; 2] /\
    load_at (heap w2) X2 = normal_tensor (gen w1) 0 1 [100; 2] /\
    normal_at (gen w1) = normal_at (gen empty_world) /\
    position (gen w1) = position (gen empty_world) + 1000 * 2 + 1000 * 1 /\
    position (gen w2) = position (gen w1) + 100 * 2 + 100 * 1.
Proof.
  apply (synthetic_data_calls_are_independent
           true_w true_w true_b true_b 1000 100 2 2 1 1 empty_world); reflexivity.
Defined.

(** X8.  [synthetic_data] refuses a weight that is neither a vector nor a matrix:
    a weight without dimensions has no [shape[0]], and with three or more
    dimensions [X @ w] is a batched product whose first dimension is that of
    the weight, so that the call raises unless it is [num_examples]. *)
Theorem synthetic_data_refuses_other_weights (w : tensor) (b : Q) (n : nat) (w0 : world) :
  (shape w = [] -> synthetic_data w b n w0 = Raise IndexError) /\
  (forall (d p q : nat) (s : list nat),
     shape w = d :: p :: q :: s -> n <> d ->
     synthetic_data w b n w0 = Raise RuntimeError \/
     synthetic_data w b n w0 = Raise (AssertionError (Python.mismatch_message n d))).
Proof.
  split.
  - intros Hs. unfold synthetic_data, synthetic_data_body, bind at 1, bind at 1, lift at 1.
    unfold shape0. cbn [contents float32_tensor]. rewrite Hs. reflexivity.
  - intros d p q s Hs Hn. exact (synthetic_data_batched_weight w b n w0 d p q s Hs Hn).
Qed.

End SyntheticDataFacts.

(** ** [load_array]: the exceptions of the two constructors *)

Module LoadArrayFacts.
Import Torch Data LinearRegression.
Local Open Scope result_scope.

(** X9.  [load_array] builds the data set before the loader, so a disagreement
    of [features] and [labels] in their first dimension is reported first,
    as the [AssertionError] of [TensorDataset]; with tensors that agree, a
    batch size that is not positive is the [ValueError] of [DataLoader]; and
    a tensor without dimensions has no first dimension to compare. *)
Theorem load_array_raises (nb : notebook) (data_arrays : list tensor) (batch_size : Z)
        (is_train : bool) :
  (forall a b : nat,
     shape0 (features nb) = Ok a -> shape0 (labels nb) = Ok b -> a <> b ->
     load_array nb data_arrays batch_size is_train
       = Raise (AssertionError String.EmptyString)) /\
  (forall a : nat,
     shape0 (features nb) = Ok a -> shape0 (labels nb) = Ok a -> (batch_size <= 0)%Z ->
     load_array nb data_arrays batch_size is_train = Raise ValueError) /\
  (shape (features nb) = [] \/ shape (labels nb) = [] ->
   load_array nb data_arrays batch_size is_train = Raise IndexError).
Proof.
  unfold load_array, TensorDataset_init. cbn [same_size0].
  split; [|split].
  - intros a b Ha Hb Hab. rewrite Ha. cbn [and_then]. rewrite Nat.eqb_refl, Hb.
    cbn [and_then]. apply Nat.eqb_neq in Hab. rewrite Hab. reflexivity.
  - intros a Ha Hb Hbs. rewrite Ha. cbn [and_then]. rewrite Nat.eqb_refl, Hb.
    cbn [and_then]. rewrite Nat.eqb_refl. cbn [and_then].
    unfold DataLoader_init, RandomSampler_init, len. cbn [tensors]. rewrite Ha. cbn [and_then].
    destruct (a =? 0)%nat; [reflexivity|]. cbn [and_then].
    apply Z.leb_le in Hbs. rewrite Hbs. reflexivity.
  - intros [H|H].
    + unfold shape0 at 1. rewrite H. reflexivity.
    + destruct (shape0 (features nb)) as [a|e] eqn:Ea.
      * cbn [and_then]. rewrite Nat.eqb_refl. unfold shape0. rewrite H. reflexivity.
      * unfold shape0 in Ea. destruct (shape (features nb)); [|discriminate].
        injection Ea as <-. reflexivity.
Qed.

End LoadArrayFacts.

(** ** The data iterator: how many batches, and of which sizes *)

Module LoaderFacts.
Import Torch TorchFacts Autograd Data NN LinearRegression LinearRegressionSpec TrainingFacts
       LoaderSpec.
Local Open Scope result_scope.
Local Open Scope nat_scope.

Lemma batch_sampler_lengths (bs : nat) (indices : list nat) :
  forall batch, length batch < bs ->
    map (@length nat) (batch_sampler bs indices batch)
    = batch_sizes bs (length batch + length indices).
Proof.
  unfold batch_sizes.
  induction indices as [|idx indices IH]; intros batch Hb.
  - cbn [batch_sampler length]. rewrite Nat.add_0_r.
    rewrite Nat.div_small, Nat.mod_small by exact Hb.
    destruct batch as [|i batch]; [reflexivity|]. reflexivity.
  - cbn [batch_sampler].
    assert (Hl : length (batch ++ [idx]) = length batch + 1)
      by (rewrite length_app; reflexivity).
    destruct (length (batch ++ [idx]) =? bs) eqn:E.
    + apply Nat.eqb_eq in E. cbn [map]. rewrite (IH [] ltac:(simpl; lia)). cbn [length].
      replace (length batch + S (length indices)) with (1 * bs + length indices) by lia.
      rewrite Nat.div_add_l by lia.
      replace ((1 * bs + length indices) mod bs) with (length indices mod bs)
        by (rewrite Nat.add_comm, Nat.Div0.mod_add; reflexivity).
      rewrite E. reflexivity.
    + apply Nat.eqb_neq in E. rewrite (IH (batch ++ [idx]) ltac:(lia)).
      rewrite Hl. cbn [length]. replace (length batch + 1 + length indices)
        with (length batch + S (length indices)) by lia. reflexivity.
Qed.

Lemma Forall_lt_perm (N : nat) (l : list nat) :
  Permutation l (seq 0 N) -> Forall (fun i => i < N) l.
Proof.
  intros H. apply Forall_forall. intros i Hi.
  apply (Permutation_in _ H) in Hi. apply in_seq in Hi. lia.
Qed.

(** The pass the loader of [load_array] makes, and the batches of indices
    it is made of. *)
Lemma batches_of_loader (F L : tensor) (N : nat) (bs : Z) (g : generator) :
  shape F = [N; 2] ->
  batches {| dataset := {| tensors := [F; L] |}; batch_size := bs; shuffle := true |} g
    = Ok (map (collate {| tensors := [F; L] |})
              (batch_sampler (Z.to_nat bs) (fst (randperm N g)) []),
          advance g N).
Proof.
  intros HF. destruct (randperm_permutation N g) as [_ Hgen].
  unfold batches. cbn [dataset len tensors shuffle batch_size].
  unfold shape0. rewrite HF. cbn [and_then].
  destruct (randperm N g) as [indices g'] eqn:E. cbn [fst snd] in *.
  rewrite Hgen. reflexivity.
Qed.

Lemma sampled_batches (N bs : nat) (g : generator) :
  0 < bs ->
  let idx := batch_sampler bs (fst (randperm N g)) [] in
  map (@length nat) idx = batch_sizes bs N /\
  Permutation (concat idx) (seq 0 N) /\
  Forall (fun b => b <> [] /\ Forall (fun i => i < N) b) idx.
Proof.
  intros Hpos idx. destruct (randperm_permutation N g) as [Hperm _].
  set (indices := fst (randperm N g)) in *.
  assert (Hlen : length indices = N).
  { rewrite (Permutation_length Hperm). apply length_seq. }
  assert (Hcat : concat idx = indices) by apply (batch_sampler_concat bs indices []).
  split; [|split].
  - pose proof (batch_sampler_lengths bs indices [] Hpos) as Hsizes.
    cbn [length] in Hsizes. rewrite Hlen in Hsizes. exact Hsizes.
  - rewrite Hcat. exact Hperm.
  - apply Forall_forall. intros b Hb. split.
    + pose proof (batch_sampler_nonempty bs indices []) as Hne.
      rewrite Forall_forall in Hne. exact (Hne b Hb).
    + apply Forall_forall. intros i Hi.
      pose proof (Forall_lt_perm N indices Hperm) as Hlt. rewrite Forall_forall in Hlt.
      apply Hlt. rewrite <- Hcat. apply in_concat. exists b. split; assumption.
Qed.

Lemma batch_sizes_head (bs N : nat) :
  0 < bs -> 0 < N -> exists rest, batch_sizes bs N = Nat.min bs N :: rest.
Proof.
  intros Hbs HN. unfold batch_sizes.
  destruct (Nat.lt_ge_cases N bs) as [H|H].
  - rewrite Nat.div_small, Nat.mod_small by exact H. cbn [repeat app].
    destruct (N =? 0) eqn:E; [apply Nat.eqb_eq in E; lia|].
    exists []. rewrite Nat.min_r by lia. reflexivity.
  - assert (Hq : 0 < N / bs) by (apply Nat.div_str_pos; lia).
    destruct (N / bs) as [|q]; [lia|]. cbn [repeat app].
    eexists. rewrite Nat.min_l by lia. reflexivity.
Qed.

(** X10.  One pass over the loader of [load_array], for [N > 0] examples, yields
    [N / batch_size] full batches and then, when the batch size does not
    divide [N], one batch of the [N mod batch_size] examples that are left:
    no example is dropped.  Each batch is a pair of tensors with that many
    rows. *)
Theorem loader_batch_sizes (nb : notebook) (N : nat) (data_arrays : list tensor)
        (bs : Z) (is_train : bool) (g : generator) :
  shape (features nb) = [N; 2] -> length (data (features nb)) = N * 2 ->
  shape (labels nb) = [N; 1] -> length (data (labels nb)) = N ->
  0 < N ->
  (0 < bs)%Z ->
  exists (data_iter : DataLoader) (pass : list (list tensor)),
    load_array nb data_arrays bs is_train = Ok data_iter /\
    batches data_iter g = Ok (pass, advance g N) /\
    map (map shape) pass
      = map (fun B => [[B; 2]; [B; 1]]) (batch_sizes (Z.to_nat bs) N) /\
    length pass = (N + Z.to_nat bs - 1) / Z.to_nat bs.
Proof.
  intros HF HFl HL HLl HN Hbs.
  eexists. exists (map (collate {| tensors := [features nb; labels nb] |})
                       (batch_sampler (Z.to_nat bs) (fst (randperm N g)) [])).
  split; [exact (load_array_ok nb N 2 1 data_arrays bs is_train HF HL HN Hbs)|].
  assert (Hpos : 0 < Z.to_nat bs) by lia.
  split; [exact (batches_of_loader _ _ N bs g HF)|].
  destruct (sampled_batches N (Z.to_nat bs) g Hpos) as (Hsizes & _ & Hin).
  split.
  - rewrite <- Hsizes. rewrite !map_map.
    apply map_ext_in. intros b Hb. rewrite Forall_forall in Hin.
    destruct (Hin b Hb) as [Hne Hlt].
    destruct (collate_batch (features nb) (labels nb) N b HF HFl HL HLl Hne Hlt)
      as (xd & yd & Hc & _). rewrite Hc. reflexivity.
  - rewrite length_map, <- (length_map (@length nat)), Hsizes. unfold batch_sizes.
    rewrite length_app, repeat_length.
    pose proof (Nat.div_mod_eq N (Z.to_nat bs)) as Hdm.
    pose proof (Nat.mod_upper_bound N (Z.to_nat bs) ltac:(lia)) as Hmod.
    set (B := Z.to_nat bs) in *. set (q := N / B) in *. set (r := N mod B) in *.
    destruct (r =? 0) eqn:E.
    + apply Nat.eqb_eq in E. cbn [length]. rewrite Nat.add_0_r.
      apply Nat.div_unique with (r := B - 1); lia.
    + apply Nat.eqb_neq in E. cbn [length].
      apply Nat.div_unique with (r := r - 1); lia.
Qed.

Lemma loader_batch_sizes_witness :
  exists (data_iter : DataLoader) (pass : list (list tensor)),
    load_array example_notebook [] 3 true = Ok data_iter /\
    batches data_iter (rng example_notebook) = Ok (pass, advance (rng example_notebook) 4) /\
    map (map shape) pass
      = map (fun B => [[B; 2]; [B; 1]]) (batch_sizes (Z.to_nat 3) 4) /\
    length pass = (4 + Z.to_nat 3 - 1) / Z.to_nat 3.
Proof.
  apply (loader_batch_sizes example_notebook 4 [] 3 true (rng example_notebook));
    reflexivity || lia.
Defined.

End LoaderFacts.

(** ** The loss and the model at their edges *)

Module LossFacts.
Import Torch TorchFacts Autograd Data NN LinearRegression ModelFacts LinearRegressionSpec
       TrainingFacts TensorFFacts.
Local Open Scope result_scope.




Lemma residuals_of_exact_fit (w0 w1 b0 : Q) (rows : list (list Q)) (ys : list Q) :
  Forall2 (fun row label => b0 + dot row [w0; w1] == label) rows ys ->
  Forall (fun r => r == 0) (residuals w0 w1 b0 rows ys).
Proof.
  intros H. unfold residuals, predictions.
  induction H as [|row label rows ys Hfit _ IH]; cbn [map zip_with]; constructor.
  - rewrite Hfit. ring.
  - exact IH.
Qed.

Lemma Qsum_map_zero (f : Q -> Q) (rs : list Q) :
  (forall r, r == 0 -> f r == 0) -> Forall (fun r => r == 0) rs -> Qsum (map f rs) == 0.
Proof.
  intros Hf H. induction H as [|r rs Hr _ IH]; cbn [map]; [reflexivity|].
  rewrite Qsum_cons, IH, (Hf r Hr). ring.
Qed.

Lemma dot_map_zero (f : Q -> Q) (rs : list Q) :
  (forall r, r == 0 -> f r == 0) -> Forall (fun r => r == 0) rs ->
  forall col, dot col (map f rs) == 0.
Proof.
  intros Hf H. induction H as [|r rs Hr _ IH]; intros [|c col]; cbn [map dot];
    try reflexivity.
  rewrite IH, (Hf r Hr). ring.
Qed.

(** X12.  Parameters that fit a mini-batch exactly are a fixed point of the
    training step: the loss is zero, both gradients are zero, and the step
    of the optimizer leaves the weight and the bias at their values. *)
Theorem exact_fit_is_a_fixed_point (nb : notebook) (X y : tensor) (B : nat)
        (w0 w1 b0 : Q) (ow ob : option tensor) :
  params nb = [Tensor [1; 2]%nat [w0; w1]; Tensor [1%nat] [b0]] ->
  grad nb = [ow; ob] -> grad_slot_ready 2 ow -> grad_slot_ready 1 ob ->
  shape X = [B; 2%nat] -> length (data X) = (B * 2)%nat ->
  shape y = [B; 1%nat] -> length (data y) = B ->
  Forall2 (fun row label => b0 + dot row [w0; w1] == label) (chunks B 2 (data X)) (data y) ->
  exists (l : variable) (nb' : notebook) (v w0' w1' b0' gw0 gw1 gb : Q) (sw sb : list nat),
    train_step X y nb = Ok (l, nb') /\
    value l = Tensor [] [v] /\ v == 0 /\
    grad nb' = [Some (Tensor sw [gw0; gw1]); Some (Tensor sb [gb])] /\
    gw0 == 0 /\ gw1 == 0 /\ gb == 0 /\
    params nb' = [Tensor [1; 2]%nat [w0'; w1']; Tensor [1%nat] [b0']] /\
    w0' == w0 /\ w1' == w1 /\ b0' == b0.
Proof.
  intros Hp Hg Hw Hb HX HXl Hy Hyl Hfit.
  destruct X as [sx xd], y as [sy yd]. cbn [shape data] in *. subst sx sy.
  destruct (train_step_run nb B w0 w1 b0 xd yd ow ob Hp Hg Hw Hb HXl Hyl)
    as (l & gw0 & gw1 & gb & sw & sb & Hrun & Hl & Hgw0 & Hgw1 & Hgb).
  pose proof (residuals_of_exact_fit _ _ _ _ _ Hfit) as Hres.
  assert (Z0 : gw0 == 0).
  { rewrite Hgw0. unfold dl_dw. apply dot_map_zero; [|exact Hres]. intros r Hr. rewrite Hr. ring. }
  assert (Z1 : gw1 == 0).
  { rewrite Hgw1. unfold dl_dw. apply dot_map_zero; [|exact Hres]. intros r Hr. rewrite Hr. ring. }
  assert (Zb : gb == 0).
  { rewrite Hgb. unfold dl_db. apply Qsum_map_zero; [|exact Hres]. intros r Hr. rewrite Hr. ring. }
  eexists l, _, _, _, _, _, gw0, gw1, gb, sw, sb.
  split; [exact Hrun|]. split; [exact Hl|]. split.
  { unfold sum_squared_error. apply Qsum_map_zero; [|exact Hres]. intros r Hr. rewrite Hr. ring. }
  split; [reflexivity|]. split; [exact Z0|]. split; [exact Z1|]. split; [exact Zb|].
  split; [reflexivity|].
  rewrite Z0, Z1, Zb. repeat split; ring.
Qed.

Lemma exact_fit_is_a_fixed_point_witness :
  exists (l : variable) (nb' : notebook) (v w0' w1' b0' gw0 gw1 gb : Q) (sw sb : list nat),
    train_step example_X (Tensor [2; 1]%nat [0; 0]) example_notebook = Ok (l, nb') /\
    value l = Tensor [] [v] /\ v == 0 /\
    grad nb' = [Some (Tensor sw [gw0; gw1]); Some (Tensor sb [gb])] /\
    gw0 == 0 /\ gw1 == 0 /\ gb == 0 /\
    params nb' = [Tensor [1; 2]%nat [w0'; w1']; Tensor [1%nat] [b0']] /\
    w0' == 0 /\ w1' == 0 /\ b0' == 0.
Proof.
  apply (exact_fit_is_a_fixed_point example_notebook example_X (Tensor [2; 1]%nat [0; 0])
           2 0 0 0 None None); try reflexivity; try exact I.
  repeat constructor.
Defined.

End LossFacts.

Module ModelEdgeFacts.
Import Torch TorchFacts Autograd Data NN LinearRegression ModelFacts LinearRegressionSpec
       TrainingFacts.
Local Open Scope result_scope.
Local Open Scope nat_scope.

Lemma numel_app (s1 s2 : list nat) : numel (s1 ++ s2) = numel s1 * numel s2.
Proof.
  unfold numel. induction s1 as [|d s1 IH]; cbn [app fold_right].
  - symmetry. apply Nat.mul_1_l.
  - rewrite IH. apply Nat.mul_assoc.
Qed.

Lemma numel_removelast (s : list nat) :
  s <> [] -> numel (removelast s) * last s 0 = numel s.
Proof.
  intros Hs. rewrite (app_removelast_last 0 Hs) at 3.
  rewrite numel_app. change (numel [last s 0]) with (last s 0 * 1).
  rewrite Nat.mul_1_r. reflexivity.
Qed.

(** [addmm] with the bias and the transposed weight of [Linear(k, 1)]. *)
Lemma addmm_width (bias input wt : variable) (n k k' : nat) :
  shape (value bias) = [1] -> shape (value wt) = [k'; 1] -> shape (value input) = [n; k] ->
  (k = k' -> exists out, Autograd.addmm bias input wt = Ok out /\ shape (value out) = [n; 1]) /\
  (k <> k' -> Autograd.addmm bias input wt = Raise RuntimeError).
Proof.
  intros Hb Hw Hx. unfold Autograd.addmm, Torch.addmm. rewrite Hb, Hw, Hx.
  destruct (k =? k') eqn:E.
  - apply Nat.eqb_eq in E. split; [|intros H; contradiction].
    intros _. cbn [andb Nat.eqb on_value]. eexists. split; reflexivity.
  - apply Nat.eqb_neq in E. split; [intros H; contradiction|]. intros _. reflexivity.
Qed.

(** X13.  [LinearRegressionModel] accepts exactly the inputs whose last dimension
    is 2, of any number of dimensions but zero: the output has the shape of
    the input with the last dimension replaced by 1.  Any other input raises
    [RuntimeError]. *)
Theorem model_accepts_iff_last_dimension_is_2 (nb : notebook) (x : variable) :
  ready nb ->
  let s := shape (value x) in
  (s <> [] /\ last s 0 = 2 ->
   exists out, forward (net nb) x = Ok out /\ shape (value out) = removelast s ++ [1]) /\
  (s = [] \/ last s 0 <> 2 -> forward (net nb) x = Raise RuntimeError).
Proof.
  intros [(w0 & w1 & b0 & Hp) _] s.
  assert (Hf : forward (net nb) x
               = linear x (parameter nb 0) (parameter nb 1)).
  { cbn [forward LinearRegressionModel_Module net layer1 Linear_Module NN.weight NN.bias].
    apply and_then_Ok. }
  rewrite Hf. unfold linear.
  assert (Ht : exists wt, t (parameter nb 0) = Ok wt /\ shape (value wt) = [2; 1]).
  { unfold t, t_, parameter. rewrite Hp. cbn [nth value requires_grad_leaf shape on_value].
    eexists. split; reflexivity. }
  destruct Ht as (wt & Ht & Hwt). rewrite Ht. cbn [and_then].
  assert (Hb : shape (value (parameter nb 1)) = [1]).
  { unfold parameter. rewrite Hp. reflexivity. }
  fold s.
  assert (Hview : forall s', s' <> [] -> s = s' ->
            (last s' 0 = 2 ->
             exists out,
               (x2 <- view x [numel (removelast s'); last s' 0] ;;
                y2 <- Autograd.addmm (parameter nb 1) x2 wt ;;
                view y2 (removelast s' ++ [snd (dims2 (value y2))])) = Ok out /\
               shape (value out) = removelast s' ++ [1]) /\
            (last s' 0 <> 2 ->
             (x2 <- view x [numel (removelast s'); last s' 0] ;;
              y2 <- Autograd.addmm (parameter nb 1) x2 wt ;;
              view y2 (removelast s' ++ [snd (dims2 (value y2))])) = Raise RuntimeError)).
  { intros s' Hne Hs'.
    assert (Hv : exists x2, view x [numel (removelast s'); last s' 0] = Ok x2 /\
                   shape (value x2) = [numel (removelast s'); last s' 0]).
    { unfold view, reshape. fold s. rewrite Hs'.
      change (numel [numel (removelast s'); last s' 0])
        with (numel (removelast s') * (last s' 0 * 1)).
      rewrite Nat.mul_1_r, (numel_removelast s' Hne), Nat.eqb_refl.
      cbn [on_value]. eexists. split; reflexivity. }
    destruct Hv as (x2 & Hx2 & Hsx2). rewrite Hx2. cbn [and_then].
    destruct (addmm_width (parameter nb 1) x2 wt _ _ _ Hb Hwt Hsx2) as [Hok Hbad].
    split.
    - intros Hl. destruct (Hok Hl) as (y2 & Hy2 & Hsy2). rewrite Hy2. cbn [and_then].
      unfold view, reshape, dims2. rewrite Hsy2. cbn [snd].
      rewrite numel_app.
      change (numel [numel (removelast s'); 1]) with (numel (removelast s') * (1 * 1)).
      change (numel [1]) with (1 * 1). rewrite Nat.eqb_refl.
      cbn [on_value]. eexists. split; reflexivity.
    - intros Hl. rewrite (Hbad Hl). reflexivity. }
  destruct s as [|n [|k [|p s']]] eqn:Es.
  - split; [intros [H _]; contradiction|intros _; reflexivity].
  - destruct (Hview [n] ltac:(discriminate) eq_refl) as [Hok Hbad].
    split; [intros [_ H]; exact (Hok H)|].
    intros [H|H]; [discriminate|exact (Hbad H)].
  - assert (Hx : shape (value x) = [n; k]) by exact Es.
    destruct (addmm_width (parameter nb 1) x wt _ _ _ Hb Hwt Hx) as [Hok Hbad].
    cbn [last removelast app].
    split; [intros [_ H]; exact (Hok H)|].
    intros [H|H]; [discriminate|exact (Hbad H)].
  - destruct (Hview (n :: k :: p :: s') ltac:(discriminate) eq_refl) as [Hok Hbad].
    split; [intros [_ H]; exact (Hok H)|].
    intros [H|H]; [discriminate|exact (Hbad H)].
Qed.

Lemma model_accepts_iff_last_dimension_is_2_witness :
  let s := shape (value (constant example_X)) in
  (s <> [] /\ last s 0 = 2 ->
   exists out, forward (net example_notebook) (constant example_X) = Ok out /\
               shape (value out) = removelast s ++ [1]) /\
  (s = [] \/ last s 0 <> 2 ->
   forward (net example_notebook) (constant example_X) = Raise RuntimeError).
Proof.
  apply (model_accepts_iff_last_dimension_is_2 example_notebook (constant example_X)).
  exact example_notebook_ready.
Defined.

End ModelEdgeFacts.

(** ** The cells of the linear regression notebook, one after the other *)

Module NotebookFacts.
Import Torch TorchFacts Autograd Store StoreFacts Data NN LinearRegressionData LinearRegression
       LinearRegressionSpec LinearRegressionDataFacts ModelFacts TrainingFacts
       SyntheticDataFacts LoaderSpec LoaderFacts LinearRegressionCells.
Local Open Scope result_scope.
Local Open Scope nat_scope.

(** What the cell that looks at the first batch does, for the loader of
    [load_array] over a data set that is not empty. *)
Lemma first_batch_run (repr_tensor : tensor -> String.string) (nb : notebook) (N : nat) (bs : Z) :
  shape (features nb) = [N; 2] -> shape (labels nb) = [N; 1] -> 0 < N -> (0 < bs)%Z ->
  exists (nb' : notebook) (indices : list nat) (X y : tensor),
    first_batch repr_tensor
      {| dataset := {| tensors := [features nb; labels nb] |}; batch_size := bs;
         shuffle := true |} nb = Ok nb' /\
    rng nb' = advance (rng nb) N /\
    features nb' = features nb /\ labels nb' = labels nb /\
    params nb' = params nb /\ grad nb' = grad nb /\
    length indices = Nat.min (Z.to_nat bs) N /\
    NoDup indices /\ Forall (fun i => i < N) indices /\
    X = stack (map (select0 (features nb)) indices) /\
    y = stack (map (select0 (labels nb)) indices) /\
    shape X = [Nat.min (Z.to_nat bs) N; 2] /\
    shape y = [Nat.min (Z.to_nat bs) N; 1] /\
    stdout nb' = stdout nb ++ [repr_tensor X; repr_tensor y].
Proof.
  intros HF HL HN Hbs.
  pose proof (batches_of_loader (features nb) (labels nb) N bs (rng nb) HF) as Hb.
  assert (Hpos : 0 < Z.to_nat bs) by lia.
  destruct (sampled_batches N (Z.to_nat bs) (rng nb) Hpos) as (Hsizes & Hperm & Hin).
  set (idx := batch_sampler (Z.to_nat bs) (fst (randperm N (rng nb))) []) in *.
  destruct (batch_sizes_head (Z.to_nat bs) N Hpos HN) as [rest Hhd].
  rewrite Hhd in Hsizes.
  destruct idx as [|b idx]; [discriminate|].
  cbn [map] in Hsizes. injection Hsizes as Hlen _.
  destruct (Forall_inv Hin) as [Hne Hlt].
  exists (print (repr_tensor (stack (map (select0 (labels nb)) b)))
            (print (repr_tensor (stack (map (select0 (features nb)) b)))
               (with_rng nb (advance (rng nb) N)))),
    b, (stack (map (select0 (features nb)) b)), (stack (map (select0 (labels nb)) b)).
  unfold first_batch. rewrite Hb. cbn [and_then fst snd map collate tensors].
  split; [reflexivity|].
  cbn [print with_rng rng features labels params grad stdout].
  do 5 (split; [reflexivity|]).
  split; [exact Hlen|]. split.
  { pose proof (Permutation_NoDup (Permutation_sym Hperm) (seq_NoDup N 0)) as Hnd.
    cbn [concat] in Hnd. exact (NoDup_app_remove_r _ _ Hnd). }
  split; [exact Hlt|]. split; [reflexivity|]. split; [reflexivity|].
  rewrite <- Hlen. destruct b as [|i b]; [contradiction|].
  unfold stack. cbn [map shape select0 length]. rewrite HF, HL, !length_map.
  repeat split. rewrite <- app_assoc. reflexivity.
Qed.

(** X14.  The cell that looks at the first batch, for a data set that is not
    empty: the iterator draws a whole permutation, and the two tensors of
    the first batch are printed, [X] before [y], with [min batch_size N]
    rows each, taken from [features] and [labels] at the same indices.  The
    cell changes nothing else. *)
Theorem first_batch_prints_one_batch (repr_tensor : tensor -> String.string)
        (nb : notebook) (N : nat) (data_arrays : list tensor) (bs : Z) (is_train : bool) :
  shape (features nb) = [N; 2] -> shape (labels nb) = [N; 1] -> 0 < N -> (0 < bs)%Z ->
  exists (data_iter : DataLoader) (nb' : notebook) (indices : list nat) (X y : tensor),
    load_array nb data_arrays bs is_train = Ok data_iter /\
    first_batch repr_tensor data_iter nb = Ok nb' /\
    rng nb' = advance (rng nb) N /\
    features nb' = features nb /\ labels nb' = labels nb /\
    params nb' = params nb /\ grad nb' = grad nb /\
    length indices = Nat.min (Z.to_nat bs) N /\
    NoDup indices /\ Forall (fun i => i < N) indices /\
    X = stack (map (select0 (features nb)) indices) /\
    y = stack (map (select0 (labels nb)) indices) /\
    shape X = [Nat.min (Z.to_nat bs) N; 2] /\
    shape y = [Nat.min (Z.to_nat bs) N; 1] /\
    stdout nb' = stdout nb ++ [repr_tensor X; repr_tensor y].
Proof.
  intros HF HL HN Hbs.
  destruct (first_batch_run repr_tensor nb N bs HF HL HN Hbs) as (nb' & indices & X & y & H).
  eexists. exists nb', indices, X, y.
  split; [exact (load_array_ok nb N 2 1 data_arrays bs is_train HF HL HN Hbs)|]. exact H.
Qed.

Lemma first_batch_prints_one_batch_witness :
  let repr_tensor := fun _ : tensor => String.EmptyString in
  let nb := example_notebook in
  exists (data_iter : DataLoader) (nb' : notebook) (indices : list nat) (X y : tensor),
    load_array nb [] 3 true = Ok data_iter /\
    first_batch repr_tensor data_iter nb = Ok nb' /\
    rng nb' = advance (rng nb) 4 /\
    features nb' = features nb /\ labels nb' = labels nb /\
    params nb' = params nb /\ grad nb' = grad nb /\
    length indices = Nat.min (Z.to_nat 3) 4 /\
    NoDup indices /\ Forall (fun i => i < 4) indices /\
    X = stack (map (select0 (features nb)) indices) /\
    y = stack (map (select0 (labels nb)) indices) /\
    shape X = [Nat.min (Z.to_nat 3) 4; 2] /\
    shape y = [Nat.min (Z.to_nat 3) 4; 1] /\
    stdout nb' = stdout nb ++ [repr_tensor X; repr_tensor y].
Proof.
  apply (first_batch_prints_one_batch (fun _ : tensor => String.EmptyString)
           example_notebook 4 [] 3 true); reflexivity || lia.
Defined.

(** The data [synthetic_data] returns for the weight of the notebook. *)
Lemma synthetic_data_true_w (n : nat) (torch : world) :
  exists (X y : ref) (torch' : world),
    synthetic_data true_w true_b n torch = Ok ((X, y), torch') /\
    shape (load_at (heap torch') X) = [n; 2] /\
    length (data (load_at (heap torch') X)) = n * 2 /\
    shape (load_at (heap torch') y) = [n; 1] /\
    length (data (load_at (heap torch') y)) = n.
Proof.
  pose proof (synthetic_data_matrix_run true_w true_b n 2 1 torch eq_refl) as H.
  cbv zeta in H. eexists _, _, _. split; [exact H|]. cbn [heap].
  rewrite load_at_app_0, load_at_app_plus. cbn [load_at nth].
  split; [reflexivity|]. split.
  { unfold drawn_X. rewrite normal_tensor_length. cbn [numel fold_right]. lia. }
  split; [reflexivity|].
  cbn [add add_scalar data]. rewrite zip_with_length, length_map.
  rewrite (mm2_column_vector n 2 _ (data true_w) eq_refl), length_map, chunks_length.
  unfold drawn_noise. rewrite normal_tensor_length. cbn [numel fold_right]. lia.
Qed.

Lemma initialize_ready (numpy : generator) (nb : notebook) :
  grad nb = [None; None] -> ready (fst (initialize numpy nb)).
Proof.
  intros Hg. split.
  - cbn [initialize fst params normal_tensor numel fold_right Nat.mul seq map].
    eexists _, _, _. reflexivity.
  - exists None, None. cbn [initialize fst grad]. rewrite Hg. repeat split.
Qed.

Lemma report_errors_run (repr_tensor : tensor -> String.string) (nb : notebook) (w0 w1 b0 : Q) :
  params nb = [Tensor [1; 2] [w0; w1]; Tensor [1] [b0]] ->
  report_errors repr_tensor nb =
    Ok (print (PythonOutput.error_in_b_line (repr_tensor (Tensor [] [(42 # 10) - b0]%Q)))
          (print (PythonOutput.error_in_w_line
                    (repr_tensor (Tensor [2] [2 - w0; - (34 # 10) - w1]%Q))) nb)).
Proof.
  intros Hp. unfold report_errors. cbn [print params]. rewrite Hp. reflexivity.
Qed.

Import String.
Import List.

(** X15.  The cells of the notebook one after the other, for any positive
    number of examples, any batch size that is positive, and any state of
    the two random number generators: [synthetic_data] returns the data; for
    the notebook that binds them, with a freshly constructed [net], the
    loader is built, the first batch is looked at, the parameters are
    initialised, the three epochs run, and the errors of the estimates are
    printed.  No cell raises; the output is the two tensors of the first
    batch, one line for each epoch, and the two lines of the errors.  The
    data are never changed. *)
Theorem notebook_runs (repr : Q -> String.string) (repr_tensor : tensor -> String.string)
        (torch : world) (numpy : generator) (n : nat) (bs : Z) :
  0 < n ->
  (0 < bs)%Z ->
  exists (X y : ref) (torch' : world),
    synthetic_data true_w true_b n torch = Ok ((X, y), torch') /\
    forall nb : notebook,
      features nb = load_at (heap torch') X ->
      labels nb = load_at (heap torch') y ->
      grad nb = [None; None] ->
      exists (data_iter : DataLoader) (nb1 nb2 nb3 nb4 : notebook)
             (batch_X batch_y : tensor) (text1 text2 text3 : String.string) (w0 w1 b0 : Q),
        load_array nb [features nb; labels nb] bs true = Ok data_iter /\
        first_batch repr_tensor data_iter nb = Ok nb1 /\
        initialize numpy nb1 = (nb2, advance numpy 2) /\
        training repr data_iter nb2 = Ok nb3 /\
        params nb3 = [Tensor [1; 2] [w0; w1]; Tensor [1] [b0]] /\
        report_errors repr_tensor nb3 = Ok nb4 /\
        stdout nb4 = stdout nb
                     ++ [repr_tensor batch_X; repr_tensor batch_y]
                     ++ [("epoch 1, loss " ++ text1)%string;
                         ("epoch 2, loss " ++ text2)%string;
                         ("epoch 3, loss " ++ text3)%string]
                     ++ [("Error in estimating w "
                          ++ repr_tensor (Tensor [2] [2 - w0; - (34 # 10) - w1]%Q))%string;
                         ("Error in estimating b "
                          ++ repr_tensor (Tensor [] [(42 # 10) - b0]%Q))%string] /\
        features nb4 = features nb /\ labels nb4 = labels nb.
Proof.
  intros Hn Hbs.
  destruct (synthetic_data_true_w n torch) as (X & y & torch' & Hrun & HXs & HXl & Hys & Hyl).
  exists X, y, torch'. split; [exact Hrun|].
  intros nb Hfeat Hlab Hgrad.
  rewrite <- Hfeat in HXs, HXl. rewrite <- Hlab in Hys, Hyl.
  pose proof (load_array_ok nb n 2 1 [features nb; labels nb] bs true HXs Hys Hn Hbs) as Hload.
  destruct (first_batch_run repr_tensor nb n bs HXs Hys Hn Hbs)
    as (nb1 & indices & bX & by_ & Hfirst & _ & Hf1 & Hl1 & _ & Hg1 & _ & _ & _ & _ & _ & _ & _
        & Hout).
  set (nb2 := fst (initialize numpy nb1)).
  assert (Hr2 : ready nb2) by (apply initialize_ready; congruence).
  assert (Hf2 : features nb2 = features nb) by exact Hf1.
  assert (Hl2 : labels nb2 = labels nb) by exact Hl1.
  assert (Ho2 : stdout nb2 = stdout nb1) by reflexivity.
  rewrite <- Hf2 in HXs, HXl. rewrite <- Hl2 in Hys, Hyl.
  destruct (epoch_run_exists repr n bs 0 "epoch 1, loss " nb2 (fun _ => eq_refl)
              Hr2 HXs HXl Hys Hyl Hbs)
    as (e1 & _ & Ht1 & Hr1 & Hfe1 & Hle1 & text1 & Ho1).
  rewrite <- Hfe1 in HXs, HXl. rewrite <- Hle1 in Hys, Hyl.
  destruct (epoch_run_exists repr n bs 1 "epoch 2, loss " e1 (fun _ => eq_refl)
              Hr1 HXs HXl Hys Hyl Hbs)
    as (e2 & _ & Ht2 & Hre2 & Hfe2 & Hle2 & text2 & Ho2').
  rewrite <- Hfe2 in HXs, HXl. rewrite <- Hle2 in Hys, Hyl.
  destruct (epoch_run_exists repr n bs 2 "epoch 3, loss " e2 (fun _ => eq_refl)
              Hre2 HXs HXl Hys Hyl Hbs)
    as (e3 & _ & Ht3 & Hre3 & Hfe3 & Hle3 & text3 & Ho3).
  rewrite Hfe2, Hle2 in Ht3. rewrite Hfe1, Hle1 in Ht2, Ht3.
  rewrite Hf2, Hl2 in Ht1, Ht2, Ht3.
  destruct Hre3 as [(w0 & w1 & b0 & Hp3) Hg3].
  exists {| dataset := {| tensors := [features nb; labels nb] |}; batch_size := bs;
            shuffle := true |}, nb1, nb2, e3.
  eexists. exists bX, by_, text1, text2, text3, w0, w1, b0.
  split; [exact Hload|]. split; [exact Hfirst|]. split; [reflexivity|]. split.
  { unfold training. cbn [num_epochs seq for_epochs].
    rewrite Ht1. cbn [and_then]. rewrite Ht2. cbn [and_then]. rewrite Ht3. reflexivity. }
  split; [exact Hp3|]. split; [exact (report_errors_run repr_tensor e3 w0 w1 b0 Hp3)|].
  cbn [print stdout features labels]. split.
  - rewrite Ho3, Ho2', Ho1, Ho2, Hout, <- !app_assoc. reflexivity.
  - split; congruence.
Qed.

Lemma notebook_runs_witness :
  let repr := fun _ : Q => String.EmptyString in
  let repr_tensor := fun _ : tensor => String.EmptyString in
  exists (X y : ref) (torch' : world),
    synthetic_data true_w true_b 1000 empty_world = Ok ((X, y), torch') /\
    forall nb : notebook,
      features nb = load_at (heap torch') X ->
      labels nb = load_at (heap torch') y ->
      grad nb = [None; None] ->
      exists (data_iter : DataLoader) (nb1 nb2 nb3 nb4 : notebook)
             (batch_X batch_y : tensor) (text1 text2 text3 : String.string) (w0 w1 b0 : Q),
        load_array nb [features nb; labels nb] 10 true = Ok data_iter /\
        first_batch repr_tensor data_iter nb = Ok nb1 /\
        initialize zero_generator nb1 = (nb2, advance zero_generator 2) /\
        training repr data_iter nb2 = Ok nb3 /\
        params nb3 = [Tensor [1; 2] [w0; w1]; Tensor [1] [b0]] /\
        report_errors repr_tensor nb3 = Ok nb4 /\
        stdout nb4 = stdout nb
                     ++ [repr_tensor batch_X; repr_tensor batch_y]
                     ++ [("epoch 1, loss " ++ text1)%string;
                         ("epoch 2, loss " ++ text2)%string;
                         ("epoch 3, loss " ++ text3)%string]
                     ++ [("Error in estimating w "
                          ++ repr_tensor (Tensor [2] [2 - w0; - (34 # 10) - w1]%Q))%string;
                         ("Error in estimating b "
                          ++ repr_tensor (Tensor [] [(42 # 10) - b0]%Q))%string] /\
        features nb4 = features nb /\ labels nb4 = labels nb.
Proof.
  apply (notebook_runs (fun _ : Q => String.EmptyString)
           (fun _ : tensor => String.EmptyString) empty_world zero_generator 1000 10).
  - lia.
  - reflexivity.
Defined.

End NotebookFacts.

(** ** [synthetic_data] and the model *)

Module RoundTripFacts.
Import Torch TorchFacts Autograd Store StoreFacts Data NN LinearRegressionData LinearRegression
       LinearRegressionSpec LinearRegressionDataFacts ModelFacts TrainingFacts
       SyntheticDataFacts.
Local Open Scope result_scope.
Local Open Scope nat_scope.

Lemma zip_with_plus_ext (f h : list Q -> Q) (rows : list (list Q)) :
  (forall row, f row == h row)%Q ->
  forall noise : list Q,
    Forall2 Qeq (zip_with Qplus (map f rows) noise) (zip_with Qplus (map h rows) noise).
Proof.
  intros H. induction rows as [|row rows IH]; intros [|e noise]; cbn [map zip_with];
    constructor.
  - rewrite (H row). reflexivity.
  - apply IH.
Qed.

(** X16.  The data of [synthetic_data] and the model fit together: the network
    with the true weight and the true bias as its parameters predicts, for
    the [features] the call returned, the [labels] it returned up to the
    noise that was added; every label is the prediction plus its noise. *)
Theorem true_parameters_predict_the_labels (n : nat) (torch : world) :
  exists (X y : ref) (torch' : world),
    synthetic_data true_w true_b n torch = Ok ((X, y), torch') /\
    forall nb : notebook,
      features nb = load_at (heap torch') X ->
      params nb = [Tensor [1; 2] [2; - (34 # 10)]%Q; Tensor [1] [42 # 10]%Q] ->
      exists out : variable,
        forward (net nb) (constant (features nb)) = Ok out /\
        shape (value out) = [n; 1] /\
        shape (load_at (heap torch') y) = [n; 1] /\
        Forall2 Qeq (data (load_at (heap torch') y))
                    (zip_with Qplus (data (value out))
                                    (data (drawn_noise torch n 2 [n; 1]))).
Proof.
  pose proof (synthetic_data_matrix_run true_w true_b n 2 1 torch eq_refl) as H.
  cbv zeta in H. eexists _, _, _. split; [exact H|]. cbn [heap].
  intros nb Hf Hp. rewrite load_at_app_0 in Hf. rewrite load_at_app_plus.
  cbn [load_at nth].
  assert (HF : features nb = Tensor [n; 2] (data (drawn_X torch n 2))) by exact Hf.
  rewrite HF. rewrite (forward_batch nb n _ _ _ _ Hp).
  eexists. split; [reflexivity|]. split; [reflexivity|]. split; [reflexivity|].
  cbn [value data add add_scalar]. rewrite (mm2_column_vector n 2 _ (data true_w) eq_refl).
  rewrite map_map. unfold predictions.
  apply zip_with_plus_ext. intros row. unfold true_w, true_b. cbn [data]. ring.
Qed.

End RoundTripFacts.

(** ** Labels that are a vector: broadcasting in the loss *)

Module BroadcastFacts.
Import Torch TorchFacts Autograd Store StoreFacts Data NN LinearRegressionData LinearRegression
       LinearRegressionSpec LinearRegressionDataFacts ModelFacts TrainingFacts LossSpec.
Local Open Scope result_scope.
Local Open Scope nat_scope.

Lemma broadcast_column_with_vector (B : nat) : broadcast_shapes [B; 1] [B] = Some [B; B].
Proof.
  unfold broadcast_shapes. cbn [rev app broadcast_rev].
  destruct (1 =? B) eqn:E.
  - apply Nat.eqb_eq in E. subst B. reflexivity.
  - reflexivity.
Qed.

Lemma concat_repeat_singleton (p : Q) (B : nat) :
  concat (repeat [p] B) = repeat p B.
Proof.
  induction B as [|B IH]; [reflexivity|]. cbn [repeat concat app]. rewrite IH. reflexivity.
Qed.

Lemma expand_aligned_cons (ds dt : nat) (src tgt : list nat) (d : list Q) :
  expand_aligned (ds :: src) (dt :: tgt) d
  = if ds =? dt
    then concat (map (expand_aligned src tgt) (chunks ds (numel src) d))
    else concat (concat (repeat (map (expand_aligned src tgt) (chunks ds (numel src) d)) dt)).
Proof. reflexivity. Qed.

Lemma concat_repeat_one {A : Type} (l : list A) (B : nat) :
  concat (repeat [l] B) = repeat l B.
Proof.
  induction B as [|B IH]; [reflexivity|]. cbn [repeat concat app]. rewrite IH. reflexivity.
Qed.

(** One element expanded to a row of [B] elements. *)
Lemma expand_aligned_element (B : nat) (p : Q) : expand_aligned [1] [B] [p] = repeat p B.
Proof.
  rewrite expand_aligned_cons. cbn [numel fold_right chunks firstn map expand_aligned].
  destruct (1 =? B) eqn:E.
  - apply Nat.eqb_eq in E. rewrite <- E. reflexivity.
  - rewrite concat_repeat_one. apply concat_repeat_singleton.
Qed.

(** A column of [B] elements expanded to [B] columns: every element is
    repeated along its row. *)
Lemma expand_column (B : nat) (d : list Q) :
  length d = B -> expand [B; 1] [B; B] d = flat_map (fun p => repeat p B) d.
Proof.
  intros Hd. unfold expand. cbn [length Nat.sub repeat app].
  rewrite expand_aligned_cons, Nat.eqb_refl.
  change (numel [1]) with 1.
  replace (chunks B 1 d) with (map (fun v => [v]) d)
    by (subst B; symmetry; apply chunks_singletons).
  rewrite map_map.
  rewrite flat_map_concat_map. f_equal. apply map_ext. intros p.
  apply expand_aligned_element.
Qed.

(** A vector of [B] elements expanded to [B] rows: the vector is every row. *)
Lemma expand_vector (B : nat) (d : list Q) :
  length d = B -> expand [B] [B; B] d = concat (repeat d B).
Proof.
  intros Hd. unfold expand. cbn [length Nat.sub repeat app].
  rewrite expand_aligned_cons. change (numel [B]) with (B * 1). rewrite Nat.mul_1_r.
  cbn [chunks map]. replace (firstn B d) with d by (subst B; symmetry; apply firstn_all).
  rewrite (expand_aligned_same [B] d) by (cbn [numel fold_right]; lia).
  destruct (1 =? B) eqn:E.
  - apply Nat.eqb_eq in E. rewrite <- E. cbn [concat repeat]. reflexivity.
  - rewrite concat_repeat_one. reflexivity.
Qed.

Lemma zip_with_app (g : Q -> Q -> Q) (u1 v1 u2 v2 : list Q) :
  length u1 = length v1 ->
  zip_with g (u1 ++ u2) (v1 ++ v2) = zip_with g u1 v1 ++ zip_with g u2 v2.
Proof.
  revert v1. induction u1 as [|x u1 IH]; intros [|y v1] H; try discriminate; [reflexivity|].
  cbn [app zip_with]. rewrite IH by (simpl in H; lia). reflexivity.
Qed.

Lemma Qsum_app (u v : list Q) : (Qsum (u ++ v) == Qsum u + Qsum v)%Q.
Proof.
  unfold Qsum. induction u as [|x u IH]; simpl; [ring|]. rewrite IH. ring.
Qed.

Lemma zip_with_repeat_l (g : Q -> Q -> Q) (p : Q) (ys : list Q) :
  zip_with g (repeat p (length ys)) ys = map (g p) ys.
Proof.
  induction ys as [|y ys IH]; [reflexivity|]. cbn [length repeat zip_with map].
  rewrite IH. reflexivity.
Qed.

Lemma pairwise_sum (ps ys : list Q) :
  (Qsum (map (fun d => d * d)
           (zip_with Qminus (flat_map (fun p => repeat p (length ys)) ps)
                            (concat (repeat ys (length ps)))))
   == pairwise_squared_error ps ys)%Q.
Proof.
  unfold pairwise_squared_error.
  induction ps as [|p ps IH]; [reflexivity|].
  cbn [flat_map length repeat concat map].
  rewrite zip_with_app by (rewrite repeat_length; reflexivity).
  rewrite map_app, Qsum_app, IH, Qsum_cons, zip_with_repeat_l, map_map. reflexivity.
Qed.

(** X20.  [synthetic_data] does not reshape [y]: for a weight vector of two
    elements it returns labels of shape [(n,)], not [(n, 1)].  The loss of the
    predictions of the model, of shape [(n, 1)], against such labels is
    computed after broadcasting both to [(n, n)]: it is the sum of the squared
    differences of every prediction with every label, not only with its
    own. *)
Theorem vector_labels_are_compared_pairwise (w : tensor) (b : Q) (n : nat) (torch : world) :
  shape w = [2] -> length (data w) = 2 ->
  exists (X y : ref) (torch' : world),
    synthetic_data w b n torch = Ok ((X, y), torch') /\
    shape (load_at (heap torch') X) = [n; 2] /\
    shape (load_at (heap torch') y) = [n] /\
    length (data (load_at (heap torch') y)) = n /\
    forall (nb : notebook) (w0 w1 b0 : Q),
      features nb = load_at (heap torch') X ->
      labels nb = load_at (heap torch') y ->
      params nb = [Tensor [1; 2] [w0; w1]; Tensor [1] [b0]] ->
      exists (l : variable) (v : Q),
        epoch_loss nb = Ok l /\
        value l = Tensor [] [v] /\
        (v == pairwise_squared_error
                (predictions w0 w1 b0 (chunks n 2 (data (features nb))))
                (data (labels nb)))%Q.
Proof.
  intros Hs Hl.
  assert (Hd : shape0 w = Ok 2) by (unfold shape0; rewrite Hs; reflexivity).
  assert (Hm : matmul (drawn_X torch n 2) w
               = Ok (Tensor [n] (mm2 n 2 1 (data (drawn_X torch n 2)) (data w)))).
  { unfold matmul. rewrite Hs. reflexivity. }
  destruct (synthetic_data_run_ok w b n torch 2 _ Hd Hm eq_refl) as (torch' & Hrun & HX & Hy & _).
  cbn [shape] in Hy.
  exists (length (heap torch)), (length (heap torch) + 2), torch'.
  split; [exact Hrun|]. rewrite HX, Hy.
  assert (Hyl : length (data (add (add_scalar
                   (Tensor [n] (mm2 n 2 1 (data (drawn_X torch n 2)) (data w))) b)
                   (drawn_noise torch n 2 [n]))) = n).
  { cbn [add add_scalar data]. rewrite zip_with_length, length_map.
    rewrite (mm2_column_vector n 2 _ (data w) Hl), length_map, chunks_length.
    unfold drawn_noise. rewrite normal_tensor_length. cbn [numel fold_right]. lia. }
  split; [reflexivity|]. split; [reflexivity|]. split; [exact Hyl|].
  intros nb w0 w1 b0 Hf Hlab Hp.
  unfold epoch_loss.
  assert (HF : features nb = Tensor [n; 2] (data (features nb))) by (rewrite Hf; reflexivity).
  replace (constant (features nb)) with (constant (Tensor [n; 2] (data (features nb))))
    by (f_equal; symmetry; exact HF).
  rewrite (forward_batch nb n _ _ _ _ Hp). cbn [and_then].
  set (ps := predictions w0 w1 b0 (chunks n 2 (data (features nb)))).
  assert (Hps : length ps = n).
  { unfold ps, predictions. rewrite length_map. apply chunks_length. }
  assert (Hls : shape (labels nb) = [n]) by (rewrite Hlab; reflexivity).
  assert (Hll : length (data (labels nb)) = n) by (rewrite Hlab; exact Hyl).
  unfold loss, mse_loss_sum. cbn [value constant shape]. rewrite Hls.
  destruct (list_eq_dec Nat.eq_dec [n; 1] [n]) as [e|_]; [discriminate|].
  rewrite broadcast_column_with_vector.
  eexists. eexists. split; [reflexivity|]. split; [reflexivity|].
  cbn [mse_loss_sum_same expand_to recorded value constant shape data sub].
  rewrite Hls, (expand_column n ps Hps), (expand_vector n _ Hll).
  replace (flat_map (fun p => repeat p n) ps)
    with (flat_map (fun p => repeat p (length (data (labels nb)))) ps)
    by (rewrite Hll; reflexivity).
  replace (concat (repeat (data (labels nb)) n))
    with (concat (repeat (data (labels nb)) (length ps)))
    by (rewrite Hps; reflexivity).
  apply pairwise_sum.
Qed.

Lemma vector_labels_are_compared_pairwise_witness :
  exists (X y : ref) (torch' : world),
    synthetic_data (Tensor [2] [2; - (34 # 10)]%Q) true_b 1000 empty_world
      = Ok ((X, y), torch') /\
    shape (load_at (heap torch') X) = [1000; 2] /\
    shape (load_at (heap torch') y) = [1000] /\
    length (data (load_at (heap torch') y)) = 1000 /\
    forall (nb : notebook) (w0 w1 b0 : Q),
      features nb = load_at (heap torch') X ->
      labels nb = load_at (heap torch') y ->
      params nb = [Tensor [1; 2] [w0; w1]; Tensor [1] [b0]] ->
      exists (l : variable) (v : Q),
        epoch_loss nb = Ok l /\
        value l = Tensor [] [v] /\
        (v == pairwise_squared_error
                (predictions w0 w1 b0 (chunks 1000 2 (data (features nb))))
                (data (labels nb)))%Q.
Proof.
  apply (vector_labels_are_compared_pairwise (Tensor [2] [2; - (34 # 10)]%Q) true_b 1000
           empty_world); reflexivity.
Defined.

End BroadcastFacts.

(** ** Softmax regression: [Reshape] and [init_weights] *)

Module SoftmaxInitFacts.
Import Torch TorchFacts Autograd NN SoftmaxRegression SoftmaxInit.
Local Open Scope nat_scope.

Lemma module_object_induction (P : module_object -> Prop) :
  (forall r, P (ReshapeObject r)) ->
  (forall l, P (LinearObject l)) ->
  (forall children, Forall P children -> P (SequentialObject children)) ->
  forall m, P m.
Proof.
  intros HR HL HS. fix IH 1. intros [r|l|children].
  - apply HR.
  - apply HL.
  - apply HS. induction children as [|c cs IHcs]; constructor; [apply IH|exact IHcs].
Qed.

Lemma advance_advance (g : generator) (a b : nat) :
  advance (advance g a) b = advance g (a + b).
Proof.
  unfold advance. cbn [normal_at randint_at position]. f_equal. lia.
Qed.

Lemma advance_0 (g : generator) : advance g 0 = g.
Proof.
  destruct g as [na ra p]. unfold advance. cbn. f_equal. lia.
Qed.

Lemma draws_app (g : generator) (std : Q) (s1 s2 : list (list nat)) :
  draws g std (s1 ++ s2)
  = draws g std s1 ++ draws (advance g (list_sum (map numel s1))) std s2.
Proof.
  revert g. induction s1 as [|s s1 IH]; intros g; cbn [app draws map list_sum].
  - rewrite advance_0. reflexivity.
  - rewrite IH, advance_advance. reflexivity.
Qed.

(** X17.  [apply(init_weights)] on any module: the weight of every linear layer
    is drawn anew, with its shape, one layer after the other in the order
    of the layers, from a normal distribution with standard deviation 0.01;
    the weights stay the leaves they are; biases, classes and sizes are as
    before; and the generator has handed out one variate for every element
    of a weight. *)
Theorem init_weights_redraws_every_linear_weight (m : module_object) (g : generator) :
  let m' := fst (apply init_weights m g) in
  let g' := snd (apply init_weights m g) in
  structure m' = structure m /\
  map bias (linears m') = map bias (linears m) /\
  map (fun l => value (weight l)) (linears m')
    = draws g (1 # 100) (map weight_shape (linears m)) /\
  map (fun l => (grad_fn (weight l), leaf (weight l))) (linears m')
    = map (fun l => (grad_fn (weight l), leaf (weight l))) (linears m) /\
  g' = advance g (list_sum (map numel (map weight_shape (linears m)))).
Proof.
  intros m' g'. subst m' g'. change (initialised m g (apply init_weights m g)).
  revert g.
  induction m as [r|l|children IH] using module_object_induction; intros g.
  - unfold initialised. cbn. rewrite advance_0. repeat split.
  - unfold initialised. cbn. rewrite Nat.add_0_r. repeat split.
  - cbn [apply].
    set (go := fix apply_children (cs : list module_object) (g : generator) :=
           match cs with
           | [] => ([], g)
           | c :: cs' =>
               let '(c', g1) := apply init_weights c g in
               let '(cs'', g2) := apply_children cs' g1 in
               (c' :: cs'', g2)
           end).
    assert (H : forall g, initialised (SequentialObject children) g
                  (SequentialObject (fst (go children g)), snd (go children g))).
    { clear g. induction IH as [|c cs Hc _ IHcs]; intros g.
      - unfold initialised. cbn. rewrite advance_0. repeat split.
      - cbn [go]. fold go.
        specialize (Hc g). destruct (apply init_weights c g) as [c' g1].
        specialize (IHcs g1). destruct (go cs g1) as [cs' g2].
        destruct Hc as (Hs1 & Hb1 & Hw1 & Hl1 & Hg1).
        destruct IHcs as (Hs2 & Hb2 & Hw2 & Hl2 & Hg2).
        unfold initialised. cbn [fst snd structure linears flat_map map] in *.
        injection Hs2 as Hs2.
        rewrite !map_app, Hs1, Hs2, Hb1, Hb2, Hw1, Hw2, Hl1, Hl2.
        rewrite draws_app, list_sum_app, <- advance_advance, <- Hg1, <- Hg2.
        repeat split. }
    specialize (H g). destruct (go children g) as [cs' g']. exact H.
Qed.

Lemma object_forward_net (weight bias x : variable) :
  object_forward (net_object weight bias) x
  = forward (SoftmaxRegression.net weight bias) x.
Proof.
  cbn [object_forward net_object forward Sequential_Module SoftmaxRegression.net
         Sequential_forward Reshape_Module Linear_Module].
  destruct (view_784 x) as [r|e]; [|reflexivity].
  cbn [and_then]. destruct (linear r weight bias); reflexivity.
Qed.

(** X18.  [net.apply(init_weights)] on the network of the notebook: the weight of
    its linear layer is drawn anew, [10 * 784] variates, and nothing else changes;
    after it the network maps every row [x_i] of 784 elements to
    [x_i W^T + b] with the weight [W] that was drawn. *)
Theorem net_after_init_weights (weight bias x : variable) (g : generator) (n : nat) :
  shape (value weight) = [10; 784] -> shape (value bias) = [10] ->
  numel (shape (value x)) = n * 784 -> 0 < n ->
  let W := normal_tensor g 0 (1 # 100) [10; 784] in
  exists out : variable,
    net_apply_init_weights weight bias g
      = (net_object (Var W (grad_fn weight) (leaf weight)) bias, advance g (10 * 784)) /\
    object_forward (fst (net_apply_init_weights weight bias g)) x = Ok out /\
    value out = Tensor [n; 10]
                  (flat_map (LinearRegressionSpec.affine_row (chunks 10 784 (data W))
                                                             (data (value bias)))
                     (chunks n 784 (data (value x)))).
Proof.
  intros Hw Hb Hn Hpos W.
  assert (Hrun : net_apply_init_weights weight bias g
                 = (net_object (Var W (grad_fn weight) (leaf weight)) bias, advance g (10 * 784))).
  { unfold net_apply_init_weights, net_object.
    cbn [apply init_weights normal_ NN.weight NN.bias in_features out_features].
    rewrite Hw. reflexivity. }
  rewrite Hrun. cbn [fst]. rewrite object_forward_net.
  destruct (ModelFacts.view_784_rows x n Hn) as (r & Hr & Hrv).
  destruct (ModelFacts.linear_matrix r (Var W (grad_fn weight) (leaf weight)) bias n 784 10)
    as (out & Ho & Hv).
  { rewrite Hrv. reflexivity. }
  { reflexivity. }
  { exact Hb. }
  { cbn [value]. unfold W. rewrite normal_tensor_length. reflexivity. }
  exists out. split; [reflexivity|]. split.
  - cbn [forward Sequential_Module SoftmaxRegression.net Sequential_forward Reshape_Module
           Linear_Module NN.weight NN.bias].
    rewrite Hr. cbn [and_then]. rewrite Ho. reflexivity.
  - rewrite Hv, Hrv. reflexivity.
Qed.

Lemma net_after_init_weights_witness :
  let weight := requires_grad_leaf 0 (Tensor [10; 784] (repeat 0%Q (10 * 784))) in
  let bias := requires_grad_leaf 1 (Tensor [10] (repeat 0%Q 10)) in
  let x := constant (Tensor [1; 28; 28] (repeat 1%Q 784)) in
  let g := LinearRegressionSpec.zero_generator in
  let W := normal_tensor g 0 (1 # 100) [10; 784] in
  exists out : variable,
    net_apply_init_weights weight bias g
      = (net_object (Var W (grad_fn weight) (leaf weight)) bias, advance g (10 * 784)) /\
    object_forward (fst (net_apply_init_weights weight bias g)) x = Ok out /\
    value out = Tensor [1; 10]
                  (flat_map (LinearRegressionSpec.affine_row (chunks 10 784 (data W))
                                                             (data (value bias)))
                     (chunks 1 784 (data (value x)))).
Proof.
  apply (net_after_init_weights
           (requires_grad_leaf 0 (Tensor [10; 784] (repeat 0%Q (10 * 784))))
           (requires_grad_leaf 1 (Tensor [10] (repeat 0%Q 10)))
           (constant (Tensor [1; 28; 28] (repeat 1%Q 784)))
           LinearRegressionSpec.zero_generator 1); try reflexivity.
  apply Nat.lt_0_1.
Defined.

(** X19.  [Reshape] needs a number of elements that is a multiple of 784,
    whatever the shape of its input: any other input raises [RuntimeError],
    in [Reshape] and so in the network.  When [Reshape] returns, the result
    has the elements of the input in rows of 784, and reshaping it once more
    changes nothing.  An input without elements is accepted and has no
    rows. *)
Theorem reshape_needs_a_multiple_of_784 (x : variable) :
  let n := numel (shape (value x)) in
  (n mod 784 <> 0 ->
   forward (Build_Reshape) x = Raise RuntimeError /\
   forall weight bias : variable,
     forward (SoftmaxRegression.net weight bias) x = Raise RuntimeError) /\
  (forall r : variable,
     forward (Build_Reshape) x = Ok r ->
     n mod 784 = 0 /\
     value r = Tensor [n / 784; 784] (data (value x)) /\
     exists r' : variable, forward (Build_Reshape) r = Ok r' /\ value r' = value r) /\
  (n = 0 ->
   exists r : variable,
     forward (Build_Reshape) x = Ok r /\ value r = Tensor [0; 784] (data (value x))).
Proof.
  intros n.
  assert (Hok : n mod 784 = 0 ->
            exists r r' : variable,
              forward (Build_Reshape) x = Ok r /\
              value r = Tensor [n / 784; 784] (data (value x)) /\
              forward (Build_Reshape) r = Ok r' /\ value r' = value r).
  { intros Hm. cbn [forward Reshape_Module].
    assert (Hq : n = n / 784 * 784).
    { pose proof (Nat.div_mod_eq n 784) as H. rewrite Hm in H. lia. }
    destruct (ModelFacts.view_784_rows x (n / 784) Hq) as (r & Hr & Hrv).
    assert (Hq' : numel (shape (value r)) = n / 784 * 784).
    { rewrite Hrv. cbn [shape]. change (numel [n / 784; 784]) with (n / 784 * (784 * 1)).
      lia. }
    destruct (ModelFacts.view_784_rows r (n / 784) Hq') as (r' & Hr' & Hrv').
    exists r, r'. split; [exact Hr|]. split; [exact Hrv|]. split; [exact Hr'|].
    rewrite Hrv', Hrv. reflexivity. }
  split; [|split].
  - intros Hm.
    assert (Hr : forward (Build_Reshape) x = Raise RuntimeError).
    { cbn [forward Reshape_Module]. unfold view_784, view_rows. fold n.
      destruct (n mod 784 =? 0) eqn:E; [apply Nat.eqb_eq in E; contradiction|].
      reflexivity. }
    split; [exact Hr|]. intros weight bias.
    cbn [forward Sequential_Module SoftmaxRegression.net Sequential_forward].
    cbn [forward Reshape_Module] in Hr. cbn [forward Reshape_Module]. rewrite Hr. reflexivity.
  - intros r Hr.
    destruct (Nat.eq_dec (n mod 784) 0) as [Hm|Hm].
    + destruct (Hok Hm) as (r1 & r' & Hr1 & Hv & Hr' & Hv').
      rewrite Hr in Hr1. injection Hr1 as <-.
      split; [exact Hm|]. split; [exact Hv|]. exists r'. split; assumption.
    + exfalso. cbn [forward Reshape_Module] in Hr. unfold view_784, view_rows in Hr. fold n in Hr.
      destruct (n mod 784 =? 0) eqn:E; [apply Nat.eqb_eq in E; contradiction|].
      discriminate.
  - intros H0.
    destruct (Hok ltac:(rewrite H0; reflexivity)) as (r & _ & Hr & Hv & _).
    exists r. split; [exact Hr|]. rewrite Hv, H0. reflexivity.
Qed.

End SoftmaxInitFacts.
